(** * llm-throttle: token buckets and the dual-limit throttle engine

    A shallow embedding of [src/token-bucket.ts] and [src/index.ts], with
    the default rules of [src/utils/validation.ts], the lock of
    [src/utils/async-lock.ts] and the store of [src/storage/in-memory.ts].

    Conventions of the embedding.
    - A JavaScript [number] that carries an amount of tokens or a time in
      milliseconds is an exact rational ([Q]); numeric comparison ([<], [>=],
      [===] on numbers) is comparison of rationals.  The code computes in
      IEEE binary64 and rounds every operation; the model does not round,
      so an amount of the model is the amount of the code up to that
      rounding.  The statements are about what the rounding leaves
      alone: which branch is taken, what is compared with what, which
      fields are written and from which operands, bounds and
      monotonicity.  [NaN] and the infinities are outside the model.
    - Numbers that count records ([maxHistoryRecords],
      [efficiencyWindowSize], array lengths) are integers ([Z]).
    - Every method reads the injected clock; one synchronous call sees one
      clock value, which is the explicit argument [now] of each method.
      [consumeOrThrow] makes two calls and has two.
    - A method that can throw returns a [Result]; a method of a mutable
      object takes the object and returns it next to its result, also when
      it throws, so that what a failing call leaves behind is visible.
    - The persistence collaborator is external.  What the code does to the
      in-memory objects on behalf of persistence (the refill performed by
      [getState] inside [persistState]) is modelled; the asynchronous writes
      and [initialize] are not.
    - The [Async] variants of the engine's methods run the body of the
      synchronous ones while they hold the lock; the bodies are modelled.
    - A string that the code inspects (a request id) is the sequence of
      its UTF-16 code units, and the white space that [trim] removes is
      the white space of ECMAScript.  The messages and the storage keys,
      which are literals of the source, are Rocq strings.
    - The engine is built without custom validation rules.
    - The lock is modelled as the object that [acquire], [release] and
      [clear] mutate; a caller stands for the promise that [acquire] hands
      out, and each call returns the promises it settles.  The scheduling of
      the continuations is not modelled.
    - The store is modelled as the object its methods mutate; each method
      takes effect when it is called.
    - The constant 1.1 of [validateState] is the rational 11/10. *)

From Stdlib Require Import QArith Qround Lqa ZArith List String Ascii Bool Lia.
From Stdlib Require Import DecimalString.
Import ListNotations.
Open Scope Q_scope.

Set Implicit Arguments.

(** ** Numbers *)

(** [x < y] on numbers. *)
Definition Qlt_bool (x y : Q) : bool := negb (Qle_bool y x).

Module Math.
Definition min (a b : Q) : Q := if Qle_bool a b then a else b.
Definition max (a b : Q) : Q := if Qle_bool a b then b else a.
Definition ceil (x : Q) : Q := inject_Z (Qceiling x).
End Math.

(** ** Strings *)

(** A JavaScript string is the sequence of its UTF-16 code units, and
    [===] on strings compares the two sequences. *)
Module JSString.

Definition CodeUnit : Type := N.

Definition t : Type := list CodeUnit.

(** [a === b] *)
Fixpoint eqb (a b : t) : bool :=
  match a, b with
  | [], [] => true
  | x :: a', y :: b' => N.eqb x y && eqb a' b'
  | _, _ => false
  end.

(** The string of a literal written in ASCII: one code unit per
    character. *)
Definition ofAscii (s : string) : t :=
  map N_of_ascii (list_ascii_of_string s).

End JSString.

(** ** Thrown values *)

Inductive Reason : Type := rpm_limit | tpm_limit.

(** One constructor per [throw] site of the two classes; the arguments are
    the values interpolated in the message or stored in the error object. *)
Inductive Error : Type :=
| InvalidConfigError_capacity          (* 'Capacity must be greater than 0' *)
| InvalidConfigError_refillRate        (* 'Refill rate must be greater than 0' *)
| InvalidConfigError_initialNegative   (* 'Initial tokens cannot be negative' *)
| InvalidConfigError_initialExceeds    (* 'Initial tokens cannot exceed capacity' *)
| Error_consumeNegative                (* 'Cannot consume negative tokens' *)
| Error_refundNegative                 (* 'Cannot refund negative tokens' *)
| Error_stateOutOfRange                (* 'Invalid state: available tokens out of range' *)
| Error_stateCapacityMismatch          (* 'Invalid state: capacity mismatch' *)
| Error_estimatedNegative              (* 'Estimated tokens cannot be negative' *)
| Error_requestIdEmpty                 (* 'Request ID cannot be empty' *)
| Error_actualNegative                 (* 'Actual tokens cannot be negative' *)
| Error_requestIdNotFound (requestId : JSString.t)
| Error_retentionNotPositive           (* 'History retention must be positive' *)
| Error_maxRecordsNotPositive          (* 'Max history records must be positive' *)
| Error_configurationInvalid (errors : list string)
| RateLimitError (additionalTokens : Q) (requestId : JSString.t)
                 (reason : Reason) (availableIn : Q).

Inductive Result (A : Type) : Type :=
| Ok (a : A)
| Throw (e : Error).
Arguments Ok {A} a.
Arguments Throw {A} e.

(** The error taxonomy of the specification, section 7. *)
Inductive ErrorKind : Type :=
| ConfigurationError | InvalidArgument | NotFound | InvalidState | AdmissionDenied.

Definition kind_of (e : Error) : ErrorKind :=
  match e with
  | InvalidConfigError_capacity | InvalidConfigError_refillRate
  | InvalidConfigError_initialNegative | InvalidConfigError_initialExceeds
  | Error_configurationInvalid _ => ConfigurationError
  | Error_consumeNegative | Error_refundNegative | Error_estimatedNegative
  | Error_requestIdEmpty | Error_actualNegative
  | Error_retentionNotPositive | Error_maxRecordsNotPositive => InvalidArgument
  | Error_requestIdNotFound _ => NotFound
  | Error_stateOutOfRange | Error_stateCapacityMismatch => InvalidState
  | RateLimitError _ _ _ _ => AdmissionDenied
  end.

(** ** TokenBucket *)

Module TokenBucketState.
Record t : Type := mk { available : Q; capacity : Q; lastRefill : Q }.
End TokenBucketState.

Module TokenBucketConfig.
Record t : Type := mk {
  capacity : Q;
  refillRate : Q;
  initialTokens : option Q
}.
End TokenBucketConfig.

Module TokenBucket.

Record t : Type := mk {
  _capacity : Q;
  _available : Q;
  _refillRate : Q;
  _lastRefill : Q;
  (* a storage and a storage key are attached *)
  _storage : bool
}.

Definition set_available (v : Q) (b : t) : t :=
  mk (_capacity b) v (_refillRate b) (_lastRefill b) (_storage b).

Definition set_lastRefill (v : Q) (b : t) : t :=
  mk (_capacity b) (_available b) (_refillRate b) v (_storage b).

Definition validateConfig (config : TokenBucketConfig.t) : Result unit :=
  if Qle_bool (TokenBucketConfig.capacity config) 0 then
    Throw InvalidConfigError_capacity
  else if Qle_bool (TokenBucketConfig.refillRate config) 0 then
    Throw InvalidConfigError_refillRate
  else
    match TokenBucketConfig.initialTokens config with
    | Some i =>
        if Qlt_bool i 0 then Throw InvalidConfigError_initialNegative
        else if Qlt_bool (TokenBucketConfig.capacity config) i then
          Throw InvalidConfigError_initialExceeds
        else Ok tt
    | None => Ok tt
    end.

(** [new TokenBucket(config, storage)] with the clock reading [now]. *)
Definition new (config : TokenBucketConfig.t) (storage : bool) (now : Q)
  : Result t :=
  match validateConfig config with
  | Throw e => Throw e
  | Ok _ =>
      Ok (mk (TokenBucketConfig.capacity config)
             (match TokenBucketConfig.initialTokens config with
              | Some i => i
              | None => TokenBucketConfig.capacity config
              end)
             (TokenBucketConfig.refillRate config)
             now
             storage)
  end.

Definition capacity (b : t) : Q := _capacity b.
Definition refillRate (b : t) : Q := _refillRate b.

(** [refill]; the amounts are exact where the code rounds each
    operation to binary64. *)
Definition refill (now : Q) (b : t) : t :=
  let timePassed := (now - _lastRefill b) / 1000 in
  if Qle_bool timePassed 0 then b
  else
    let tokensToAdd := timePassed * _refillRate b in
    set_lastRefill now
      (set_available (Math.min (_capacity b) (_available b + tokensToAdd)) b).

(** The getter [available]. *)
Definition available (now : Q) (b : t) : Q * t :=
  let b := refill now b in
  (_available b, b).

Definition hasTokens (count : Q) (now : Q) (b : t) : bool * t :=
  if Qlt_bool count 0 then (false, b)
  else
    let b := refill now b in
    (Qle_bool count (_available b), b).

Definition getState (now : Q) (b : t) : TokenBucketState.t * t :=
  let b := refill now b in
  (TokenBucketState.mk (_available b) (_capacity b) (_lastRefill b), b).

(** [persistState]: the write is fire-and-forget; [getState] refills. *)
Definition persistState (now : Q) (b : t) : t :=
  if negb (_storage b) then b
  else snd (getState now b).

Definition consume (count : Q) (now : Q) (b : t) : Result bool * t :=
  if Qlt_bool count 0 then (Throw Error_consumeNegative, b)
  else
    let b := refill now b in
    if Qle_bool count (_available b) then
      let b := set_available (_available b - count) b in
      (Ok true, persistState now b)
    else (Ok false, b).

Definition refund (count : Q) (now : Q) (b : t) : Result unit * t :=
  if Qlt_bool count 0 then (Throw Error_refundNegative, b)
  else
    let b := set_available (Math.min (_capacity b) (_available b + count)) b in
    (Ok tt, persistState now b).

(** The two waits: [Math.ceil] of the exact quotient, where the code
    rounds the quotient to binary64 before it takes the ceiling. *)
Definition timeUntilNextToken (now : Q) (b : t) : Q * t :=
  let b := refill now b in
  if Qle_bool 1 (_available b) then (0, b)
  else (Math.ceil ((1 - _available b) / _refillRate b * 1000), b).

Definition timeUntilTokens (count : Q) (now : Q) (b : t) : Q * t :=
  if Qle_bool count 0 then (0, b)
  else
    let b := refill now b in
    if Qle_bool count (_available b) then (0, b)
    else
      let needed := count - _available b in
      (Math.ceil (needed / _refillRate b * 1000), b).

Definition reset (now : Q) (b : t) : t :=
  persistState now (set_lastRefill now (set_available (_capacity b) b)).

Definition restoreState (state : TokenBucketState.t) (b : t)
  : Result unit * t :=
  if Qlt_bool (TokenBucketState.available state) 0
     || Qlt_bool (TokenBucketState.capacity state)
                 (TokenBucketState.available state) then
    (Throw Error_stateOutOfRange, b)
  else if negb (Qeq_bool (TokenBucketState.capacity state) (_capacity b)) then
    (Throw Error_stateCapacityMismatch, b)
  else
    (Ok tt,
     set_lastRefill (TokenBucketState.lastRefill state)
       (set_available (TokenBucketState.available state) b)).

Definition validateConsistency (now : Q) (b : t) : bool * t :=
  let b := refill now b in
  (Qle_bool 0 (_available b)
   && Qle_bool (_available b) (_capacity b)
   && Qlt_bool 0 (_capacity b)
   && Qlt_bool 0 (_refillRate b), b).

(** The invariant that [validateConsistency] tests, as a proposition. *)
Definition consistent (b : t) : Prop :=
  0 <= _available b /\ _available b <= _capacity b
  /\ 0 < _capacity b /\ 0 < _refillRate b.

(** *** Sequences of calls *)

Inductive Op : Type :=
| op_available
| op_hasTokens (count : Q)
| op_consume (count : Q)
| op_refund (count : Q)
| op_timeUntilNextToken
| op_timeUntilTokens (count : Q)
| op_reset
| op_getState
| op_restoreState (state : TokenBucketState.t)
| op_validateConsistency.

(** The bucket after one call made when the clock reads [now]; a call
    that throws leaves the bucket as the method left it. *)
Definition step (now : Q) (o : Op) (b : t) : t :=
  match o with
  | op_available => snd (available now b)
  | op_hasTokens n => snd (hasTokens n now b)
  | op_consume n => snd (consume n now b)
  | op_refund n => snd (refund n now b)
  | op_timeUntilNextToken => snd (timeUntilNextToken now b)
  | op_timeUntilTokens n => snd (timeUntilTokens n now b)
  | op_reset => reset now b
  | op_getState => snd (getState now b)
  | op_restoreState s => snd (restoreState s b)
  | op_validateConsistency => snd (validateConsistency now b)
  end.

(** A run: each call with the clock value it sees.  Clock values are
    arbitrary, a clock that stands still or jumps back included. *)
Fixpoint run (calls : list (Q * Op)) (b : t) : t :=
  match calls with
  | [] => b
  | (now, o) :: rest => run rest (step now o b)
  end.

End TokenBucket.


(** ** Strings and arrays *)

(** The code units that [String.prototype.trim] strips, the [WhiteSpace]
    and [LineTerminator] of ECMAScript: U+0009 to U+000D, U+0020, U+00A0,
    U+1680, U+2000 to U+200A, U+2028, U+2029, U+202F, U+205F, U+3000 and
    U+FEFF. *)
Definition isWhiteSpace (c : JSString.CodeUnit) : bool :=
  ((9 <=? c) && (c <=? 13) || (c =? 32) || (c =? 160) || (c =? 5760)
   || (8192 <=? c) && (c <=? 8202) || (c =? 8232) || (c =? 8233)
   || (c =? 8239) || (c =? 8287) || (c =? 12288) || (c =? 65279))%N.

Fixpoint trimStart (s : JSString.t) : JSString.t :=
  match s with
  | [] => []
  | c :: s' => if isWhiteSpace c then trimStart s' else s
  end.

Definition trim (s : JSString.t) : JSString.t :=
  rev (trimStart (rev (trimStart s))).

(** [array.slice(start)]. *)
Definition Array_slice {A : Type} (start : Z) (l : list A) : list A :=
  let len := Z.of_nat (List.length l) in
  let k := if (start <? 0)%Z then Z.max (len + start) 0 else Z.min start len in
  skipn (Z.to_nat k) l.

(** [array.splice(0, deleteCount)]: the array that is left. *)
Definition Array_splice0 {A : Type} (deleteCount : Z) (l : list A) : list A :=
  let len := Z.of_nat (List.length l) in
  skipn (Z.to_nat (Z.min (Z.max deleteCount 0) len)) l.

(** [array.find(p)], with the position of the element found: the element
    is an object of the array and is later mutated in place. *)
Fixpoint Array_find {A : Type} (p : A -> bool) (l : list A) : option (nat * A) :=
  match l with
  | [] => None
  | x :: l' =>
      if p x then Some (O, x)
      else match Array_find p l' with
           | Some (i, y) => Some (S i, y)
           | None => None
           end
  end.

(** Mutation of the object at position [i]. *)
Fixpoint Array_update {A : Type} (i : nat) (f : A -> A) (l : list A) : list A :=
  match l, i with
  | [], _ => []
  | x :: l', O => f x :: l'
  | x :: l', S i' => x :: Array_update i' f l'
  end.

(** ** Records of the engine *)

Inductive AdjustmentFailureStrategy : Type := strict | warn | compensate.

Module ConsumptionRecord.
Record t (TMetadata : Type) : Type := mk {
  timestamp : Q;
  tokens : Q;
  requestId : JSString.t;
  metadata : option TMetadata;
  estimatedTokens : option Q;
  actualTokens : option Q;
  compensationDebt : option Q
}.
Arguments mk {TMetadata}.
End ConsumptionRecord.

Module AvailableTokens.
Record t : Type := mk { rpm : Q; tpm : Q }.
End AvailableTokens.

Module RateLimitCheckResult.
Record t : Type := mk {
  allowed : bool;
  reason : option Reason;
  availableIn : option Q;
  availableTokens : option AvailableTokens.t
}.
End RateLimitCheckResult.

Module LimitMetrics.
Record t : Type := mk { used : Q; available : Q; limit : Q; percentage : Q }.
End LimitMetrics.

Module HistoryStatistics.
Record t : Type := mk {
  count : Z;
  averageTokensPerRequest : Q;
  totalTokens : Q;
  estimationAccuracy : Q
}.
End HistoryStatistics.

Module MemoryMetrics.
Record t : Type := mk {
  historyRecords : Z;
  estimatedMemoryUsage : Z;
  maxHistoryRecords : Z
}.
End MemoryMetrics.

Module CompensationMetrics.
Record t : Type := mk { totalDebt : Q; pendingCompensation : Q }.
End CompensationMetrics.

Module RateLimitMetrics.
Record t : Type := mk {
  rpm : LimitMetrics.t;
  tpm : LimitMetrics.t;
  efficiency : Q;
  consumptionHistory : HistoryStatistics.t;
  memory : MemoryMetrics.t;
  compensation : CompensationMetrics.t
}.
End RateLimitMetrics.

Module StateSnapshot.
Record t : Type := mk {
  timestamp : Q;
  rpmBucketState : TokenBucketState.t;
  tpmBucketState : TokenBucketState.t;
  historyCount : Z;
  compensationDebt : Q
}.
End StateSnapshot.

(** What the engine hands to its logger. *)
Inductive LogLevel : Type := level_warn | level_info | level_error.

Inductive LogMessage : Type :=
| log_configWarning (warning : string)
    (* `Config validation warning: ${warning}` *)
| log_failedToConsume (additionalTokens : Q) (requestId : JSString.t)
    (* `Failed to consume additional ${additionalTokens} tokens for request ${requestId}` *)
| log_addingDebt (additionalTokens totalDebt : Q)
    (* `Adding ${additionalTokens} tokens to compensation debt. Total debt: ${...}` *)
| log_removedRecords (excess : Z)
    (* `Removed ${excess} old consumption records to stay within memory limit` *)
| log_stateRestored (timestamp : Q)
    (* `State restored from snapshot (timestamp: ${snapshot.timestamp})` *)
| log_restoreFailed (e : Error).
    (* `Failed to restore from snapshot: ${error.message}` *)

Module LLMThrottleConfig.
Record t : Type := mk {
  rpm : Q;
  tpm : Q;
  burstRPM : option Q;
  burstTPM : option Q;
  adjustmentFailureStrategy : option AdjustmentFailureStrategy;
  maxHistoryRecords : option Z;
  historyRetentionMs : option Q;
  efficiencyWindowSize : option Z;
  (* a storage implementation is given *)
  storage : bool
}.
End LLMThrottleConfig.

(** [o || d] for an optional number: [undefined] and [0] are falsy. *)
Definition orQ (o : option Q) (d : Q) : Q :=
  match o with
  | Some v => if Qeq_bool v 0 then d else v
  | None => d
  end.

Definition orZ (o : option Z) (d : Z) : Z :=
  match o with
  | Some v => if (v =? 0)%Z then d else v
  | None => d
  end.

(** ** Configuration validation ([utils/validation.ts]) *)

Module Validation.

Definition rule (violated : bool) (message : string) : list string :=
  if violated then [message] else [].

Definition burstBelow (burst : option Q) (base : Q) : bool :=
  match burst with Some b => Qlt_bool b base | None => false end.

Definition burstAbove (burst : option Q) (bound : Q) : bool :=
  match burst with Some b => Qlt_bool bound b | None => false end.

(** The messages of the default rules of level ['error'], in rule order. *)
Definition errors (config : LLMThrottleConfig.t) : list string :=
  rule (negb (Qlt_bool 0 (LLMThrottleConfig.rpm config)))
       "RPM must be greater than 0"
  ++ rule (negb (Qlt_bool 0 (LLMThrottleConfig.tpm config)))
       "TPM must be greater than 0"
  ++ rule (burstBelow (LLMThrottleConfig.burstRPM config)
                      (LLMThrottleConfig.rpm config))
       "Burst RPM cannot be less than RPM"
  ++ rule (burstBelow (LLMThrottleConfig.burstTPM config)
                      (LLMThrottleConfig.tpm config))
       "Burst TPM cannot be less than TPM"
  ++ rule (match LLMThrottleConfig.historyRetentionMs config with
           | Some r => Qle_bool r 0 | None => false end)
       "History retention must be positive"
  ++ rule (match LLMThrottleConfig.maxHistoryRecords config with
           | Some m => (m <=? 0)%Z | None => false end)
       "Max history records must be positive"
  ++ rule (match LLMThrottleConfig.efficiencyWindowSize config with
           | Some w => (w <=? 0)%Z | None => false end)
       "Efficiency window size must be positive".

(** The messages of the default rules of level ['warn'], in rule order. *)
Definition warnings (config : LLMThrottleConfig.t) : list string :=
  rule (burstAbove (LLMThrottleConfig.burstRPM config)
                   (LLMThrottleConfig.rpm config * 10))
       "Burst RPM should not exceed 10x the base RPM for optimal performance"
  ++ rule (burstAbove (LLMThrottleConfig.burstTPM config)
                      (LLMThrottleConfig.tpm config * 10))
       "Burst TPM should not exceed 10x the base TPM for optimal performance"
  ++ rule (Qlt_bool 10000 (LLMThrottleConfig.rpm config))
       "RPM above 10,000 may impact performance and API stability"
  ++ rule (Qlt_bool 1000000 (LLMThrottleConfig.tpm config))
       "TPM above 1,000,000 may impact performance and memory usage".

End Validation.

(** What [consumeOrThrow] throws: an error of [consume] or [canProcess],
    or [new RateLimitError(`Rate limit exceeded: ${check.reason}`,
    check.reason!, check.availableIn!)]. *)
Inductive Thrown : Type :=
| thrown_Error (e : Error)
| thrown_RateLimitExceeded (reason : option Reason) (availableIn : option Q).

(** The warnings that [repairState] hands to the logger. *)
Inductive RepairWarning : Type :=
| repair_negativeDebt (debt : Q)
    (* `Repairing negative compensation debt: ${this.compensationDebt}` *)
| repair_invalidRecords (removed : Z)
    (* `Removed ${...} invalid history records` *)
| repair_excessRecords (excess : Z).
    (* `Removed ${excess} excess history records` *)

(** ** LLMThrottle *)

Module LLMThrottle.

Section Engine.

Variable TMetadata : Type.

Record t : Type := mk {
  rpmBucket : TokenBucket.t;
  tpmBucket : TokenBucket.t;
  consumptionHistory : list (ConsumptionRecord.t TMetadata);
  compensationDebt : Q;
  historyRetentionMs : Q;
  maxHistoryRecords : Z;
  efficiencyWindowSize : Z;
  adjustmentFailureStrategy : AdjustmentFailureStrategy;
  storageEnabled : bool;
  (* the calls received by the logger, oldest first *)
  logger : list (LogLevel * LogMessage)
}.

Definition set_rpmBucket (v : TokenBucket.t) (th : t) : t :=
  mk v (tpmBucket th) (consumptionHistory th) (compensationDebt th)
     (historyRetentionMs th) (maxHistoryRecords th) (efficiencyWindowSize th)
     (adjustmentFailureStrategy th) (storageEnabled th) (logger th).

Definition set_tpmBucket (v : TokenBucket.t) (th : t) : t :=
  mk (rpmBucket th) v (consumptionHistory th) (compensationDebt th)
     (historyRetentionMs th) (maxHistoryRecords th) (efficiencyWindowSize th)
     (adjustmentFailureStrategy th) (storageEnabled th) (logger th).

Definition set_consumptionHistory (v : list (ConsumptionRecord.t TMetadata))
  (th : t) : t :=
  mk (rpmBucket th) (tpmBucket th) v (compensationDebt th)
     (historyRetentionMs th) (maxHistoryRecords th) (efficiencyWindowSize th)
     (adjustmentFailureStrategy th) (storageEnabled th) (logger th).

Definition set_compensationDebt (v : Q) (th : t) : t :=
  mk (rpmBucket th) (tpmBucket th) (consumptionHistory th) v
     (historyRetentionMs th) (maxHistoryRecords th) (efficiencyWindowSize th)
     (adjustmentFailureStrategy th) (storageEnabled th) (logger th).

Definition set_historyRetentionMs (v : Q) (th : t) : t :=
  mk (rpmBucket th) (tpmBucket th) (consumptionHistory th) (compensationDebt th)
     v (maxHistoryRecords th) (efficiencyWindowSize th)
     (adjustmentFailureStrategy th) (storageEnabled th) (logger th).

Definition set_maxHistoryRecords (v : Z) (th : t) : t :=
  mk (rpmBucket th) (tpmBucket th) (consumptionHistory th) (compensationDebt th)
     (historyRetentionMs th) v (efficiencyWindowSize th)
     (adjustmentFailureStrategy th) (storageEnabled th) (logger th).

Definition log (level : LogLevel) (message : LogMessage) (th : t) : t :=
  mk (rpmBucket th) (tpmBucket th) (consumptionHistory th) (compensationDebt th)
     (historyRetentionMs th) (maxHistoryRecords th) (efficiencyWindowSize th)
     (adjustmentFailureStrategy th) (storageEnabled th)
     (logger th ++ [(level, message)]).

(** [new LLMThrottle(config)] without custom validation rules, the clock
    reading [now]. *)
Definition new (config : LLMThrottleConfig.t) (now : Q) : Result t :=
  match Validation.errors config with
  | (_ :: _) as errors => Throw (Error_configurationInvalid errors)
  | [] =>
      let storageEnabled := LLMThrottleConfig.storage config in
      let rpmCapacity :=
        orQ (LLMThrottleConfig.burstRPM config) (LLMThrottleConfig.rpm config) in
      let tpmCapacity :=
        orQ (LLMThrottleConfig.burstTPM config) (LLMThrottleConfig.tpm config) in
      match
        TokenBucket.new
          (TokenBucketConfig.mk rpmCapacity (LLMThrottleConfig.rpm config / 60)
                                (Some rpmCapacity))
          storageEnabled now,
        TokenBucket.new
          (TokenBucketConfig.mk tpmCapacity (LLMThrottleConfig.tpm config / 60)
                                (Some tpmCapacity))
          storageEnabled now
      with
      | Throw e, _ => Throw e
      | Ok _, Throw e => Throw e
      | Ok rpmB, Ok tpmB =>
          Ok (mk rpmB tpmB [] 0
                 (orQ (LLMThrottleConfig.historyRetentionMs config) 60000)
                 (orZ (LLMThrottleConfig.maxHistoryRecords config) 10000)
                 (orZ (LLMThrottleConfig.efficiencyWindowSize config) 50)
                 (match LLMThrottleConfig.adjustmentFailureStrategy config with
                  | Some s => s
                  | None => warn
                  end)
                 storageEnabled
                 (map (fun w => (level_warn, log_configWarning w))
                      (Validation.warnings config)))
      end
  end.

Definition canProcess (estimatedTokens : Q) (now : Q) (th : t)
  : Result RateLimitCheckResult.t * t :=
  if Qlt_bool estimatedTokens 0 then (Throw Error_estimatedNegative, th)
  else
    let (hasRpm, rpm1) := TokenBucket.hasTokens 1 now (rpmBucket th) in
    if negb hasRpm then
      let (availableIn, rpm2) := TokenBucket.timeUntilNextToken now rpm1 in
      let (rpmAvailable, rpm3) := TokenBucket.available now rpm2 in
      let (tpmAvailable, tpm1) := TokenBucket.available now (tpmBucket th) in
      (Ok (RateLimitCheckResult.mk false (Some rpm_limit) (Some availableIn)
             (Some (AvailableTokens.mk rpmAvailable tpmAvailable))),
       set_tpmBucket tpm1 (set_rpmBucket rpm3 th))
    else
      let (hasTpm, tpm1) :=
        TokenBucket.hasTokens estimatedTokens now (tpmBucket th) in
      if negb hasTpm then
        let (availableIn, tpm2) :=
          TokenBucket.timeUntilTokens estimatedTokens now tpm1 in
        let (rpmAvailable, rpm2) := TokenBucket.available now rpm1 in
        let (tpmAvailable, tpm3) := TokenBucket.available now tpm2 in
        (Ok (RateLimitCheckResult.mk false (Some tpm_limit) (Some availableIn)
               (Some (AvailableTokens.mk rpmAvailable tpmAvailable))),
         set_tpmBucket tpm3 (set_rpmBucket rpm2 th))
      else
        let (rpmAvailable, rpm2) := TokenBucket.available now rpm1 in
        let (tpmAvailable, tpm2) := TokenBucket.available now tpm1 in
        (Ok (RateLimitCheckResult.mk true None None
               (Some (AvailableTokens.mk rpmAvailable tpmAvailable))),
         set_tpmBucket tpm2 (set_rpmBucket rpm2 th)).

Definition cleanupHistory (now : Q) (th : t) : t :=
  let cutoff := now - historyRetentionMs th in
  let th :=
    set_consumptionHistory
      (filter (fun item => Qlt_bool cutoff (ConsumptionRecord.timestamp item))
              (consumptionHistory th)) th in
  let length := Z.of_nat (List.length (consumptionHistory th)) in
  if (maxHistoryRecords th <? length)%Z then
    let excess := (length - maxHistoryRecords th)%Z in
    let th :=
      set_consumptionHistory (Array_splice0 excess (consumptionHistory th)) th in
    if (10 <? excess)%Z then log level_warn (log_removedRecords excess) th
    else th
  else th.

(** [!requestId || requestId.trim() === ''] *)
Definition requestIdIsEmpty (requestId : JSString.t) : bool :=
  JSString.eqb requestId [] || JSString.eqb (trim requestId) [].

Definition consume (requestId : JSString.t) (estimatedTokens : Q)
  (metadata : option TMetadata) (now : Q) (th : t) : Result bool * t :=
  if requestIdIsEmpty requestId then (Throw Error_requestIdEmpty, th)
  else
    let totalTokensNeeded := estimatedTokens + compensationDebt th in
    match canProcess totalTokensNeeded now th with
    | (Throw e, th) => (Throw e, th)
    | (Ok check, th) =>
        if negb (RateLimitCheckResult.allowed check) then (Ok false, th)
        else
          match TokenBucket.consume 1 now (rpmBucket th) with
          | (Throw e, b) => (Throw e, set_rpmBucket b th)
          | (Ok _, b) =>
              let th := set_rpmBucket b th in
              match TokenBucket.consume totalTokensNeeded now (tpmBucket th) with
              | (Throw e, b) => (Throw e, set_tpmBucket b th)
              | (Ok _, b) =>
                  let th := set_tpmBucket b th in
                  let appliedCompensation := compensationDebt th in
                  let th := set_compensationDebt 0 th in
                  let record :=
                    ConsumptionRecord.mk now estimatedTokens requestId metadata
                      (Some estimatedTokens) None (Some appliedCompensation) in
                  let th :=
                    set_consumptionHistory (consumptionHistory th ++ [record])
                                           th in
                  (Ok true, cleanupHistory now th)
              end
          end
    end.

Definition handleAdjustmentFailureSync (requestId : JSString.t)
  (additionalTokens : Q) (now : Q) (th : t) : Result unit * t :=
  match adjustmentFailureStrategy th with
  | strict =>
      let (availableIn, b) :=
        TokenBucket.timeUntilTokens additionalTokens now (tpmBucket th) in
      (Throw (RateLimitError additionalTokens requestId tpm_limit availableIn),
       set_tpmBucket b th)
  | warn =>
      (Ok tt, log level_warn (log_failedToConsume additionalTokens requestId) th)
  | compensate =>
      let th :=
        set_compensationDebt (compensationDebt th + additionalTokens) th in
      (Ok tt,
       log level_info (log_addingDebt additionalTokens (compensationDebt th)) th)
  end.

(** [record.tokens = actualTokens; record.actualTokens = actualTokens] *)
Definition reconcile (actualTokens : Q) (record : ConsumptionRecord.t TMetadata)
  : ConsumptionRecord.t TMetadata :=
  ConsumptionRecord.mk
    (ConsumptionRecord.timestamp record) actualTokens
    (ConsumptionRecord.requestId record) (ConsumptionRecord.metadata record)
    (ConsumptionRecord.estimatedTokens record) (Some actualTokens)
    (ConsumptionRecord.compensationDebt record).

Definition adjustConsumption (requestId : JSString.t) (actualTokens : Q) (now : Q)
  (th : t) : Result unit * t :=
  if Qlt_bool actualTokens 0 then (Throw Error_actualNegative, th)
  else
    match
      Array_find
        (fun item => JSString.eqb (ConsumptionRecord.requestId item) requestId)
        (consumptionHistory th)
    with
    | None => (Throw (Error_requestIdNotFound requestId), th)
    | Some (i, record) =>
        let difference := actualTokens - ConsumptionRecord.tokens record in
        let (outcome, th) :=
          if Qlt_bool 0 difference then
            match TokenBucket.consume difference now (tpmBucket th) with
            | (Throw e, b) => (Throw e, set_tpmBucket b th)
            | (Ok consumed, b) =>
                let th := set_tpmBucket b th in
                if negb consumed then
                  handleAdjustmentFailureSync requestId difference now th
                else (Ok tt, th)
            end
          else if Qlt_bool difference 0 then
            match TokenBucket.refund (- difference) now (tpmBucket th) with
            | (r, b) => (r, set_tpmBucket b th)
            end
          else (Ok tt, th)
        in
        match outcome with
        | Throw e => (Throw e, th)
        | Ok _ =>
            (Ok tt,
             set_consumptionHistory
               (Array_update i (reconcile actualTokens) (consumptionHistory th))
               th)
        end
    end.

Definition bothDefined (record : ConsumptionRecord.t TMetadata) : bool :=
  match ConsumptionRecord.estimatedTokens record,
        ConsumptionRecord.actualTokens record with
  | Some _, Some _ => true
  | _, _ => false
  end.

(** What one record adds to [totalAccuracy] in [calculateEfficiency]. *)
Definition accuracyOf (estimated actual : Q) : Q :=
  if Qeq_bool estimated 0 && Qeq_bool actual 0 then 1
  else if Qeq_bool estimated 0 || Qeq_bool actual 0 then 0
  else Math.min estimated actual / Math.max estimated actual.

Definition recordAccuracy (record : ConsumptionRecord.t TMetadata) : Q :=
  match ConsumptionRecord.estimatedTokens record,
        ConsumptionRecord.actualTokens record with
  | Some estimated, Some actual => accuracyOf estimated actual
  | _, _ => 0
  end.

Definition calculateEfficiency (th : t) : Q :=
  let recentHistory :=
    Array_slice (- efficiencyWindowSize th) (consumptionHistory th) in
  if (Z.of_nat (List.length recentHistory) =? 0)%Z then 1
  else
    let recordsWithActual := filter bothDefined recentHistory in
    if (Z.of_nat (List.length recordsWithActual) =? 0)%Z then 0.85
    else
      let totalAccuracy :=
        fold_left (fun total record => total + recordAccuracy record)
                  recordsWithActual 0 in
      totalAccuracy / inject_Z (Z.of_nat (List.length recordsWithActual)).

Definition getHistoryStatistics (th : t) : HistoryStatistics.t :=
  let history := consumptionHistory th in
  if (Z.of_nat (List.length history) =? 0)%Z then
    HistoryStatistics.mk 0 0 0 1
  else
    let totalTokens :=
      fold_left (fun sum record => sum + ConsumptionRecord.tokens record)
                history 0 in
    let recordsWithActual := filter bothDefined history in
    let estimationAccuracy :=
      if (0 <? Z.of_nat (List.length recordsWithActual))%Z then
        fold_left
          (fun sum record =>
             match ConsumptionRecord.estimatedTokens record,
                   ConsumptionRecord.actualTokens record with
             | Some estimated, Some actual =>
                 if Qeq_bool estimated 0 then sum + 1
                 else sum + Math.min estimated actual / Math.max estimated actual
             | _, _ => sum
             end)
          recordsWithActual 0
        / inject_Z (Z.of_nat (List.length recordsWithActual))
      else 1
    in
    HistoryStatistics.mk
      (Z.of_nat (List.length history))
      (totalTokens / inject_Z (Z.of_nat (List.length history)))
      totalTokens
      estimationAccuracy.

Definition getMemoryMetrics (th : t) : MemoryMetrics.t :=
  let recordSize := 200%Z in
  MemoryMetrics.mk
    (Z.of_nat (List.length (consumptionHistory th)))
    (Z.of_nat (List.length (consumptionHistory th)) * recordSize)
    (maxHistoryRecords th).

Definition getMetrics (now : Q) (th : t) : RateLimitMetrics.t * t :=
  let th := cleanupHistory now th in
  let (rpmAvailable, rpmB) := TokenBucket.available now (rpmBucket th) in
  let th := set_rpmBucket rpmB th in
  let rpmUsed := TokenBucket.capacity (rpmBucket th) - rpmAvailable in
  let (tpmAvailable, tpmB) := TokenBucket.available now (tpmBucket th) in
  let th := set_tpmBucket tpmB th in
  let tpmUsed := TokenBucket.capacity (tpmBucket th) - tpmAvailable in
  let historyStats := getHistoryStatistics th in
  let memoryStats := getMemoryMetrics th in
  let (rpmAvailable', rpmB') := TokenBucket.available now (rpmBucket th) in
  let th := set_rpmBucket rpmB' th in
  let (tpmAvailable', tpmB') := TokenBucket.available now (tpmBucket th) in
  let th := set_tpmBucket tpmB' th in
  (RateLimitMetrics.mk
     (LimitMetrics.mk rpmUsed rpmAvailable'
        (TokenBucket.capacity (rpmBucket th))
        (rpmUsed / TokenBucket.capacity (rpmBucket th) * 100))
     (LimitMetrics.mk tpmUsed tpmAvailable'
        (TokenBucket.capacity (tpmBucket th))
        (tpmUsed / TokenBucket.capacity (tpmBucket th) * 100))
     (calculateEfficiency th)
     historyStats
     memoryStats
     (CompensationMetrics.mk (compensationDebt th) (compensationDebt th)),
   th).

Definition getConsumptionHistory (now : Q) (th : t)
  : list (ConsumptionRecord.t TMetadata) * t :=
  let th := cleanupHistory now th in
  (consumptionHistory th, th).

Definition reset (now : Q) (th : t) : t :=
  let th := set_rpmBucket (TokenBucket.reset now (rpmBucket th)) th in
  let th := set_tpmBucket (TokenBucket.reset now (tpmBucket th)) th in
  let th := set_consumptionHistory [] th in
  set_compensationDebt 0 th.

Definition setHistoryRetention (ms : Q) (th : t) : Result unit * t :=
  if Qle_bool ms 0 then (Throw Error_retentionNotPositive, th)
  else (Ok tt, set_historyRetentionMs ms th).

Definition setMaxHistoryRecords (count : Z) (now : Q) (th : t)
  : Result unit * t :=
  if (count <=? 0)%Z then (Throw Error_maxRecordsNotPositive, th)
  else (Ok tt, cleanupHistory now (set_maxHistoryRecords count th)).

Definition createSnapshot (now : Q) (th : t) : StateSnapshot.t * t :=
  let (rpmState, rpmB) := TokenBucket.getState now (rpmBucket th) in
  let th := set_rpmBucket rpmB th in
  let (tpmState, tpmB) := TokenBucket.getState now (tpmBucket th) in
  let th := set_tpmBucket tpmB th in
  (StateSnapshot.mk now rpmState tpmState
     (Z.of_nat (List.length (consumptionHistory th))) (compensationDebt th),
   th).

(** [restoreFromSnapshot]: what runs while the lock is held. *)
Definition restoreFromSnapshot (snapshot : StateSnapshot.t) (th : t)
  : Result unit * t :=
  match
    TokenBucket.restoreState (StateSnapshot.rpmBucketState snapshot)
                             (rpmBucket th)
  with
  | (Throw e, b) =>
      (Throw e, log level_error (log_restoreFailed e) (set_rpmBucket b th))
  | (Ok _, b) =>
      let th := set_rpmBucket b th in
      match
        TokenBucket.restoreState (StateSnapshot.tpmBucketState snapshot)
                                 (tpmBucket th)
      with
      | (Throw e, b) =>
          (Throw e, log level_error (log_restoreFailed e) (set_tpmBucket b th))
      | (Ok _, b) =>
          let th := set_tpmBucket b th in
          let th :=
            set_compensationDebt (StateSnapshot.compensationDebt snapshot) th in
          let th := set_consumptionHistory [] th in
          (Ok tt,
           log level_info (log_stateRestored (StateSnapshot.timestamp snapshot))
               th)
      end
  end.

(** [consumeOrThrow]; [None] when it returns.  It makes two calls, each
    with its own reading of the clock: [consume] at [now] and, after a
    refusal, [canProcess] at [now']. *)
Definition consumeOrThrow (requestId : JSString.t) (estimatedTokens : Q)
  (metadata : option TMetadata) (now now' : Q) (th : t) : option Thrown * t :=
  match consume requestId estimatedTokens metadata now th with
  | (Throw e, th) => (Some (thrown_Error e), th)
  | (Ok consumed, th) =>
      if negb consumed then
        match canProcess (estimatedTokens + compensationDebt th) now' th with
        | (Throw e, th) => (Some (thrown_Error e), th)
        | (Ok check, th) =>
            (Some (thrown_RateLimitExceeded
                     (RateLimitCheckResult.reason check)
                     (RateLimitCheckResult.availableIn check)),
             th)
        end
      else (None, th)
  end.

(** The test that [validateState] and [repairState] make on a record. *)
Definition recordIsValid (now : Q) (th : t)
  (record : ConsumptionRecord.t TMetadata) : bool :=
  let oldestAllowed := now - historyRetentionMs th * 2 in
  Qle_bool oldestAllowed (ConsumptionRecord.timestamp record)
  && Qle_bool (ConsumptionRecord.timestamp record) (now + 1000)
  && Qle_bool 0 (ConsumptionRecord.tokens record).

Definition validateState (now : Q) (th : t) : bool * t :=
  let (rpmConsistent, rpmB) :=
    TokenBucket.validateConsistency now (rpmBucket th) in
  let th := set_rpmBucket rpmB th in
  if negb rpmConsistent then (false, th)
  else
    let (tpmConsistent, tpmB) :=
      TokenBucket.validateConsistency now (tpmBucket th) in
    let th := set_tpmBucket tpmB th in
    if negb tpmConsistent then (false, th)
    else if Qlt_bool (compensationDebt th) 0 then (false, th)
    else if Qlt_bool (inject_Z (maxHistoryRecords th) * 1.1)
                     (inject_Z (Z.of_nat (List.length (consumptionHistory th))))
    then (false, th)
    else (forallb (recordIsValid now th) (consumptionHistory th), th).

(** [repairState]: what runs while the lock is held.  The warnings go to
    the logger; they are returned beside the result. *)
Definition repairState (now : Q) (th : t) : (bool * list RepairWarning) * t :=
  let '(repaired, warnings, th) :=
    if Qlt_bool (compensationDebt th) 0 then
      (true, [repair_negativeDebt (compensationDebt th)],
       set_compensationDebt 0 th)
    else (false, [], th) in
  let originalLength := Z.of_nat (List.length (consumptionHistory th)) in
  let th :=
    set_consumptionHistory
      (filter (recordIsValid now th) (consumptionHistory th)) th in
  let length := Z.of_nat (List.length (consumptionHistory th)) in
  let '(repaired, warnings) :=
    if negb (length =? originalLength)%Z then
      (true, warnings ++ [repair_invalidRecords (originalLength - length)])
    else (repaired, warnings) in
  if (maxHistoryRecords th <? length)%Z then
    let excess := (length - maxHistoryRecords th)%Z in
    ((true, warnings ++ [repair_excessRecords excess]),
     set_consumptionHistory (Array_splice0 excess (consumptionHistory th)) th)
  else ((repaired, warnings), th).

End Engine.

End LLMThrottle.

(** ** AsyncLock ([utils/async-lock.ts]) *)

Module AsyncLock.

(** A caller of [acquire], standing for the promise it waits on: the
    [resolve] and [reject] of a queue item settle that promise. *)
Definition Waiter : Type := nat.

Inductive Settled : Type :=
| resolved (w : Waiter)
| rejected (w : Waiter).     (* with [new Error('AsyncLock cleared')] *)

Record t : Type := mk { locked : bool; queue : list Waiter }.

Definition new : t := mk false [].

(** [acquire], called by [w]: the promises settled by the call. *)
Definition acquire (w : Waiter) (l : t) : list Settled * t :=
  if negb (locked l) then ([resolved w], mk true (queue l))
  else ([], mk (locked l) (queue l ++ [w])).

(** [release]: [None] when it throws 'Cannot release a lock that is not
    acquired'. *)
Definition release (l : t) : option (list Settled) * t :=
  if negb (locked l) then (None, l)
  else
    match queue l with
    | next :: rest => (Some [resolved next], mk (locked l) rest)
    | [] => (Some [], mk false [])
    end.

Definition isLocked (l : t) : bool := locked l.

Definition getQueueLength (l : t) : Z := Z.of_nat (List.length (queue l)).

Definition clear (l : t) : list Settled * t :=
  (map rejected (queue l), mk false []).

Inductive Op : Type :=
| op_acquire (w : Waiter)
| op_release
| op_clear.

(** One call: the promises it settles, whether a [release] was accepted,
    and the lock it leaves. *)
Definition step (o : Op) (l : t) : list Settled * t :=
  match o with
  | op_acquire w => acquire w l
  | op_release =>
      match release l with
      | (Some settled, l') => (settled, l')
      | (None, l') => ([], l')
      end
  | op_clear => clear l
  end.

(** A sequence of calls: everything settled, in order, and the lock. *)
Fixpoint run (ops : list Op) (l : t) : list Settled * t :=
  match ops with
  | [] => ([], l)
  | o :: rest =>
      let (settled, l') := step o l in
      let (settled', l'') := run rest l' in
      (settled ++ settled', l'')
  end.

End AsyncLock.

(** ** InMemoryStorage ([storage/in-memory.ts]) *)

(** A [Map] with string keys: [get], and [set], which replaces the value
    of a key that is present and appends a key that is not. *)
Fixpoint Map_get {V : Type} (key : string) (m : list (string * V)) : option V :=
  match m with
  | [] => None
  | (k, v) :: m' => if String.eqb k key then Some v else Map_get key m'
  end.

Fixpoint Map_set {V : Type} (key : string) (value : V) (m : list (string * V))
  : list (string * V) :=
  match m with
  | [] => [(key, value)]
  | (k, v) :: m' =>
      if String.eqb k key then (k, value) :: m'
      else (k, v) :: Map_set key value m'
  end.

Module InMemoryStorage.

Section Storage.

Variable TMetadata : Type.

Record t : Type := mk {
  tokenBucketStates : list (string * TokenBucketState.t);
  consumptionHistory : list (ConsumptionRecord.t TMetadata);
  compensationDebt : Q
}.

Definition new : t := mk [] [] 0.

Definition saveTokenBucketState (key : string) (state : TokenBucketState.t)
  (st : t) : t :=
  mk (Map_set key state (tokenBucketStates st)) (consumptionHistory st)
     (compensationDebt st).

Definition loadTokenBucketState (key : string) (st : t)
  : option TokenBucketState.t :=
  Map_get key (tokenBucketStates st).

Definition saveConsumptionHistory
  (records : list (ConsumptionRecord.t TMetadata)) (st : t) : t :=
  mk (tokenBucketStates st) records (compensationDebt st).

(** [limit && limit > 0]: an absent limit and 0 are falsy. *)
Definition loadConsumptionHistory (limit : option Z) (st : t)
  : list (ConsumptionRecord.t TMetadata) :=
  match limit with
  | Some n =>
      if negb (n =? 0)%Z && (0 <? n)%Z then
        Array_slice (- n) (consumptionHistory st)
      else consumptionHistory st
  | None => consumptionHistory st
  end.

Definition addConsumptionRecord (record : ConsumptionRecord.t TMetadata)
  (st : t) : t :=
  mk (tokenBucketStates st) (consumptionHistory st ++ [record])
     (compensationDebt st).

Definition cleanupConsumptionHistory (olderThan : Q) (st : t) : Z * t :=
  let originalLength := Z.of_nat (List.length (consumptionHistory st)) in
  let kept :=
    filter (fun record => Qlt_bool olderThan (ConsumptionRecord.timestamp record))
           (consumptionHistory st) in
  ((originalLength - Z.of_nat (List.length kept))%Z,
   mk (tokenBucketStates st) kept (compensationDebt st)).

Definition saveCompensationDebt (debt : Q) (st : t) : t :=
  mk (tokenBucketStates st) (consumptionHistory st) debt.

Definition loadCompensationDebt (st : t) : Q := compensationDebt st.

Definition clear (st : t) : t := mk [] [] 0.

Definition isAvailable (st : t) : bool := true.

End Storage.

End InMemoryStorage.

(** ** Notions used in the statements *)

(** A bucket of capacity 100 refilled at 10 tokens per second, holding 50
    tokens, last refilled when the clock read 0. *)
Definition bucket_100_10_50 : TokenBucket.t := TokenBucket.mk 100 50 10 0 false.

(** The ratio and the mean of the efficiency figure, as the
    specification words them. *)
Definition ratio (estimated actual : Q) : Q :=
  Math.min estimated actual / Math.max estimated actual.

Definition mean (l : list Q) : Q :=
  fold_right Qplus 0 l / inject_Z (Z.of_nat (List.length l)).

(** The configuration of the test suite: 60 requests and 1000 tokens per
    minute, everything else by default. *)
Definition config_60_1000 : LLMThrottleConfig.t :=
  LLMThrottleConfig.mk 60 1000 None None None None None None false.

(** 10 requests and 100 tokens per minute with the given strategy. *)
Definition config_10_100 (strategy : AdjustmentFailureStrategy)
  : LLMThrottleConfig.t :=
  LLMThrottleConfig.mk 10 100 None None (Some strategy) None None None false.

(** 1000 requests and 10000 tokens per minute, at most 10 records. *)
Definition config_max_10 : LLMThrottleConfig.t :=
  LLMThrottleConfig.mk 1000 10000 None None None (Some 10%Z) None None false.

(** The engine that [new LLMThrottle({rpm: 60, tpm: 1000})] builds when
    the clock reads 1000. *)
Definition throttle_60_1000 : LLMThrottle.t unit :=
  LLMThrottle.mk (TokenBucket.mk 60 60 (60 / 60) 1000 false)
                 (TokenBucket.mk 1000 1000 (1000 / 60) 1000 false)
                 [] 0 60000 10000 50 warn false [].

(** [throttle_60_1000] after [consume('request-1', 500)], clock at 1000. *)
Definition throttle_after_request_1 : LLMThrottle.t unit :=
  snd (LLMThrottle.consume (JSString.ofAscii "request-1") 500 None 1000 throttle_60_1000).

(** The engine of the compensation test: 10 requests and 100 tokens per
    minute, built when the clock reads 0. *)
Definition throttle_10_100 (strategy : AdjustmentFailureStrategy)
  : LLMThrottle.t unit :=
  LLMThrottle.mk (TokenBucket.mk 10 10 (10 / 60) 0 false)
                 (TokenBucket.mk 100 100 (100 / 60) 0 false)
                 [] 0 60000 10000 50 strategy false [].

(** The same engine after [consume('test-1', 100)] and
    [adjustConsumption('test-1', 150)], the clock still at 0. *)
Definition throttle_short (strategy : AdjustmentFailureStrategy)
  : LLMThrottle.t unit :=
  snd (LLMThrottle.adjustConsumption (JSString.ofAscii "test-1") 150 0
         (snd (LLMThrottle.consume (JSString.ofAscii "test-1") 100 None 0
                 (throttle_10_100 strategy)))).

(** The engine of the memory test, built when the clock reads 0. *)
Definition throttle_max_10 : LLMThrottle.t unit :=
  LLMThrottle.mk (TokenBucket.mk 1000 1000 (1000 / 60) 0 false)
                 (TokenBucket.mk 10000 10000 (10000 / 60) 0 false)
                 [] 0 60000 10 50 warn false [].

(** A snapshot taken from an engine of 60 requests and 2000 tokens per
    minute that has not been used, the clock at 1000. *)
Definition snapshot_60_2000 : StateSnapshot.t :=
  StateSnapshot.mk 1000 (TokenBucketState.mk 60 60 1000)
                   (TokenBucketState.mk 2000 2000 1000) 0 0.

(** [`bulk-${i}`] *)
Definition bulkId (i : nat) : JSString.t :=
  JSString.ofAscii ("bulk-" ++ NilEmpty.string_of_uint (Nat.to_uint i)).

(** One [consume] per request id, each of [estimatedTokens] tokens, all
    while the clock reads [now]. *)
Fixpoint consumeAll (requestIds : list JSString.t) (estimatedTokens now : Q)
  (th : LLMThrottle.t unit) : LLMThrottle.t unit :=
  match requestIds with
  | [] => th
  | requestId :: rest =>
      consumeAll rest estimatedTokens now
        (snd (LLMThrottle.consume requestId estimatedTokens None now th))
  end.

Module EngineNotions.
Import LLMThrottle.

Section Notions.

Variable TMetadata : Type.

(** The engine whose two buckets have been brought up to date at [now]:
    what any method that reads a bucket leaves behind. *)
Definition refillBuckets (now : Q) (th : t TMetadata) : t TMetadata :=
  set_tpmBucket (TokenBucket.refill now (tpmBucket th))
    (set_rpmBucket (TokenBucket.refill now (rpmBucket th)) th).

(** What [canProcess] reports in its field [availableTokens]. *)
Definition reportedAt (now : Q) (th : t TMetadata)
  : option AvailableTokens.t :=
  Some (AvailableTokens.mk
          (fst (TokenBucket.available now (rpmBucket th)))
          (fst (TokenBucket.available now (tpmBucket th)))).

(** The invariant that the constructor and the setters establish. *)
Definition wellFormed (th : t TMetadata) : Prop :=
  TokenBucket.consistent (rpmBucket th)
  /\ TokenBucket.consistent (tpmBucket th)
  /\ 0 < historyRetentionMs th
  /\ (0 < maxHistoryRecords th)%Z
  /\ (0 < efficiencyWindowSize th)%Z.

(** The record that [consume] pushes. *)
Definition recordOf (now : Q) (requestId : JSString.t) (estimatedTokens : Q)
  (metadata : option TMetadata) (debt : Q) : ConsumptionRecord.t TMetadata :=
  ConsumptionRecord.mk now estimatedTokens requestId metadata
    (Some estimatedTokens) None (Some debt).

(** The records that the retention window keeps at [now]. *)
Definition retained (now : Q) (th : t TMetadata)
  : list (ConsumptionRecord.t TMetadata) :=
  filter (fun item =>
            Qlt_bool (now - historyRetentionMs th)
                     (ConsumptionRecord.timestamp item))
         (consumptionHistory th).

(** The window of [calculateEfficiency] and its reconciled records. *)
Definition window (th : t TMetadata) : list (ConsumptionRecord.t TMetadata) :=
  Array_slice (- efficiencyWindowSize th) (consumptionHistory th).

Definition reconciled (th : t TMetadata)
  : list (ConsumptionRecord.t TMetadata) :=
  filter (@bothDefined TMetadata) (window th).

(** The newest [max] elements of an array. *)
Definition newest (max : Z) (l : list (ConsumptionRecord.t TMetadata))
  : list (ConsumptionRecord.t TMetadata) :=
  skipn (List.length l - Z.to_nat max) l.

(** The engine after a [consume] that was admitted, before the ledger is
    trimmed. *)
Definition admitted (now : Q) (requestId : JSString.t) (estimatedTokens : Q)
  (metadata : option TMetadata) (th : t TMetadata) : t TMetadata :=
  let needed := estimatedTokens + compensationDebt th in
  let rpmB := TokenBucket.refill now (rpmBucket th) in
  let tpmB := TokenBucket.refill now (tpmBucket th) in
  set_consumptionHistory
    (consumptionHistory th
     ++ [recordOf now requestId estimatedTokens metadata (compensationDebt th)])
    (set_compensationDebt 0
       (set_tpmBucket
          (TokenBucket.set_available (TokenBucket._available tpmB - needed) tpmB)
          (set_rpmBucket
             (TokenBucket.set_available (TokenBucket._available rpmB - 1) rpmB)
             th))).

(** The ratio of a record that has both amounts. *)
Definition recordRatio (record : ConsumptionRecord.t TMetadata) : Q :=
  match ConsumptionRecord.estimatedTokens record,
        ConsumptionRecord.actualTokens record with
  | Some estimated, Some actual => ratio estimated actual
  | _, _ => 0
  end.

(** Both amounts are present, neither is negative and one is positive:
    the ratio is a quotient by a positive number. *)
Definition measurable (record : ConsumptionRecord.t TMetadata) : Prop :=
  exists estimated actual,
    ConsumptionRecord.estimatedTokens record = Some estimated
    /\ ConsumptionRecord.actualTokens record = Some actual
    /\ 0 <= estimated /\ 0 <= actual
    /\ ~ (estimated == 0 /\ actual == 0).

(** Calls of the synchronous public methods, and the engine after a
    sequence of calls, each made at its own clock value.  [initialize]
    (which loads what the storage holds), [validateState], [repairState]
    and [consumeOrThrow] are not among them. *)
Inductive Call : Type :=
| call_canProcess (estimatedTokens : Q)
| call_consume (requestId : JSString.t) (estimatedTokens : Q)
               (metadata : option TMetadata)
| call_adjustConsumption (requestId : JSString.t) (actualTokens : Q)
| call_getMetrics
| call_getConsumptionHistory
| call_reset
| call_setHistoryRetention (ms : Q)
| call_setMaxHistoryRecords (count : Z)
| call_createSnapshot
| call_restoreFromSnapshot (snapshot : StateSnapshot.t).

Definition step (now : Q) (c : Call) (th : t TMetadata) : t TMetadata :=
  match c with
  | call_canProcess n => snd (canProcess n now th)
  | call_consume requestId n metadata =>
      snd (consume requestId n metadata now th)
  | call_adjustConsumption requestId n =>
      snd (adjustConsumption requestId n now th)
  | call_getMetrics => snd (getMetrics now th)
  | call_getConsumptionHistory => snd (getConsumptionHistory now th)
  | call_reset => reset now th
  | call_setHistoryRetention ms => snd (setHistoryRetention ms th)
  | call_setMaxHistoryRecords count =>
      snd (setMaxHistoryRecords count now th)
  | call_createSnapshot => snd (createSnapshot now th)
  | call_restoreFromSnapshot snapshot => snd (restoreFromSnapshot snapshot th)
  end.

Fixpoint run (calls : list (Q * Call)) (th : t TMetadata) : t TMetadata :=
  match calls with
  | [] => th
  | (now, c) :: rest => run rest (step now c th)
  end.

(** [record.actualTokens !== undefined] *)
Definition hasActual (record : ConsumptionRecord.t TMetadata) : bool :=
  match ConsumptionRecord.actualTokens record with
  | Some _ => true
  | None => false
  end.

(** Every record of the ledger carries its estimate, as every record
    pushed by [consume] does. *)
Definition allEstimated (th : t TMetadata) : Prop :=
  Forall (fun r => ConsumptionRecord.estimatedTokens r <> None)
         (consumptionHistory th).

Definition hasRequestId (requestId : JSString.t)
  (item : ConsumptionRecord.t TMetadata) : bool :=
  JSString.eqb (ConsumptionRecord.requestId item) requestId.

End Notions.

End EngineNotions.

(** ** Further notions *)


(** The amounts that a record carries are not negative. *)
Definition nonNegativeAmounts {TMetadata : Type}
  (record : ConsumptionRecord.t TMetadata) : Prop :=
  (forall estimated,
      ConsumptionRecord.estimatedTokens record = Some estimated ->
      0 <= estimated)
  /\ (forall actual,
         ConsumptionRecord.actualTokens record = Some actual -> 0 <= actual).

(** The sum of the [tokens] of a ledger. *)
Definition sumTokens {TMetadata : Type}
  (l : list (ConsumptionRecord.t TMetadata)) : Q :=
  fold_right Qplus 0 (map (@ConsumptionRecord.tokens TMetadata) l).

(** What one record adds to the sum of [getHistoryStatistics]. *)
Definition statisticsAccuracy {TMetadata : Type}
  (r : ConsumptionRecord.t TMetadata) : Q :=
  match ConsumptionRecord.estimatedTokens r,
        ConsumptionRecord.actualTokens r with
  | Some estimated, Some actual =>
      if Qeq_bool estimated 0 then 1 else ratio estimated actual
  | _, _ => 0
  end.


(** What [repairState] leaves of the debt and of the ledger. *)
Definition repairedDebt {TMetadata : Type} (th : LLMThrottle.t TMetadata) : Q :=
  if Qlt_bool (LLMThrottle.compensationDebt th) 0 then 0
  else LLMThrottle.compensationDebt th.

Definition validRecords {TMetadata : Type} (now : Q)
  (th : LLMThrottle.t TMetadata) : list (ConsumptionRecord.t TMetadata) :=
  filter (LLMThrottle.recordIsValid now th) (LLMThrottle.consumptionHistory th).

Definition repairedHistory {TMetadata : Type} (now : Q)
  (th : LLMThrottle.t TMetadata) : list (ConsumptionRecord.t TMetadata) :=
  skipn (List.length (validRecords now th)
         - Z.to_nat (LLMThrottle.maxHistoryRecords th))
        (validRecords now th).

(** The debt that a [restoreFromSnapshot] of a sequence of calls brings
    in satisfies [P]. *)
Definition restoresDebt {TMetadata : Type} (P : Q -> Prop)
  (c : EngineNotions.Call TMetadata) : Prop :=
  match c with
  | EngineNotions.call_restoreFromSnapshot _ snapshot =>
      P (StateSnapshot.compensationDebt snapshot)
  | _ => True
  end.

(** Two buckets that differ in their level and refill time at most. *)
Definition sameShape (b1 b2 : TokenBucket.t) : Prop :=
  TokenBucket._capacity b1 = TokenBucket._capacity b2
  /\ TokenBucket._refillRate b1 = TokenBucket._refillRate b2
  /\ TokenBucket._storage b1 = TokenBucket._storage b2.

(** [o] when it is given, [d] otherwise. *)
Definition orDefault {A : Type} (o : option A) (d : A) : A :=
  match o with Some v => v | None => d end.

(** The configurations that pass every default rule of level ['error']. *)
Definition validConfig (config : LLMThrottleConfig.t) : Prop :=
  0 < LLMThrottleConfig.rpm config
  /\ 0 < LLMThrottleConfig.tpm config
  /\ (forall b, LLMThrottleConfig.burstRPM config = Some b ->
                LLMThrottleConfig.rpm config <= b)
  /\ (forall b, LLMThrottleConfig.burstTPM config = Some b ->
                LLMThrottleConfig.tpm config <= b)
  /\ (forall r, LLMThrottleConfig.historyRetentionMs config = Some r -> 0 < r)
  /\ (forall m, LLMThrottleConfig.maxHistoryRecords config = Some m ->
                (0 < m)%Z)
  /\ (forall w, LLMThrottleConfig.efficiencyWindowSize config = Some w ->
                (0 < w)%Z).

(** The engine that the constructor builds from a valid configuration
    when the clock reads [now]: both buckets full. *)
Definition initialEngine (TMetadata : Type) (config : LLMThrottleConfig.t)
  (now : Q) : LLMThrottle.t TMetadata :=
  let rpmCapacity :=
    orDefault (LLMThrottleConfig.burstRPM config)
              (LLMThrottleConfig.rpm config) in
  let tpmCapacity :=
    orDefault (LLMThrottleConfig.burstTPM config)
              (LLMThrottleConfig.tpm config) in
  LLMThrottle.mk
    (TokenBucket.mk rpmCapacity rpmCapacity
       (LLMThrottleConfig.rpm config / 60) now
       (LLMThrottleConfig.storage config))
    (TokenBucket.mk tpmCapacity tpmCapacity
       (LLMThrottleConfig.tpm config / 60) now
       (LLMThrottleConfig.storage config))
    [] 0
    (orDefault (LLMThrottleConfig.historyRetentionMs config) 60000)
    (orDefault (LLMThrottleConfig.maxHistoryRecords config) 10000%Z)
    (orDefault (LLMThrottleConfig.efficiencyWindowSize config) 50%Z)
    (orDefault (LLMThrottleConfig.adjustmentFailureStrategy config) warn)
    (LLMThrottleConfig.storage config)
    (map (fun w => (level_warn, log_configWarning w))
         (Validation.warnings config)).

(** A configuration that violates two rules. *)
Definition config_0_0 : LLMThrottleConfig.t :=
  LLMThrottleConfig.mk 0 0 None None None None None None false.

(** *** The lock *)

(** The callers of [acquire] in a sequence of calls, in call order. *)
Definition acquirers (ops : list AsyncLock.Op) : list AsyncLock.Waiter :=
  flat_map (fun o => match o with
                     | AsyncLock.op_acquire w => [w]
                     | _ => []
                     end) ops.

(** The callers whose promise was resolved, in the order of resolution. *)
Definition granted (settled : list AsyncLock.Settled)
  : list AsyncLock.Waiter :=
  flat_map (fun s => match s with
                     | AsyncLock.resolved w => [w]
                     | AsyncLock.rejected _ => []
                     end) settled.

Definition isClear (o : AsyncLock.Op) : bool :=
  match o with AsyncLock.op_clear => true | _ => false end.

(** The number of [release] calls of a sequence that did not throw. *)
Fixpoint acceptedReleases (ops : list AsyncLock.Op) (l : AsyncLock.t) : nat :=
  match ops with
  | [] => 0%nat
  | o :: rest =>
      (match o with
       | AsyncLock.op_release =>
           match fst (AsyncLock.release l) with
           | Some _ => 1%nat
           | None => 0%nat
           end
       | _ => 0%nat
       end
       + acceptedReleases rest (snd (AsyncLock.step o l)))%nat
  end.

(** The number of callers that hold the lock. *)
Definition holders (l : AsyncLock.t) : nat :=
  if AsyncLock.locked l then 1%nat else 0%nat.

(** A free lock has nobody waiting. *)
Definition settledInv (l : AsyncLock.t) : Prop :=
  AsyncLock.locked l = false -> AsyncLock.queue l = [].

(** *** The storage *)

(** The storage after one [addConsumptionRecord] per record. *)
Definition addAll {TMetadata : Type}
  (records : list (ConsumptionRecord.t TMetadata))
  (st : InMemoryStorage.t TMetadata) : InMemoryStorage.t TMetadata :=
  fold_left (fun st record => InMemoryStorage.addConsumptionRecord record st)
            records st.

(** The ledger holds no more records than [maxHistoryRecords]. *)
Definition withinMax {TMetadata : Type} (th : LLMThrottle.t TMetadata) : Prop :=
  (Z.of_nat (List.length (LLMThrottle.consumptionHistory th))
   <= LLMThrottle.maxHistoryRecords th)%Z.

(** * Properties *)

(** ** Comparisons *)

Lemma Qle_bool_false (x y : Q) : Qle_bool x y = false <-> y < x.
Proof.
  split; intro H.
  - apply Qnot_le_lt. intro C. apply Qle_bool_iff in C. congruence.
  - destruct (Qle_bool x y) eqn:E; trivial.
    apply Qle_bool_iff in E. lra.
Qed.

Lemma Qlt_bool_iff (x y : Q) : Qlt_bool x y = true <-> x < y.
Proof.
  unfold Qlt_bool. rewrite negb_true_iff. apply Qle_bool_false.
Qed.

Lemma Qlt_bool_false (x y : Q) : Qlt_bool x y = false <-> y <= x.
Proof.
  unfold Qlt_bool. rewrite negb_false_iff. apply Qle_bool_iff.
Qed.

Lemma Qeq_bool_false (x y : Q) : Qeq_bool x y = false <-> ~ x == y.
Proof.
  split; intro H.
  - now apply Qeq_bool_neq.
  - destruct (Qeq_bool x y) eqn:E; trivial.
    apply Qeq_bool_iff in E. contradiction.
Qed.

(** Boolean tests among the hypotheses become propositions. *)
Ltac qprop :=
  repeat match goal with
  | H : Qle_bool _ _ = true |- _ => apply Qle_bool_iff in H
  | H : Qle_bool _ _ = false |- _ => apply Qle_bool_false in H
  | H : Qlt_bool _ _ = true |- _ => apply Qlt_bool_iff in H
  | H : Qlt_bool _ _ = false |- _ => apply Qlt_bool_false in H
  | H : Qeq_bool _ _ = true |- _ => apply Qeq_bool_iff in H
  | H : Qeq_bool _ _ = false |- _ => apply Qeq_bool_false in H
  end.

(** A boolean test in the goal is replaced by its value. *)
Ltac qle_true := apply Qle_bool_iff.
Ltac qle_false := apply Qle_bool_false.
Ltac qlt_true := apply Qlt_bool_iff.
Ltac qlt_false := apply Qlt_bool_false.

Lemma min_cases (a b : Q) :
  (a <= b /\ Math.min a b = a) \/ (b < a /\ Math.min a b = b).
Proof.
  unfold Math.min. destruct (Qle_bool a b) eqn:E; qprop; auto.
Qed.

Lemma max_cases (a b : Q) :
  (a <= b /\ Math.max a b = b) \/ (b < a /\ Math.max a b = a).
Proof.
  unfold Math.max. destruct (Qle_bool a b) eqn:E; qprop; auto.
Qed.

Lemma min_le_l (a b : Q) : Math.min a b <= a.
Proof. destruct (min_cases a b) as [[H ->]|[H ->]]; lra. Qed.

Lemma min_le_r (a b : Q) : Math.min a b <= b.
Proof. destruct (min_cases a b) as [[H ->]|[H ->]]; lra. Qed.

Lemma min_glb (a b c : Q) : c <= a -> c <= b -> c <= Math.min a b.
Proof. intros. destruct (min_cases a b) as [[H1 ->]|[H1 ->]]; lra. Qed.

(** Milliseconds to seconds. *)
Lemma div_1000 (x : Q) : x / 1000 == x * (1 # 1000).
Proof. unfold Qdiv. reflexivity. Qed.

(** ** The token bucket *)

Module TokenBucketFacts.
Import TokenBucket.

(** The two branches of [refill]. *)
Lemma refill_cases (now : Q) (b : t) :
  (now <= _lastRefill b /\ refill now b = b)
  \/ (_lastRefill b < now
      /\ refill now b =
         mk (_capacity b)
            (Math.min (_capacity b)
               (_available b + (now - _lastRefill b) / 1000 * _refillRate b))
            (_refillRate b) now (_storage b)).
Proof.
  unfold refill.
  destruct (Qle_bool ((now - _lastRefill b) / 1000) 0) eqn:E; qprop;
    rewrite div_1000 in E.
  - left. split; [lra | reflexivity].
  - right. split; [lra | reflexivity].
Qed.

Lemma refill_capacity now b : _capacity (refill now b) = _capacity b.
Proof. destruct (refill_cases now b) as [[_ ->]|[_ ->]]; reflexivity. Qed.

Lemma refill_refillRate now b : _refillRate (refill now b) = _refillRate b.
Proof. destruct (refill_cases now b) as [[_ ->]|[_ ->]]; reflexivity. Qed.

Lemma refill_storage now b : _storage (refill now b) = _storage b.
Proof. destruct (refill_cases now b) as [[_ ->]|[_ ->]]; reflexivity. Qed.

Lemma refill_lastRefill_ge now b : now <= _lastRefill (refill now b).
Proof.
  destruct (refill_cases now b) as [[H ->]|[H ->]]; simpl; lra.
Qed.

(** A bucket that is up to date is left alone. *)
Lemma refill_uptodate now b : now <= _lastRefill b -> refill now b = b.
Proof.
  intro H. destruct (refill_cases now b) as [[_ E]|[C _]]; [exact E | lra].
Qed.

Lemma refill_idempotent now b : refill now (refill now b) = refill now b.
Proof. apply refill_uptodate, refill_lastRefill_ge. Qed.

Lemma refill_consistent now b : consistent b -> consistent (refill now b).
Proof.
  unfold consistent. intros (H0 & H1 & H2 & H3).
  destruct (refill_cases now b) as [[H ->]|[H ->]]; simpl; auto.
  assert (0 <= (now - _lastRefill b) / 1000 * _refillRate b)
    by (rewrite div_1000; nra).
  repeat split; auto.
  - apply min_glb; lra.
  - apply min_le_l.
Qed.

Lemma persistState_consistent now b :
  consistent b -> consistent (persistState now b).
Proof.
  intro H. unfold persistState, getState.
  destruct (negb (_storage b)); simpl; auto using refill_consistent.
Qed.

Lemma consume_consistent count now b :
  consistent b -> consistent (snd (consume count now b)).
Proof.
  intro H. unfold consume.
  destruct (Qlt_bool count 0) eqn:Hc; simpl; auto.
  pose proof (refill_consistent now H) as (H0 & H1 & H2 & H3).
  destruct (Qle_bool count (_available (refill now b))) eqn:Ha; simpl;
    [| repeat split; assumption].
  qprop. apply persistState_consistent.
  unfold consistent, set_available; simpl. repeat split; auto; lra.
Qed.

Lemma refund_consistent count now b :
  consistent b -> consistent (snd (refund count now b)).
Proof.
  intros (H0 & H1 & H2 & H3). unfold refund.
  destruct (Qlt_bool count 0) eqn:Hc; simpl; [repeat split; assumption |].
  qprop. apply persistState_consistent.
  unfold consistent, set_available; simpl. repeat split; auto.
  - apply min_glb; lra.
  - apply min_le_l.
Qed.

Lemma reset_consistent now b : consistent b -> consistent (reset now b).
Proof.
  intros (H0 & H1 & H2 & H3). unfold reset.
  apply persistState_consistent.
  unfold consistent, set_available, set_lastRefill; simpl.
  repeat split; auto; lra.
Qed.

Lemma restoreState_consistent state b :
  consistent b -> consistent (snd (restoreState state b)).
Proof.
  intros (H0 & H1 & H2 & H3). unfold restoreState.
  destruct (Qlt_bool (TokenBucketState.available state) 0) eqn:E1; simpl;
    [repeat split; assumption |].
  destruct (Qlt_bool (TokenBucketState.capacity state)
                     (TokenBucketState.available state)) eqn:E2; simpl;
    [repeat split; assumption |].
  destruct (Qeq_bool (TokenBucketState.capacity state) (_capacity b)) eqn:E3;
    simpl; [| repeat split; assumption].
  qprop. unfold consistent, set_available, set_lastRefill; simpl.
  repeat split; auto. rewrite <- E3. exact E2.
Qed.

Lemma step_consistent now o b : consistent b -> consistent (step now o b).
Proof.
  intro H. destruct o; simpl.
  - now apply refill_consistent.
  - unfold hasTokens. destruct (Qlt_bool count 0); simpl;
      auto using refill_consistent.
  - now apply consume_consistent.
  - now apply refund_consistent.
  - unfold timeUntilNextToken.
    destruct (Qle_bool 1 (_available (refill now b))); simpl;
      now apply refill_consistent.
  - unfold timeUntilTokens. destruct (Qle_bool count 0); simpl; auto.
    destruct (Qle_bool count (_available (refill now b))); simpl;
      now apply refill_consistent.
  - now apply reset_consistent.
  - now apply refill_consistent.
  - now apply restoreState_consistent.
  - now apply refill_consistent.
Qed.

Lemma run_consistent calls : forall b, consistent b -> consistent (run calls b).
Proof.
  induction calls as [| [now o] rest IH]; intros b H; simpl; auto.
  apply IH, step_consistent, H.
Qed.

Lemma step_capacity now o b : _capacity (step now o b) = _capacity b.
Proof.
  destruct o; simpl; unfold hasTokens, consume, refund, timeUntilNextToken,
    timeUntilTokens, reset, restoreState, persistState, getState;
    repeat match goal with
           | |- context [if ?c then _ else _] => destruct c eqn:?
           end; simpl; rewrite ?refill_capacity; simpl;
    rewrite ?refill_capacity; reflexivity.
Qed.

Lemma run_capacity calls : forall b, _capacity (run calls b) = _capacity b.
Proof.
  induction calls as [| [now o] rest IH]; intro b; simpl; [reflexivity |].
  rewrite IH. apply step_capacity.
Qed.

(** The constructor accepts exactly the configurations with a positive
    capacity, a positive refill rate and initial tokens within the
    capacity, and the bucket it builds is consistent. *)
Lemma new_consistent config storage now b :
  new config storage now = Ok b ->
  consistent b /\ _capacity b = TokenBucketConfig.capacity config.
Proof.
  unfold new, validateConfig, consistent.
  destruct (Qle_bool (TokenBucketConfig.capacity config) 0) eqn:E1;
    [discriminate |].
  destruct (Qle_bool (TokenBucketConfig.refillRate config) 0) eqn:E2;
    [discriminate |].
  destruct (TokenBucketConfig.initialTokens config) as [i |].
  - destruct (Qlt_bool i 0) eqn:E3; [discriminate |].
    destruct (Qlt_bool (TokenBucketConfig.capacity config) i) eqn:E4;
      [discriminate |].
    intro H; injection H as <-; simpl. qprop. repeat split; auto.
  - intro H; injection H as <-; simpl. qprop. repeat split; auto; lra.
Qed.

Lemma new_succeeds config storage now :
  0 < TokenBucketConfig.capacity config ->
  0 < TokenBucketConfig.refillRate config ->
  (forall i, TokenBucketConfig.initialTokens config = Some i ->
             0 <= i /\ i <= TokenBucketConfig.capacity config) ->
  exists b, new config storage now = Ok b.
Proof.
  intros Hc Hr Hi. unfold new, validateConfig.
  assert (E1 : Qle_bool (TokenBucketConfig.capacity config) 0 = false)
    by now qle_false.
  assert (E2 : Qle_bool (TokenBucketConfig.refillRate config) 0 = false)
    by now qle_false.
  rewrite E1, E2.
  destruct (TokenBucketConfig.initialTokens config) as [i |]; [| eauto].
  destruct (Hi i eq_refl) as [H0 H1].
  assert (E3 : Qlt_bool i 0 = false) by now qlt_false.
  assert (E4 : Qlt_bool (TokenBucketConfig.capacity config) i = false)
    by now qlt_false.
  rewrite E3, E4. eauto.
Qed.

(** [refill] never takes tokens away from a consistent bucket. *)
Lemma refill_never_decreases now b :
  consistent b -> _available b <= _available (refill now b).
Proof.
  intros (H0 & H1 & H2 & H3).
  destruct (refill_cases now b) as [[H ->]|[H ->]]; simpl; [lra |].
  apply min_glb; [lra |]. rewrite div_1000. nra.
Qed.

Lemma refill_monotone t1 t2 b :
  consistent b -> t1 <= t2 ->
  _available (refill t1 b) <= _available (refill t2 b).
Proof.
  intros Hb Ht. pose proof Hb as (H0 & H1 & H2 & H3).
  destruct (refill_cases t1 b) as [[Ha ->]|[Ha ->]].
  - now apply refill_never_decreases.
  - destruct (refill_cases t2 b) as [[Hc ->]|[Hc ->]]; simpl; [lra |].
    apply min_glb; [apply min_le_l |].
    eapply Qle_trans; [apply min_le_r |].
    rewrite !div_1000. nra.
Qed.

(** With no refill for [capacity / refillRate] seconds the bucket is full. *)
Lemma refill_reaches_capacity now b :
  consistent b ->
  _capacity b <= _available b + (now - _lastRefill b) / 1000 * _refillRate b ->
  _lastRefill b < now ->
  _available (refill now b) = _capacity b.
Proof.
  intros Hb Hfull Hlt.
  destruct (refill_cases now b) as [[Ha _]|[_ ->]]; simpl; [lra |].
  destruct (min_cases (_capacity b)
              (_available b + (now - _lastRefill b) / 1000 * _refillRate b))
    as [[_ ->]|[C _]]; [reflexivity | lra].
Qed.

End TokenBucketFacts.

(** ** Claims about the token bucket *)

(** C7.  A bucket built by the constructor (which accepts only a positive
    capacity and a positive refill rate) satisfies [0 <= available <=
    capacity] after every sequence of calls of its methods ([consume],
    [refund], [reset], [restoreState] and the reading methods, which
    refill), whatever clock value each call sees; the same bounds hold for
    what the getter [available] then returns, and the capacity is the
    configured one. *)
Theorem bucket_available_between_0_and_capacity :
  forall (config : TokenBucketConfig.t) (storage : bool) (t0 : Q)
         (b : TokenBucket.t) (calls : list (Q * TokenBucket.Op)) (now : Q),
    TokenBucket.new config storage t0 = Ok b ->
    let b' := TokenBucket.run calls b in
    0 <= TokenBucket._available b'
    /\ TokenBucket._available b' <= TokenBucket._capacity b'
    /\ 0 <= fst (TokenBucket.available now b')
    /\ fst (TokenBucket.available now b') <= TokenBucket._capacity b'
    /\ TokenBucket._capacity b' = TokenBucketConfig.capacity config.
Proof.
  intros config storage t0 b calls now Hnew b'.
  destruct (TokenBucketFacts.new_consistent _ _ _ Hnew) as [Hb Hcap].
  pose proof (TokenBucketFacts.run_consistent calls Hb) as Hrun.
  fold b' in Hrun.
  pose proof (TokenBucketFacts.refill_consistent now Hrun) as Hnow.
  destruct Hrun as (H0 & H1 & _). destruct Hnow as (H2 & H3 & _).
  rewrite TokenBucketFacts.refill_capacity in H3.
  repeat split; auto.
  unfold b'. rewrite TokenBucketFacts.run_capacity. exact Hcap.
Qed.

Lemma bucket_available_between_0_and_capacity_witness :
  let b' :=
    TokenBucket.run
      [(1000, TokenBucket.op_consume 30); (500, TokenBucket.op_refund 500);
       (4000, TokenBucket.op_consume 200); (4000, TokenBucket.op_reset);
       (9000, TokenBucket.op_restoreState (TokenBucketState.mk 7 100 8000));
       (9500, TokenBucket.op_available)]
      (TokenBucket.mk 100 100 10 0 true) in
  0 <= TokenBucket._available b'
  /\ TokenBucket._available b' <= TokenBucket._capacity b'
  /\ 0 <= fst (TokenBucket.available 9500 b')
  /\ fst (TokenBucket.available 9500 b') <= TokenBucket._capacity b'
  /\ TokenBucket._capacity b' = 100.
Proof.
  apply (@bucket_available_between_0_and_capacity
           (TokenBucketConfig.mk 100 10 None) true 0).
  reflexivity.
Defined.

(** C8.  For a consistent bucket, [refill] computes
    [min(capacity, available + elapsedSeconds * refillRate)] from the time
    elapsed since the last refill; the result never lies below the
    previous [available], never above [capacity], grows with the clock
    value, and is the same when [refill] runs twice at one clock value.
    With capacity 100, 10 tokens per second and 50 tokens, 70 tokens are
    available after 2 s and 100 after 10 s. *)
Theorem refill_is_capped_monotone_idempotent :
  forall (b : TokenBucket.t) (t1 t2 : Q),
    TokenBucket.consistent b ->
    TokenBucket._lastRefill b <= t1 -> t1 <= t2 ->
    TokenBucket._available (TokenBucket.refill t1 b)
      == Math.min (TokenBucket._capacity b)
           (TokenBucket._available b
            + (t1 - TokenBucket._lastRefill b) / 1000
              * TokenBucket._refillRate b)
    /\ TokenBucket._available (TokenBucket.refill t1 b)
       <= TokenBucket._available (TokenBucket.refill t2 b)
    /\ TokenBucket._available b
       <= TokenBucket._available (TokenBucket.refill t1 b)
    /\ TokenBucket._available (TokenBucket.refill t1 b)
       <= TokenBucket._capacity b
    /\ TokenBucket.refill t1 (TokenBucket.refill t1 b) = TokenBucket.refill t1 b
    /\ TokenBucket._available (TokenBucket.refill 2000 bucket_100_10_50) == 70
    /\ TokenBucket._available (TokenBucket.refill 10000 bucket_100_10_50) == 100.
Proof.
  intros b t1 t2 Hb Hlast Ht.
  split; [| split; [| split; [| split; [| split; [| split]]]]].
  - destruct (TokenBucketFacts.refill_cases t1 b) as [[H ->]|[H ->]]; simpl;
      [| reflexivity].
    destruct Hb as (H0 & H1 & H2 & H3).
    assert (E : t1 == TokenBucket._lastRefill b) by lra.
    destruct (min_cases (TokenBucket._capacity b)
                (TokenBucket._available b
                 + (t1 - TokenBucket._lastRefill b) / 1000
                   * TokenBucket._refillRate b)) as [[Hm ->]|[Hm ->]];
      rewrite div_1000 in *; nra.
  - now apply TokenBucketFacts.refill_monotone.
  - now apply TokenBucketFacts.refill_never_decreases.
  - pose proof (TokenBucketFacts.refill_consistent t1 Hb) as (_ & H & _).
    now rewrite TokenBucketFacts.refill_capacity in H.
  - apply TokenBucketFacts.refill_idempotent.
  - reflexivity.
  - reflexivity.
Qed.

Lemma refill_is_capped_monotone_idempotent_witness :
  TokenBucket._available (TokenBucket.refill 2000 bucket_100_10_50)
  <= TokenBucket._available (TokenBucket.refill 10000 bucket_100_10_50).
Proof.
  refine (proj1 (proj2
    (@refill_is_capped_monotone_idempotent bucket_100_10_50 2000 10000 _ _ _))).
  - unfold TokenBucket.consistent; simpl. repeat split; lra.
  - simpl; lra.
  - lra.
Defined.

(** C9.  The state exported by [getState] from a consistent bucket is
    accepted by [restoreState] on a bucket of the same capacity, which
    then holds exactly the exported [available] and [lastRefill].
    [restoreState] throws an invalid-state error and leaves the bucket as
    it was when the snapshot's [available] is negative or above the
    capacity, and when the snapshot's capacity is not the bucket's. *)
Theorem getState_restoreState_roundtrip :
  forall (src dst : TokenBucket.t) (now : Q)
         (state : TokenBucketState.t) (b : TokenBucket.t),
    TokenBucket.consistent src ->
    TokenBucket._capacity dst == TokenBucket._capacity src ->
    (exists dst',
        TokenBucket.restoreState (fst (TokenBucket.getState now src)) dst
        = (Ok tt, dst')
        /\ TokenBucket._available dst'
           = TokenBucketState.available (fst (TokenBucket.getState now src))
        /\ TokenBucket._lastRefill dst'
           = TokenBucketState.lastRefill (fst (TokenBucket.getState now src))
        /\ TokenBucket._available dst'
           = TokenBucket._available (snd (TokenBucket.getState now src))
        /\ TokenBucket._lastRefill dst'
           = TokenBucket._lastRefill (snd (TokenBucket.getState now src))
        /\ TokenBucket._capacity dst' = TokenBucket._capacity dst
        /\ TokenBucket._refillRate dst' = TokenBucket._refillRate dst)
    /\ (TokenBucketState.available state < 0
        \/ TokenBucket._capacity b < TokenBucketState.available state
        \/ ~ TokenBucketState.capacity state == TokenBucket._capacity b ->
        exists e,
          TokenBucket.restoreState state b = (Throw e, b)
          /\ kind_of e = InvalidState).
Proof.
  intros src dst now state b Hsrc Hcap. split.
  - pose proof (TokenBucketFacts.refill_consistent now Hsrc)
      as (H0 & H1 & H2 & H3).
    unfold TokenBucket.getState, TokenBucket.restoreState; simpl.
    assert (E1 : Qlt_bool (TokenBucket._available (TokenBucket.refill now src)) 0
                 = false) by now qlt_false.
    assert (E2 : Qlt_bool (TokenBucket._capacity (TokenBucket.refill now src))
                   (TokenBucket._available (TokenBucket.refill now src))
                 = false) by now qlt_false.
    assert (E3 : Qeq_bool (TokenBucket._capacity (TokenBucket.refill now src))
                   (TokenBucket._capacity dst) = true).
    { apply Qeq_bool_iff. rewrite TokenBucketFacts.refill_capacity.
      now symmetry. }
    rewrite E1, E2, E3. simpl. eexists. repeat split.
  - intros Hbad. unfold TokenBucket.restoreState.
    destruct (Qlt_bool (TokenBucketState.available state) 0) eqn:E1; simpl;
      [eauto |].
    destruct (Qlt_bool (TokenBucketState.capacity state)
                (TokenBucketState.available state)) eqn:E2; simpl; [eauto |].
    destruct (Qeq_bool (TokenBucketState.capacity state)
                (TokenBucket._capacity b)) eqn:E3; simpl; [| eauto].
    exfalso. qprop. destruct Hbad as [C | [C | C]]; [lra | | contradiction].
    rewrite <- E3 in C. lra.
Qed.

Lemma getState_restoreState_roundtrip_witness :
  (exists dst',
      TokenBucket.restoreState
        (fst (TokenBucket.getState 2000 bucket_100_10_50))
        (TokenBucket.mk 100 3 25 500 true) = (Ok tt, dst')
      /\ TokenBucket._available dst'
         = TokenBucket._available
             (snd (TokenBucket.getState 2000 bucket_100_10_50))
      /\ TokenBucket._lastRefill dst' = 2000)
  /\ exists e,
      TokenBucket.restoreState (TokenBucketState.mk 120 100 0)
        bucket_100_10_50 = (Throw e, bucket_100_10_50)
      /\ kind_of e = InvalidState.
Proof.
  destruct (@getState_restoreState_roundtrip bucket_100_10_50
              (TokenBucket.mk 100 3 25 500 true) 2000
              (TokenBucketState.mk 120 100 0) bucket_100_10_50)
    as [(dst' & H1 & _ & _ & H4 & H5 & _) H2].
  - unfold TokenBucket.consistent; simpl. repeat split; lra.
  - simpl. reflexivity.
  - split.
    + exists dst'. repeat split; [exact H1 | exact H4 | exact H5].
    + apply H2. right. left. simpl. lra.
Defined.

(** ** Bucket methods called at one clock value *)

Module BucketCalls.
Import TokenBucket TokenBucketFacts.

Lemma persistState_uptodate now b :
  now <= _lastRefill b -> persistState now b = b.
Proof.
  intro H. unfold persistState, getState.
  destruct (negb (_storage b)); simpl; auto using refill_uptodate.
Qed.

Lemma available_after_refill now b :
  available now (refill now b) = (_available (refill now b), refill now b).
Proof. unfold available. now rewrite refill_idempotent. Qed.

Lemma timeUntilNextToken_snd now b :
  snd (timeUntilNextToken now b) = refill now b.
Proof.
  unfold timeUntilNextToken.
  now destruct (Qle_bool 1 (_available (refill now b))).
Qed.

Lemma timeUntilNextToken_after_refill now b :
  timeUntilNextToken now (refill now b) = timeUntilNextToken now b.
Proof. unfold timeUntilNextToken. now rewrite refill_idempotent. Qed.

Lemma timeUntilTokens_after_refill count now b :
  timeUntilTokens count now (refill now b)
  = (fst (timeUntilTokens count now b), refill now b).
Proof.
  unfold timeUntilTokens. rewrite refill_idempotent.
  destruct (Qle_bool count 0); simpl; trivial.
  now destruct (Qle_bool count (_available (refill now b))).
Qed.

(** A debit that the balance covers. *)
Lemma consume_covered count now b :
  0 <= count -> count <= _available (refill now b) ->
  consume count now b
  = (Ok true, set_available (_available (refill now b) - count) (refill now b)).
Proof.
  intros H0 H1. unfold consume.
  assert (E0 : Qlt_bool count 0 = false) by now qlt_false.
  assert (E1 : Qle_bool count (_available (refill now b)) = true)
    by now qle_true.
  rewrite E0, E1. f_equal. apply persistState_uptodate.
  simpl. apply refill_lastRefill_ge.
Qed.

(** A debit that the balance does not cover. *)
Lemma consume_short count now b :
  0 <= count -> _available (refill now b) < count ->
  consume count now b = (Ok false, refill now b).
Proof.
  intros H0 H1. unfold consume.
  assert (E0 : Qlt_bool count 0 = false) by now qlt_false.
  assert (E1 : Qle_bool count (_available (refill now b)) = false)
    by now qle_false.
  now rewrite E0, E1.
Qed.

Lemma consume_negative count now b :
  count < 0 -> consume count now b = (Throw Error_consumeNegative, b).
Proof.
  intro H. unfold consume.
  assert (E0 : Qlt_bool count 0 = true) by now qlt_true.
  now rewrite E0.
Qed.


End BucketCalls.

(** ** Arrays *)

Lemma Array_find_some {A : Type} (p : A -> bool) (l : list A) i x :
  Array_find p l = Some (i, x) ->
  exists l1 l2,
    l = l1 ++ x :: l2 /\ List.length l1 = i /\ p x = true
    /\ Forall (fun y => p y = false) l1.
Proof.
  revert i. induction l as [| y l IH]; simpl; intros i H; [discriminate |].
  destruct (p y) eqn:Hy.
  - injection H as <- <-. exists [], l. repeat split; auto.
  - destruct (Array_find p l) as [[j z] |] eqn:Hf; [| discriminate].
    injection H as <- <-.
    destruct (IH j eq_refl) as (l1 & l2 & -> & <- & Hx & Hall).
    exists (y :: l1), l2. repeat split; auto.
Qed.

Lemma Array_find_first {A : Type} (p : A -> bool) (l1 l2 : list A) x :
  Forall (fun y => p y = false) l1 -> p x = true ->
  Array_find p (l1 ++ x :: l2) = Some (List.length l1, x).
Proof.
  intros Hall Hx. induction Hall as [| y l1 Hy _ IH]; simpl.
  - now rewrite Hx.
  - now rewrite Hy, IH.
Qed.

Lemma Array_find_none {A : Type} (p : A -> bool) (l : list A) :
  Array_find p l = None <-> Forall (fun y => p y = false) l.
Proof.
  induction l as [| y l IH]; simpl.
  - split; auto.
  - destruct (p y) eqn:Hy.
    + split; [discriminate |]. intro H. inversion H. congruence.
    + destruct (Array_find p l) as [[j z] |].
      * split; [discriminate |]. intro H. inversion H; subst.
        destruct IH as [_ IH]. now specialize (IH H3).
      * split; auto. intros _. constructor; auto. now apply IH.
Qed.

Lemma Array_find_present {A : Type} (p : A -> bool) (l : list A) x :
  In x l -> p x = true -> exists i y, Array_find p l = Some (i, y).
Proof.
  intros Hin Hx. destruct (Array_find p l) as [[i y] |] eqn:E; [eauto |].
  apply Array_find_none in E. rewrite Forall_forall in E.
  specialize (E x Hin). congruence.
Qed.

Lemma Array_update_middle {A : Type} (f : A -> A) (l1 l2 : list A) x :
  Array_update (List.length l1) f (l1 ++ x :: l2) = l1 ++ f x :: l2.
Proof. induction l1 as [| y l1 IH]; simpl; [reflexivity | now rewrite IH]. Qed.

Lemma Array_slice_last {A : Type} (n : Z) (l : list A) :
  (0 < n)%Z ->
  Array_slice (- n) l = skipn (List.length l - Z.to_nat n) l.
Proof.
  intro Hn. unfold Array_slice.
  assert (E : (- n <? 0)%Z = true) by (apply Z.ltb_lt; lia).
  rewrite E. f_equal. lia.
Qed.

Lemma Array_splice0_skipn {A : Type} (n : Z) (l : list A) :
  (0 <= n <= Z.of_nat (List.length l))%Z ->
  Array_splice0 n l = skipn (Z.to_nat n) l.
Proof. intro H. unfold Array_splice0. f_equal. lia. Qed.

(** ** Strings *)

Module JSStringFacts.

Lemma eqb_eq (a b : JSString.t) : JSString.eqb a b = true <-> a = b.
Proof.
  revert b. induction a as [| x a IH]; destruct b as [| y b]; cbn;
    try (split; [discriminate | congruence]); [tauto |].
  rewrite andb_true_iff, N.eqb_eq, IH.
  split; [intros [-> ->]; reflexivity | intro H; injection H; auto].
Qed.

Lemma eqb_refl (a : JSString.t) : JSString.eqb a a = true.
Proof. now apply eqb_eq. Qed.

Lemma eqb_neq (a b : JSString.t) : JSString.eqb a b = false <-> a <> b.
Proof.
  rewrite <- eqb_eq. destruct (JSString.eqb a b); split; congruence.
Qed.

End JSStringFacts.

(** ** The engine *)

Module LLMThrottleFacts.
Import LLMThrottle EngineNotions.

Section Facts.

Variable TMetadata : Type.

Local Abbreviation engine := (LLMThrottle.t TMetadata).

(** [canProcess] in one equation: the three answers, and the engine it
    leaves behind. *)
Lemma canProcess_eq (estimatedTokens now : Q) (th : engine) :
  0 <= estimatedTokens ->
  canProcess estimatedTokens now th
  = (Ok (if Qle_bool 1 (fst (TokenBucket.available now (rpmBucket th))) then
           if Qle_bool estimatedTokens
                (fst (TokenBucket.available now (tpmBucket th))) then
             RateLimitCheckResult.mk true None None (reportedAt now th)
           else
             RateLimitCheckResult.mk false (Some tpm_limit)
               (Some (fst (TokenBucket.timeUntilTokens estimatedTokens now
                             (tpmBucket th))))
               (reportedAt now th)
         else
           RateLimitCheckResult.mk false (Some rpm_limit)
             (Some (fst (TokenBucket.timeUntilNextToken now (rpmBucket th))))
             (reportedAt now th)),
     refillBuckets now th).
Proof.
  intro Hpos. unfold canProcess, reportedAt, refillBuckets.
  assert (E0 : Qlt_bool estimatedTokens 0 = false) by now qlt_false.
  rewrite E0. unfold TokenBucket.hasTokens.
  replace (Qlt_bool 1 0) with false by reflexivity. rewrite E0.
  cbn [fst snd TokenBucket.available].
  destruct (Qle_bool 1 (TokenBucket._available
                          (TokenBucket.refill now (rpmBucket th)))) eqn:E1;
    cbn [negb].
  - destruct (Qle_bool estimatedTokens
                (TokenBucket._available
                   (TokenBucket.refill now (tpmBucket th)))) eqn:E2;
      cbn [negb].
    + now rewrite !TokenBucketFacts.refill_idempotent.
    + rewrite BucketCalls.timeUntilTokens_after_refill.
      now rewrite !TokenBucketFacts.refill_idempotent.
  - rewrite BucketCalls.timeUntilNextToken_after_refill.
    destruct (TokenBucket.timeUntilNextToken now (rpmBucket th))
      as [ms b'] eqn:E3.
    assert (Hb : b' = TokenBucket.refill now (rpmBucket th))
      by (rewrite <- (BucketCalls.timeUntilNextToken_snd now (rpmBucket th));
          now rewrite E3).
    subst b'. cbn [fst].
    now rewrite !TokenBucketFacts.refill_idempotent.
Qed.

Lemma canProcess_negative (estimatedTokens now : Q) (th : engine) :
  estimatedTokens < 0 ->
  canProcess estimatedTokens now th = (Throw Error_estimatedNegative, th).
Proof.
  intro H. unfold canProcess.
  assert (E0 : Qlt_bool estimatedTokens 0 = true) by now qlt_true.
  now rewrite E0.
Qed.

(** [cleanupHistory] touches the ledger and the logger only. *)
Lemma cleanupHistory_frame (now : Q) (th : engine) :
  rpmBucket (cleanupHistory now th) = rpmBucket th
  /\ tpmBucket (cleanupHistory now th) = tpmBucket th
  /\ compensationDebt (cleanupHistory now th) = compensationDebt th
  /\ historyRetentionMs (cleanupHistory now th) = historyRetentionMs th
  /\ maxHistoryRecords (cleanupHistory now th) = maxHistoryRecords th
  /\ efficiencyWindowSize (cleanupHistory now th) = efficiencyWindowSize th
  /\ adjustmentFailureStrategy (cleanupHistory now th)
     = adjustmentFailureStrategy th.
Proof.
  unfold cleanupHistory. cbn.
  destruct (maxHistoryRecords th <? _)%Z; cbn;
    [destruct (10 <? _)%Z; cbn |]; repeat split.
Qed.

(** The ledger after [cleanupHistory]: the newest [maxHistoryRecords] of
    the records that the retention window keeps. *)
Lemma cleanupHistory_history (now : Q) (th : engine) :
  (0 < maxHistoryRecords th)%Z ->
  consumptionHistory (cleanupHistory now th)
  = newest (maxHistoryRecords th) (retained now th).
Proof.
  intro Hmax. unfold cleanupHistory, newest, retained. cbn.
  set (fresh := filter _ (consumptionHistory th)).
  destruct (maxHistoryRecords th <? Z.of_nat (List.length fresh))%Z eqn:E.
  - apply Z.ltb_lt in E.
    assert (consumptionHistory
              (set_consumptionHistory
                 (Array_splice0
                    (Z.of_nat (List.length fresh) - maxHistoryRecords th) fresh)
                 (set_consumptionHistory fresh th))
            = skipn (List.length fresh - Z.to_nat (maxHistoryRecords th)) fresh)
      as Hh.
    { cbn. rewrite Array_splice0_skipn by lia. f_equal. lia. }
    destruct (10 <? _)%Z; cbn in *; exact Hh.
  - apply Z.ltb_ge in E. cbn.
    replace (List.length fresh - Z.to_nat (maxHistoryRecords th))%nat
      with 0%nat by lia.
    reflexivity.
Qed.

Lemma newest_length (max : Z) (l : list (ConsumptionRecord.t TMetadata)) :
  (0 <= max)%Z ->
  Z.of_nat (List.length (newest max l)) = Z.min (Z.of_nat (List.length l)) max.
Proof. intro H. unfold newest. rewrite length_skipn. lia. Qed.

Lemma newest_suffix (max : Z) (l : list (ConsumptionRecord.t TMetadata)) :
  l = firstn (List.length l - Z.to_nat max) l ++ newest max l.
Proof. unfold newest. now rewrite firstn_skipn. Qed.

(** A record pushed last survives the trimming when at least one record
    may be kept. *)
Lemma newest_snoc (max : Z) (l : list (ConsumptionRecord.t TMetadata)) x :
  (0 < max)%Z ->
  newest max (l ++ [x]) = newest (max - 1) l ++ [x].
Proof.
  intro H. unfold newest. rewrite length_app. simpl.
  replace (List.length l + 1 - Z.to_nat max)%nat
    with (List.length l - Z.to_nat (max - 1))%nat by lia.
  rewrite skipn_app.
  replace (List.length l - Z.to_nat (max - 1) - List.length l)%nat
    with 0%nat by lia.
  reflexivity.
Qed.

Lemma retained_snoc (now : Q) (th : engine) x :
  0 < historyRetentionMs th ->
  ConsumptionRecord.timestamp x = now ->
  retained now (set_consumptionHistory (consumptionHistory th ++ [x]) th)
  = retained now th ++ [x].
Proof.
  intros Hret Hx. unfold retained. cbn. rewrite filter_app. simpl.
  assert (E : Qlt_bool (now - historyRetentionMs th)
                (ConsumptionRecord.timestamp x) = true)
    by (qlt_true; rewrite Hx; lra).
  now rewrite E.
Qed.

(** [consume] in one equation, when the request id is accepted and the
    amount to admit is not negative. *)
Lemma consume_eq (requestId : JSString.t) (estimatedTokens : Q)
  (metadata : option TMetadata) (now : Q) (th : engine) :
  requestIdIsEmpty requestId = false ->
  0 <= estimatedTokens + compensationDebt th ->
  consume requestId estimatedTokens metadata now th
  = if Qle_bool 1 (fst (TokenBucket.available now (rpmBucket th)))
       && Qle_bool (estimatedTokens + compensationDebt th)
            (fst (TokenBucket.available now (tpmBucket th)))
    then (Ok true,
          cleanupHistory now (admitted now requestId estimatedTokens metadata th))
    else (Ok false, refillBuckets now th).
Proof.
  intros Hid Hpos. unfold consume. rewrite Hid, canProcess_eq by assumption.
  cbn [fst TokenBucket.available].
  destruct (Qle_bool 1 (TokenBucket._available
                          (TokenBucket.refill now (rpmBucket th)))) eqn:E1;
    cbn [andb]; [| reflexivity].
  destruct (Qle_bool (estimatedTokens + compensationDebt th)
              (TokenBucket._available
                 (TokenBucket.refill now (tpmBucket th)))) eqn:E2;
    cbn [negb RateLimitCheckResult.allowed]; [| reflexivity].
  qprop. unfold refillBuckets.
  cbn [rpmBucket tpmBucket set_rpmBucket set_tpmBucket].
  rewrite BucketCalls.consume_covered
    by (rewrite ?TokenBucketFacts.refill_idempotent; assumption || lra).
  cbn [rpmBucket tpmBucket set_rpmBucket set_tpmBucket compensationDebt].
  rewrite BucketCalls.consume_covered
    by (rewrite ?TokenBucketFacts.refill_idempotent; assumption || lra).
  rewrite !TokenBucketFacts.refill_idempotent.
  reflexivity.
Qed.

Lemma consume_empty_id (requestId : JSString.t) (estimatedTokens : Q)
  (metadata : option TMetadata) (now : Q) (th : engine) :
  requestIdIsEmpty requestId = true ->
  consume requestId estimatedTokens metadata now th
  = (Throw Error_requestIdEmpty, th).
Proof. intro H. unfold consume. now rewrite H. Qed.

Lemma consume_negative_total (requestId : JSString.t) (estimatedTokens : Q)
  (metadata : option TMetadata) (now : Q) (th : engine) :
  requestIdIsEmpty requestId = false ->
  estimatedTokens + compensationDebt th < 0 ->
  consume requestId estimatedTokens metadata now th
  = (Throw Error_estimatedNegative, th).
Proof.
  intros Hid H. unfold consume. now rewrite Hid, canProcess_negative.
Qed.

(** [adjustConsumption] in one equation, for an amount that is not
    negative and a ledger whose first record with the request id is [x]. *)
Lemma adjustConsumption_eq (requestId : JSString.t) (actualTokens now : Q)
  (th : engine) l1 x l2 :
  0 <= actualTokens ->
  consumptionHistory th = l1 ++ x :: l2 ->
  Forall (fun y => hasRequestId requestId y = false) l1 ->
  hasRequestId requestId x = true ->
  let difference := actualTokens - ConsumptionRecord.tokens x in
  let updated := l1 ++ reconcile actualTokens x :: l2 in
  let tpmB := TokenBucket.refill now (tpmBucket th) in
  adjustConsumption requestId actualTokens now th
  = if Qlt_bool 0 difference then
      if Qle_bool difference (TokenBucket._available tpmB) then
        (Ok tt,
         set_consumptionHistory updated
           (set_tpmBucket
              (TokenBucket.set_available
                 (TokenBucket._available tpmB - difference) tpmB) th))
      else
        match adjustmentFailureStrategy th with
        | strict =>
            (Throw (RateLimitError difference requestId tpm_limit
                      (fst (TokenBucket.timeUntilTokens difference now
                              (tpmBucket th)))),
             set_tpmBucket tpmB th)
        | warn =>
            (Ok tt,
             set_consumptionHistory updated
               (log level_warn (log_failedToConsume difference requestId)
                  (set_tpmBucket tpmB th)))
        | compensate =>
            (Ok tt,
             set_consumptionHistory updated
               (log level_info
                  (log_addingDebt difference
                     (compensationDebt th + difference))
                  (set_compensationDebt (compensationDebt th + difference)
                     (set_tpmBucket tpmB th))))
        end
    else if Qlt_bool difference 0 then
      (Ok tt,
       set_consumptionHistory updated
         (set_tpmBucket
            (TokenBucket.persistState now
               (TokenBucket.set_available
                  (Math.min (TokenBucket._capacity (tpmBucket th))
                     (TokenBucket._available (tpmBucket th) + - difference))
                  (tpmBucket th))) th))
    else (Ok tt, set_consumptionHistory updated th).
Proof.
  intros Hpos Hh Hl1 Hx difference updated tpmB.
  unfold adjustConsumption.
  assert (E0 : Qlt_bool actualTokens 0 = false) by now qlt_false.
  rewrite E0, Hh.
  change (fun item => JSString.eqb (ConsumptionRecord.requestId item) requestId)
    with (hasRequestId (TMetadata := TMetadata) requestId).
  rewrite (@Array_find_first _ _ l1 l2 x Hl1 Hx).
  fold difference.
  destruct (Qlt_bool 0 difference) eqn:E1.
  - pose proof E1 as H1. qprop.
    destruct (Qle_bool difference (TokenBucket._available tpmB)) eqn:E2;
      pose proof E2 as H2; qprop.
    + rewrite BucketCalls.consume_covered by (fold tpmB; lra).
      cbn [negb consumptionHistory set_tpmBucket].
      rewrite Hh, Array_update_middle. reflexivity.
    + rewrite BucketCalls.consume_short by (fold tpmB; lra).
      cbn [negb]. unfold handleAdjustmentFailureSync.
      cbn [adjustmentFailureStrategy set_tpmBucket tpmBucket].
      destruct (adjustmentFailureStrategy th).
      * rewrite BucketCalls.timeUntilTokens_after_refill. reflexivity.
      * cbn. rewrite Hh, Array_update_middle. reflexivity.
      * cbn. rewrite Hh, Array_update_middle. reflexivity.
  - destruct (Qlt_bool difference 0) eqn:E2.
    + unfold TokenBucket.refund.
      assert (E3 : Qlt_bool (- difference) 0 = false)
        by (qprop; qlt_false; lra).
      rewrite E3. cbn. rewrite Hh, Array_update_middle. reflexivity.
    + cbn iota beta. rewrite Hh, Array_update_middle. reflexivity.
Qed.

(** A shortfall under [strict]: the error carries [tpm_limit] and the
    volume bucket's waiting time, and the engine is as before but for the
    refill of the volume bucket. *)
Lemma adjustConsumption_strict_shortfall (requestId : JSString.t)
  (actualTokens now : Q) (th : engine) l1 x l2 :
  0 <= actualTokens ->
  consumptionHistory th = l1 ++ x :: l2 ->
  Forall (fun y => hasRequestId requestId y = false) l1 ->
  hasRequestId requestId x = true ->
  adjustmentFailureStrategy th = strict ->
  let difference := actualTokens - ConsumptionRecord.tokens x in
  0 < difference ->
  fst (TokenBucket.available now (tpmBucket th)) < difference ->
  adjustConsumption requestId actualTokens now th
  = (Throw (RateLimitError difference requestId tpm_limit
              (fst (TokenBucket.timeUntilTokens difference now (tpmBucket th)))),
     set_tpmBucket (TokenBucket.refill now (tpmBucket th)) th).
Proof.
  intros Hpos Hh Hl1 Hx Hs difference H0 H1.
  rewrite (@adjustConsumption_eq requestId actualTokens now th l1 x l2)
    by assumption.
  fold difference.
  assert (E0 : Qlt_bool 0 difference = true) by now qlt_true.
  assert (E1 : Qle_bool difference
                 (TokenBucket._available
                    (TokenBucket.refill now (tpmBucket th))) = false)
    by now qle_false.
  now rewrite E0, E1, Hs.
Qed.

Lemma adjustConsumption_negative (requestId : JSString.t) (actualTokens now : Q)
  (th : engine) :
  actualTokens < 0 ->
  adjustConsumption requestId actualTokens now th
  = (Throw Error_actualNegative, th).
Proof.
  intro H. unfold adjustConsumption.
  assert (E0 : Qlt_bool actualTokens 0 = true) by now qlt_true.
  now rewrite E0.
Qed.

Lemma adjustConsumption_unknown (requestId : JSString.t) (actualTokens now : Q)
  (th : engine) :
  0 <= actualTokens ->
  Forall (fun y => hasRequestId requestId y = false) (consumptionHistory th) ->
  adjustConsumption requestId actualTokens now th
  = (Throw (Error_requestIdNotFound requestId), th).
Proof.
  intros H Hall. unfold adjustConsumption.
  assert (E0 : Qlt_bool actualTokens 0 = false) by now qlt_false.
  rewrite E0.
  change (fun item => JSString.eqb (ConsumptionRecord.requestId item) requestId)
    with (hasRequestId (TMetadata := TMetadata) requestId).
  apply Array_find_none in Hall. now rewrite Hall.
Qed.

(** The first record with a request id, when there is one. *)
Lemma first_with_requestId (requestId : JSString.t)
  (l : list (ConsumptionRecord.t TMetadata)) r :
  In r l -> ConsumptionRecord.requestId r = requestId ->
  exists l1 x l2,
    l = l1 ++ x :: l2
    /\ Forall (fun y => hasRequestId requestId y = false) l1
    /\ hasRequestId requestId x = true.
Proof.
  intros Hin Hid.
  destruct (@Array_find_present _ (hasRequestId requestId) l r Hin)
    as (i & x & Hf).
  - unfold hasRequestId. rewrite Hid. apply JSStringFacts.eqb_refl.
  - apply Array_find_some in Hf. destruct Hf as (l1 & l2 & ? & ? & ? & ?).
    eauto 7.
Qed.

Lemma retained_snoc' (now : Q) (th th2 : engine) x :
  0 < historyRetentionMs th ->
  historyRetentionMs th2 = historyRetentionMs th ->
  consumptionHistory th2 = consumptionHistory th ++ [x] ->
  ConsumptionRecord.timestamp x = now ->
  retained now th2 = retained now th ++ [x].
Proof.
  intros Hret E1 E2 Hx. unfold retained. rewrite E1, E2, filter_app. simpl.
  assert (E : Qlt_bool (now - historyRetentionMs th)
                (ConsumptionRecord.timestamp x) = true)
    by (qlt_true; rewrite Hx; lra).
  now rewrite E.
Qed.

Lemma retained_fresh (now : Q) (th : engine) :
  Forall (fun r => now - historyRetentionMs th < ConsumptionRecord.timestamp r)
         (retained now th).
Proof.
  unfold retained. apply Forall_forall. intros r Hr.
  apply filter_In in Hr. destruct Hr as [_ Hr]. now apply Qlt_bool_iff.
Qed.

Lemma newest_Forall (P : ConsumptionRecord.t TMetadata -> Prop) max l :
  Forall P l -> Forall P (newest max l).
Proof.
  intro H. rewrite (newest_suffix max l) in H.
  now apply Forall_app in H.
Qed.

(** A [consume] that returns [true] went through the whole admitted path. *)
Lemma consume_true_inv (requestId : JSString.t) (estimatedTokens : Q)
  (metadata : option TMetadata) (now : Q) (th th' : engine) :
  consume requestId estimatedTokens metadata now th = (Ok true, th') ->
  th' = cleanupHistory now (admitted now requestId estimatedTokens metadata th).
Proof.
  intro H.
  destruct (requestIdIsEmpty requestId) eqn:Hid.
  - rewrite consume_empty_id in H by assumption. discriminate.
  - destruct (Qlt_le_dec (estimatedTokens + compensationDebt th) 0) as [Hn|Hp].
    + rewrite consume_negative_total in H by assumption. discriminate.
    + rewrite consume_eq in H by assumption.
      destruct (_ && _); [| discriminate]. now injection H.
Qed.

(** *** Metrics *)

Lemma getMetrics_efficiency (now : Q) (th : engine) :
  RateLimitMetrics.efficiency (fst (getMetrics now th))
  = calculateEfficiency (cleanupHistory now th).
Proof. reflexivity. Qed.

Lemma getMetrics_history (now : Q) (th : engine) :
  consumptionHistory (snd (getMetrics now th))
  = consumptionHistory (cleanupHistory now th).
Proof. reflexivity. Qed.

Lemma length_zero_iff (A : Type) (l : list A) :
  (Z.of_nat (List.length l) =? 0)%Z = true <-> l = [].
Proof.
  rewrite Z.eqb_eq. destruct l; simpl; split; intro H;
    trivial; try discriminate; lia.
Qed.

Lemma fold_left_sum (A : Type) (f : A -> Q) (l : list A) (acc : Q) :
  fold_left (fun total x => total + f x) l acc
  == acc + fold_right Qplus 0 (map f l).
Proof.
  revert acc. induction l as [| x l IH]; intro acc; simpl.
  - ring.
  - rewrite IH. ring.
Qed.

Lemma calculateEfficiency_cases (th : engine) :
  (window th = [] -> calculateEfficiency th = 1)
  /\ (window th <> [] -> reconciled th = [] -> calculateEfficiency th = 0.85)
  /\ (reconciled th <> [] ->
      calculateEfficiency th
      == mean (map (@recordAccuracy TMetadata) (reconciled th))).
Proof.
  unfold calculateEfficiency. fold (window th). fold (reconciled th).
  destruct (Z.of_nat (List.length (window th)) =? 0)%Z eqn:E1.
  - apply length_zero_iff in E1. repeat split; try congruence.
    intro H. unfold reconciled in H. rewrite E1 in H. now elim H.
  - assert (window th <> []) as Hw
      by (intro C; apply length_zero_iff in C; congruence).
    destruct (Z.of_nat (List.length (reconciled th)) =? 0)%Z eqn:E2.
    + apply length_zero_iff in E2. repeat split; congruence.
    + repeat split; try congruence.
      * intros _ C. apply length_zero_iff in C. congruence.
      * intros _. unfold mean. rewrite fold_left_sum, length_map.
        apply Qdiv_comp; [ring | reflexivity].
Qed.

Lemma accuracyOf_zero (estimated actual : Q) :
  estimated == 0 -> actual == 0 -> accuracyOf estimated actual = 1.
Proof.
  intros He Ha. unfold accuracyOf.
  apply Qeq_bool_iff in He. apply Qeq_bool_iff in Ha. now rewrite He, Ha.
Qed.

Lemma zero_div (x y : Q) : x == 0 -> x / y == 0.
Proof. intro H. unfold Qdiv. rewrite H. ring. Qed.

Lemma accuracyOf_ratio (estimated actual : Q) :
  0 <= estimated -> 0 <= actual -> ~ (estimated == 0 /\ actual == 0) ->
  accuracyOf estimated actual == ratio estimated actual.
Proof.
  intros He Ha Hnz. unfold accuracyOf, ratio.
  destruct (Qeq_bool estimated 0) eqn:E1;
    destruct (Qeq_bool actual 0) eqn:E2; qprop; cbn [andb orb].
  - tauto.
  - destruct (min_cases estimated actual) as [[_ ->]|[C _]]; [| lra].
    symmetry. now apply zero_div.
  - destruct (min_cases estimated actual) as [[C _]|[_ ->]].
    + assert (estimated == 0) by lra. contradiction.
    + symmetry. now apply zero_div.
  - reflexivity.
Qed.

Lemma mean_map_ext (A : Type) (f g : A -> Q) (l : list A) :
  Forall (fun x => f x == g x) l -> mean (map f l) == mean (map g l).
Proof.
  intro H. unfold mean. rewrite !length_map.
  apply Qdiv_comp; [| reflexivity].
  induction H as [| x l Hx _ IH]; simpl; [reflexivity |].
  now rewrite Hx, IH.
Qed.

Lemma recordAccuracy_ratio (l : list (ConsumptionRecord.t TMetadata)) :
  Forall (@measurable TMetadata) l ->
  mean (map (@recordAccuracy TMetadata) l)
  == mean (map (@recordRatio TMetadata) l).
Proof.
  intro H. apply mean_map_ext. apply Forall_impl with (2 := H).
  intros r (e & a & He & Ha & H0 & H1 & H2).
  unfold recordAccuracy, recordRatio. rewrite He, Ha.
  now apply accuracyOf_ratio.
Qed.

(** After [cleanupHistory] every record is younger than the retention
    window and at most [maxHistoryRecords] records are left. *)
Lemma cleanupHistory_fresh_bounded (now : Q) (th : engine) :
  (0 < maxHistoryRecords th)%Z ->
  Forall (fun r => now - historyRetentionMs th < ConsumptionRecord.timestamp r)
         (consumptionHistory (cleanupHistory now th))
  /\ (Z.of_nat (List.length (consumptionHistory (cleanupHistory now th)))
      <= maxHistoryRecords th)%Z.
Proof.
  intro Hmax. rewrite cleanupHistory_history by exact Hmax. split.
  - apply newest_Forall, retained_fresh.
  - rewrite newest_length by lia. lia.
Qed.

(** *** The invariant *)

Lemma rule_nil (violated : bool) (message : string) (rest : list string) :
  Validation.rule violated message ++ rest = [] ->
  violated = false /\ rest = [].
Proof. destruct violated; simpl; [discriminate | auto]. Qed.

Lemma new_wellFormed (config : LLMThrottleConfig.t) (now : Q) (th : engine) :
  LLMThrottle.new TMetadata config now = Ok th -> wellFormed th.
Proof.
  unfold LLMThrottle.new.
  destruct (Validation.errors config) eqn:E; [| discriminate].
  unfold Validation.errors in E.
  apply rule_nil in E; destruct E as [_ E].
  apply rule_nil in E; destruct E as [_ E].
  apply rule_nil in E; destruct E as [_ E].
  apply rule_nil in E; destruct E as [_ E].
  apply rule_nil in E; destruct E as [Hret E].
  apply rule_nil in E; destruct E as [Hmax E].
  rewrite <- (app_nil_r (Validation.rule _ _)) in E.
  apply rule_nil in E; destruct E as [Hwin _].
  destruct (TokenBucket.new _ _ now) as [rpmB |] eqn:E1; [| discriminate].
  destruct (TokenBucket.new (TokenBucketConfig.mk _ (LLMThrottleConfig.tpm config / 60) _) _ now)
    as [tpmB |] eqn:E2; [| discriminate].
  intro H; injection H as <-.
  apply TokenBucketFacts.new_consistent in E1, E2.
  unfold wellFormed.
  cbn [rpmBucket tpmBucket historyRetentionMs maxHistoryRecords
       efficiencyWindowSize].
  split; [tauto |]. split; [tauto |]. split; [| split].
  - unfold orQ. destruct (LLMThrottleConfig.historyRetentionMs config) as [r |];
      [| reflexivity].
    destruct (Qeq_bool r 0); [reflexivity | now qprop].
  - unfold orZ. destruct (LLMThrottleConfig.maxHistoryRecords config) as [m |];
      [| reflexivity].
    apply Z.leb_gt in Hmax. destruct (m =? 0)%Z; [reflexivity | exact Hmax].
  - unfold orZ.
    destruct (LLMThrottleConfig.efficiencyWindowSize config) as [w |];
      [| reflexivity].
    apply Z.leb_gt in Hwin. destruct (w =? 0)%Z; [reflexivity | exact Hwin].
Qed.

Lemma cleanupHistory_wellFormed (now : Q) (th : engine) :
  wellFormed th -> wellFormed (cleanupHistory now th).
Proof.
  unfold wellFormed.
  destruct (cleanupHistory_frame now th) as (-> & -> & _ & -> & -> & -> & _).
  trivial.
Qed.

Lemma refillBuckets_wellFormed (now : Q) (th : engine) :
  wellFormed th -> wellFormed (refillBuckets now th).
Proof.
  unfold wellFormed, refillBuckets; cbn.
  intros (H1 & H2 & H3). auto using TokenBucketFacts.refill_consistent.
Qed.

Lemma debit_consistent (count now : Q) (b : TokenBucket.t) :
  TokenBucket.consistent b -> 0 <= count ->
  count <= TokenBucket._available (TokenBucket.refill now b) ->
  TokenBucket.consistent
    (TokenBucket.set_available
       (TokenBucket._available (TokenBucket.refill now b) - count)
       (TokenBucket.refill now b)).
Proof.
  intros Hb H0 H1.
  destruct (TokenBucketFacts.refill_consistent now Hb) as (A0 & A1 & A2 & A3).
  unfold TokenBucket.consistent; cbn. repeat split; auto; lra.
Qed.

Lemma consume_wellFormed requestId estimatedTokens metadata now (th : engine) :
  wellFormed th ->
  wellFormed (snd (consume requestId estimatedTokens metadata now th)).
Proof.
  intro Hwf.
  destruct (requestIdIsEmpty requestId) eqn:Hid.
  - now rewrite consume_empty_id.
  - destruct (Qlt_le_dec (estimatedTokens + compensationDebt th) 0) as [Hn|Hp].
    + now rewrite consume_negative_total.
    + rewrite consume_eq by assumption.
      cbn [fst TokenBucket.available].
      destruct (Qle_bool 1 _) eqn:E1; cbn [andb snd];
        [| now apply refillBuckets_wellFormed].
      destruct (Qle_bool (estimatedTokens + compensationDebt th) _) eqn:E2;
        cbn [snd]; [| now apply refillBuckets_wellFormed].
      qprop. apply cleanupHistory_wellFormed.
      destruct Hwf as (H1 & H2 & H3).
      unfold wellFormed, admitted; cbn.
      split; [apply debit_consistent; auto; lra |].
      split; [apply debit_consistent; auto |]. exact H3.
Qed.

Lemma canProcess_wellFormed estimatedTokens now (th : engine) :
  wellFormed th -> wellFormed (snd (canProcess estimatedTokens now th)).
Proof.
  intro Hwf. destruct (Qlt_le_dec estimatedTokens 0) as [Hn|Hp].
  - now rewrite canProcess_negative.
  - rewrite canProcess_eq by assumption. now apply refillBuckets_wellFormed.
Qed.

Lemma set_tpmBucket_wellFormed (b : TokenBucket.t) (th : engine) :
  wellFormed th -> TokenBucket.consistent b -> wellFormed (set_tpmBucket b th).
Proof. unfold wellFormed; cbn. tauto. Qed.

Lemma adjustConsumption_wellFormed requestId actualTokens now (th : engine) :
  wellFormed th ->
  wellFormed (snd (adjustConsumption requestId actualTokens now th)).
Proof.
  intro Hwf. destruct (Qlt_le_dec actualTokens 0) as [Hn|Hp].
  - now rewrite adjustConsumption_negative.
  - destruct (Array_find (hasRequestId requestId) (consumptionHistory th))
      as [[i x] |] eqn:Ef.
    + apply Array_find_some in Ef.
      destruct Ef as (l1 & l2 & Hh & _ & Hx & Hl1).
      rewrite (@adjustConsumption_eq requestId actualTokens now th l1 x l2)
        by assumption.
      pose proof Hwf as (H1 & H2 & H3).
      pose proof (TokenBucketFacts.refill_consistent now H2) as H2'.
      destruct (Qlt_bool 0 _) eqn:E0.
      * destruct (Qle_bool _ _) eqn:E1.
        -- qprop. cbn [snd]. unfold wellFormed; cbn.
           split; [exact H1 |]. split; [| exact H3].
           apply debit_consistent; auto; lra.
        -- destruct (adjustmentFailureStrategy th); cbn [snd];
             unfold wellFormed; cbn; tauto.
      * destruct (Qlt_bool _ 0) eqn:E1; cbn [snd];
          unfold wellFormed; cbn; [| tauto].
        split; [exact H1 |]. split; [| exact H3].
        qprop. apply TokenBucketFacts.persistState_consistent.
        destruct H2 as (A0 & A1 & A2 & A3).
        unfold TokenBucket.consistent; cbn. repeat split; auto.
        -- apply min_glb; lra.
        -- apply min_le_l.
    + apply Array_find_none in Ef. now rewrite adjustConsumption_unknown.
Qed.

Lemma step_wellFormed now (c : Call TMetadata) (th : engine) :
  wellFormed th -> wellFormed (step now c th).
Proof.
  intro Hwf. destruct c; cbn [step].
  - now apply canProcess_wellFormed.
  - now apply consume_wellFormed.
  - now apply adjustConsumption_wellFormed.
  - apply cleanupHistory_wellFormed with (now := now) in Hwf.
    destruct Hwf as (H1 & H2 & H3).
    unfold wellFormed, getMetrics; cbn.
    auto using TokenBucketFacts.refill_consistent.
  - now apply cleanupHistory_wellFormed.
  - destruct Hwf as (H1 & H2 & H3). unfold wellFormed, reset; cbn.
    auto using TokenBucketFacts.reset_consistent.
  - unfold setHistoryRetention. destruct (Qle_bool ms 0) eqn:E; cbn [snd];
      [exact Hwf |].
    qprop. unfold wellFormed in *; cbn. tauto.
  - unfold setMaxHistoryRecords. destruct (count <=? 0)%Z eqn:E; cbn [snd];
      [exact Hwf |].
    apply Z.leb_gt in E. apply cleanupHistory_wellFormed.
    unfold wellFormed in *; cbn. tauto.
  - destruct Hwf as (H1 & H2 & H3). unfold wellFormed, createSnapshot; cbn.
    auto using TokenBucketFacts.refill_consistent.
  - destruct Hwf as (H1 & H2 & H3).
    pose proof (TokenBucketFacts.restoreState_consistent
                  (StateSnapshot.rpmBucketState snapshot) H1) as R1.
    pose proof (TokenBucketFacts.restoreState_consistent
                  (StateSnapshot.tpmBucketState snapshot) H2) as R2.
    unfold restoreFromSnapshot.
    destruct (TokenBucket.restoreState (StateSnapshot.rpmBucketState snapshot)
                (rpmBucket th)) as [[u | e] b1]; cbn [snd] in *;
      [| unfold wellFormed; cbn; tauto].
    cbn [tpmBucket set_rpmBucket].
    destruct (TokenBucket.restoreState (StateSnapshot.tpmBucketState snapshot)
                (tpmBucket th)) as [[u' | e] b2]; cbn [snd] in *;
      unfold wellFormed; cbn; tauto.
Qed.

(** Every engine that the constructor builds is well formed, and stays
    so under every sequence of calls. *)
Lemma run_wellFormed (calls : list (Q * Call TMetadata)) :
  forall th : engine, wellFormed th -> wellFormed (run calls th).
Proof.
  induction calls as [| [now c] rest IH]; intros th Hwf; simpl; auto.
  apply IH, step_wellFormed, Hwf.
Qed.

(** The ledger after an admitted [consume]. *)
Lemma admitted_history requestId estimatedTokens metadata now (th : engine) :
  wellFormed th ->
  consumptionHistory
    (cleanupHistory now (admitted now requestId estimatedTokens metadata th))
  = newest (maxHistoryRecords th - 1) (retained now th)
    ++ [recordOf now requestId estimatedTokens metadata (compensationDebt th)].
Proof.
  intros (_ & _ & Hret & Hmax & _).
  rewrite cleanupHistory_history by exact Hmax.
  rewrite (@retained_snoc' now th _
             (recordOf now requestId estimatedTokens metadata
                (compensationDebt th)) Hret) by reflexivity.
  now apply newest_snoc.
Qed.

(** A [consume] that [canProcess] allows. *)
Lemma consume_when_allowed requestId estimatedTokens metadata now
  (th th1 : engine) (check : RateLimitCheckResult.t) :
  requestIdIsEmpty requestId = false ->
  canProcess (estimatedTokens + compensationDebt th) now th = (Ok check, th1) ->
  RateLimitCheckResult.allowed check = true ->
  consume requestId estimatedTokens metadata now th
  = (Ok true,
     cleanupHistory now (admitted now requestId estimatedTokens metadata th)).
Proof.
  intros Hid Hcan Hallowed.
  destruct (Qlt_le_dec (estimatedTokens + compensationDebt th) 0) as [Hn|Hp].
  - rewrite canProcess_negative in Hcan by assumption. discriminate.
  - rewrite canProcess_eq in Hcan by assumption.
    rewrite consume_eq by assumption.
    injection Hcan as Hcheck _. subst check.
    destruct (Qle_bool 1 _); [| discriminate].
    destruct (Qle_bool (estimatedTokens + compensationDebt th) _);
      [reflexivity | discriminate].
Qed.

(** The calls that fail before anything is changed. *)
Lemma failing_calls_change_nothing requestId amount metadata now (th : engine) :
  (requestIdIsEmpty requestId = true ->
   consume requestId amount metadata now th = (Throw Error_requestIdEmpty, th))
  /\ (requestIdIsEmpty requestId = false ->
      amount + compensationDebt th < 0 ->
      consume requestId amount metadata now th
      = (Throw Error_estimatedNegative, th))
  /\ (amount < 0 ->
      canProcess amount now th = (Throw Error_estimatedNegative, th))
  /\ (amount < 0 ->
      adjustConsumption requestId amount now th
      = (Throw Error_actualNegative, th))
  /\ (0 <= amount ->
      Forall (fun y => hasRequestId requestId y = false)
             (consumptionHistory th) ->
      adjustConsumption requestId amount now th
      = (Throw (Error_requestIdNotFound requestId), th))
  /\ kind_of Error_requestIdEmpty = InvalidArgument
  /\ kind_of Error_estimatedNegative = InvalidArgument
  /\ kind_of Error_actualNegative = InvalidArgument
  /\ kind_of (Error_requestIdNotFound requestId) = NotFound.
Proof.
  split; [apply consume_empty_id |].
  split; [apply consume_negative_total |].
  split; [apply canProcess_negative |].
  split; [apply adjustConsumption_negative |].
  split; [apply adjustConsumption_unknown |].
  repeat split.
Qed.

(** *** Records carry their estimate *)

Lemma Forall_skipn (A : Type) (P : A -> Prop) (n : nat) (l : list A) :
  Forall P l -> Forall P (skipn n l).
Proof.
  intro H. rewrite <- (firstn_skipn n l) in H.
  now apply Forall_app in H.
Qed.

Lemma Forall_filter (A : Type) (P : A -> Prop) (f : A -> bool) (l : list A) :
  Forall P l -> Forall P (filter f l).
Proof.
  rewrite !Forall_forall. intros H x Hx. apply H.
  now apply (incl_filter f l).
Qed.

Lemma cleanupHistory_allEstimated now (th : engine) :
  wellFormed th -> allEstimated th -> allEstimated (cleanupHistory now th).
Proof.
  intros (_ & _ & _ & Hmax & _) H. unfold allEstimated.
  rewrite cleanupHistory_history by exact Hmax.
  apply newest_Forall. unfold retained. now apply Forall_filter.
Qed.

(** The ledger after [adjustConsumption]: as before, or with the first
    record that has the request id reconciled. *)
Lemma adjustConsumption_history requestId actualTokens now (th : engine) :
  consumptionHistory (snd (adjustConsumption requestId actualTokens now th))
  = consumptionHistory th
  \/ exists l1 x l2,
       consumptionHistory th = l1 ++ x :: l2
       /\ consumptionHistory
            (snd (adjustConsumption requestId actualTokens now th))
          = l1 ++ reconcile actualTokens x :: l2.
Proof.
  destruct (Qlt_le_dec actualTokens 0) as [Hn|Hp].
  - left. now rewrite adjustConsumption_negative.
  - destruct (Array_find (hasRequestId requestId) (consumptionHistory th))
      as [[i x] |] eqn:Ef.
    + apply Array_find_some in Ef.
      destruct Ef as (l1 & l2 & Hh & _ & Hx & Hl1).
      rewrite (@adjustConsumption_eq requestId actualTokens now th l1 x l2)
        by assumption.
      destruct (Qlt_bool 0 _);
        [destruct (Qle_bool _ _);
         [| destruct (adjustmentFailureStrategy th)] |
         destruct (Qlt_bool _ 0)];
        cbn [snd consumptionHistory set_consumptionHistory set_tpmBucket];
        (right; exists l1, x, l2; split; [exact Hh | reflexivity])
        || (left; reflexivity).
    + left. apply Array_find_none in Ef.
      now rewrite adjustConsumption_unknown.
Qed.

Lemma step_allEstimated now (c : Call TMetadata) (th : engine) :
  wellFormed th -> allEstimated th -> allEstimated (step now c th).
Proof.
  intros Hwf H. destruct c; cbn [step].
  - destruct (Qlt_le_dec estimatedTokens 0) as [Hn|Hp].
    + now rewrite canProcess_negative.
    + now rewrite canProcess_eq.
  - destruct (requestIdIsEmpty requestId) eqn:Hid;
      [now rewrite consume_empty_id |].
    destruct (Qlt_le_dec (estimatedTokens + compensationDebt th) 0) as [Hn|Hp];
      [now rewrite consume_negative_total |].
    rewrite consume_eq by assumption.
    destruct (_ && _); cbn [snd]; [| exact H].
    unfold allEstimated. rewrite admitted_history by exact Hwf.
    apply Forall_app. split.
    + apply newest_Forall. unfold retained. now apply Forall_filter.
    + constructor; [discriminate | constructor].
  - unfold allEstimated in *.
    destruct (adjustConsumption_history requestId actualTokens now th)
      as [-> | (l1 & x & l2 & Hh & ->)]; [exact H |].
    rewrite Hh in H. apply Forall_app in H. destruct H as [H1 H2].
    inversion H2 as [| ? ? Hx Hl2]; subst.
    apply Forall_app. split; [exact H1 |]. now constructor.
  - now apply cleanupHistory_allEstimated.
  - now apply cleanupHistory_allEstimated.
  - constructor.
  - unfold setHistoryRetention. now destruct (Qle_bool ms 0).
  - unfold setMaxHistoryRecords. destruct (count <=? 0)%Z eqn:E; cbn [snd];
      [exact H |].
    apply Z.leb_gt in E. apply cleanupHistory_allEstimated; [| exact H].
    unfold wellFormed in *; cbn. tauto.
  - exact H.
  - unfold restoreFromSnapshot.
    destruct (TokenBucket.restoreState _ (rpmBucket th)) as [[u | e] b1];
      cbn [snd]; [| exact H].
    cbn [tpmBucket set_rpmBucket].
    destruct (TokenBucket.restoreState _ (tpmBucket th)) as [[u' | e] b2];
      cbn [snd]; [constructor | exact H].
Qed.

(** In every engine built by the constructor, after every sequence of
    calls, the records of the ledger carry their estimate. *)
Lemma run_allEstimated (calls : list (Q * Call TMetadata)) :
  forall th : engine,
    wellFormed th -> allEstimated th -> allEstimated (run calls th).
Proof.
  induction calls as [| [now c] rest IH]; intros th Hwf H; simpl; auto.
  apply IH; [now apply step_wellFormed | now apply step_allEstimated].
Qed.

Lemma new_allEstimated (config : LLMThrottleConfig.t) (now : Q) (th : engine) :
  LLMThrottle.new TMetadata config now = Ok th -> allEstimated th.
Proof.
  unfold LLMThrottle.new.
  destruct (Validation.errors config); [| discriminate].
  destruct (TokenBucket.new _ _ now); [| discriminate].
  destruct (TokenBucket.new _ _ now); [| discriminate].
  intro H; injection H as <-. constructor.
Qed.

(** With the estimate present, a record is reconciled exactly when its
    [actualTokens] is set. *)
Lemma filter_bothDefined_hasActual (l : list (ConsumptionRecord.t TMetadata)) :
  Forall (fun r => ConsumptionRecord.estimatedTokens r <> None) l ->
  filter (@bothDefined TMetadata) l = filter (@hasActual TMetadata) l.
Proof.
  intro H. apply filter_ext_in. rewrite Forall_forall in H.
  intros r Hr. specialize (H r Hr). unfold bothDefined, hasActual.
  destruct (ConsumptionRecord.estimatedTokens r); [reflexivity | congruence].
Qed.

Lemma filter_bothDefined_nil (l : list (ConsumptionRecord.t TMetadata)) :
  Forall (fun r => ConsumptionRecord.actualTokens r = None) l ->
  filter (@bothDefined TMetadata) l = [].
Proof.
  induction 1 as [| r l Hr _ IH]; simpl; [reflexivity |].
  unfold bothDefined at 1. rewrite Hr.
  destruct (ConsumptionRecord.estimatedTokens r); exact IH.
Qed.

End Facts.

End LLMThrottleFacts.

(** ** Claims about the engine *)

Import LLMThrottle EngineNotions.

(** C3.  For an estimate that is not negative, [canProcess] looks at the
    rate bucket first: when it holds less than one token the answer is
    not allowed, [rpm_limit], with the rate bucket's
    [timeUntilNextToken], whatever the volume bucket holds; otherwise,
    when the volume bucket holds less than the estimate, the answer is
    not allowed, [tpm_limit], with [timeUntilTokens(estimate)]; otherwise
    the answer is allowed.  Every answer reports what both buckets hold.
    With 60 requests and 1000 tokens per minute, [canProcess(1500)] is
    not allowed for [tpm_limit], with a positive waiting time. *)
Theorem canProcess_rate_before_volume :
  forall (TMetadata : Type) (th : LLMThrottle.t TMetadata)
         (now estimate : Q),
    0 <= estimate ->
    let rpmAvailable := fst (TokenBucket.available now (rpmBucket th)) in
    let tpmAvailable := fst (TokenBucket.available now (tpmBucket th)) in
    (exists check,
        canProcess estimate now th = (Ok check, refillBuckets now th)
        /\ RateLimitCheckResult.availableTokens check
           = Some (AvailableTokens.mk rpmAvailable tpmAvailable)
        /\ (rpmAvailable < 1 ->
            RateLimitCheckResult.allowed check = false
            /\ RateLimitCheckResult.reason check = Some rpm_limit
            /\ RateLimitCheckResult.availableIn check
               = Some (fst (TokenBucket.timeUntilNextToken now (rpmBucket th))))
        /\ (1 <= rpmAvailable -> tpmAvailable < estimate ->
            RateLimitCheckResult.allowed check = false
            /\ RateLimitCheckResult.reason check = Some tpm_limit
            /\ RateLimitCheckResult.availableIn check
               = Some (fst (TokenBucket.timeUntilTokens estimate now
                              (tpmBucket th))))
        /\ (1 <= rpmAvailable -> estimate <= tpmAvailable ->
            RateLimitCheckResult.allowed check = true
            /\ RateLimitCheckResult.reason check = None
            /\ RateLimitCheckResult.availableIn check = None))
    /\ (exists th0 check th1 ms,
          LLMThrottle.new TMetadata config_60_1000 1000 = Ok th0
          /\ canProcess 1500 1000 th0 = (Ok check, th1)
          /\ RateLimitCheckResult.allowed check = false
          /\ RateLimitCheckResult.reason check = Some tpm_limit
          /\ RateLimitCheckResult.availableIn check = Some ms
          /\ 0 < ms).
Proof.
  intros TMetadata th now estimate Hpos rpmAvailable tpmAvailable. split.
  - rewrite LLMThrottleFacts.canProcess_eq by assumption.
    fold rpmAvailable tpmAvailable.
    destruct (Qle_bool 1 rpmAvailable) eqn:E1;
      [destruct (Qle_bool estimate tpmAvailable) eqn:E2 |];
      eexists; (split; [reflexivity |]); qprop;
      repeat split; intros; try reflexivity; lra.
  - do 4 eexists. repeat split; try reflexivity.
Qed.

Lemma canProcess_rate_before_volume_witness :
  exists check,
    canProcess 10 0
      (LLMThrottle.mk (TokenBucket.mk 60 (1 # 2) 1 0 false)
                      (TokenBucket.mk 1000 0 (50 # 3) 0 false)
                      (@nil (ConsumptionRecord.t unit)) 0 60000 10000 50 warn
                      false [])
    = (Ok check,
       LLMThrottle.mk (TokenBucket.mk 60 (1 # 2) 1 0 false)
                      (TokenBucket.mk 1000 0 (50 # 3) 0 false)
                      (@nil (ConsumptionRecord.t unit)) 0 60000 10000 50 warn
                      false [])
    /\ RateLimitCheckResult.reason check = Some rpm_limit.
Proof.
  destruct (@canProcess_rate_before_volume unit
              (LLMThrottle.mk (TokenBucket.mk 60 (1 # 2) 1 0 false)
                              (TokenBucket.mk 1000 0 (50 # 3) 0 false)
                              (@nil (ConsumptionRecord.t unit)) 0 60000 10000
                              50 warn false [])
              0 10)
    as [(check & Heq & _ & Hrpm & _) _].
  - lra.
  - exists check. split; [exact Heq |].
    apply Hrpm. simpl. lra.
Defined.

(** What [consume] leaves when it refuses: an engine on which the same
    call, at the same clock value, is refused again and changes nothing. *)
Lemma consume_refused_again (TMetadata : Type)
  (th : LLMThrottle.t TMetadata) (now : Q) (requestId : JSString.t)
  (estimate : Q) (metadata : option TMetadata) :
  requestIdIsEmpty requestId = false ->
  0 <= estimate + compensationDebt th ->
  Qle_bool 1 (fst (TokenBucket.available now (rpmBucket th)))
  && Qle_bool (estimate + compensationDebt th)
       (fst (TokenBucket.available now (tpmBucket th))) = false ->
  consume requestId estimate metadata now (refillBuckets now th)
  = (Ok false, refillBuckets now th).
Proof.
  intros Hid Hpos Hcond.
  rewrite LLMThrottleFacts.consume_eq by assumption.
  unfold refillBuckets at 1 2 3.
  cbn [rpmBucket tpmBucket compensationDebt set_rpmBucket set_tpmBucket].
  rewrite !BucketCalls.available_after_refill. cbn [fst].
  cbn [fst TokenBucket.available] in Hcond. rewrite Hcond.
  unfold refillBuckets.
  cbn [rpmBucket tpmBucket set_rpmBucket set_tpmBucket].
  now rewrite !TokenBucketFacts.refill_idempotent.
Qed.

(** C1.  For a request id that is not empty (nor blank), [consume]
    computes [needed = estimate + compensationDebt] and runs
    [canProcess(needed)].  When the answer is not allowed it returns
    [false]: the debt, the ledger and the logger are as before and
    nothing is debited; the buckets have only been brought up to date
    by the reads of [canProcess], so that they read at that clock value
    what they read before, and the same call made again at that clock
    value is refused again and changes nothing.  When the answer is
    allowed it returns [true], the rate bucket holds 1 token less and
    the volume bucket [needed] tokens less than they read, the debt is
    0, and the ledger ends with a record whose [tokens] and
    [estimatedTokens] are the estimate and whose [compensationDebt] is
    the debt that was paid. *)
Theorem consume_admits_estimate_plus_debt :
  forall (TMetadata : Type) (th : LLMThrottle.t TMetadata) (now : Q)
         (requestId : JSString.t) (estimate : Q)
         (metadata : option TMetadata),
    wellFormed th ->
    requestIdIsEmpty requestId = false ->
    let needed := estimate + compensationDebt th in
    let record := recordOf now requestId estimate metadata (compensationDebt th) in
    match canProcess needed now th with
    | (Throw e, th1) =>
        consume requestId estimate metadata now th = (Throw e, th1)
    | (Ok check, th1) =>
        if RateLimitCheckResult.allowed check then
          exists th',
            consume requestId estimate metadata now th = (Ok true, th')
            /\ TokenBucket._available (rpmBucket th')
               = fst (TokenBucket.available now (rpmBucket th)) - 1
            /\ TokenBucket._available (tpmBucket th')
               = fst (TokenBucket.available now (tpmBucket th)) - needed
            /\ compensationDebt th' = 0
            /\ consumptionHistory th'
               = newest (maxHistoryRecords th - 1) (retained now th) ++ [record]
            /\ ConsumptionRecord.tokens record = estimate
            /\ ConsumptionRecord.estimatedTokens record = Some estimate
            /\ ConsumptionRecord.compensationDebt record
               = Some (compensationDebt th)
            /\ ConsumptionRecord.actualTokens record = None
        else
          consume requestId estimate metadata now th = (Ok false, th1)
          /\ th1 = refillBuckets now th
          /\ compensationDebt th1 = compensationDebt th
          /\ consumptionHistory th1 = consumptionHistory th
          /\ logger th1 = logger th
          /\ TokenBucket.available now (rpmBucket th1)
             = (fst (TokenBucket.available now (rpmBucket th)), rpmBucket th1)
          /\ TokenBucket.available now (tpmBucket th1)
             = (fst (TokenBucket.available now (tpmBucket th)), tpmBucket th1)
          /\ consume requestId estimate metadata now th1 = (Ok false, th1)
    end.
Proof.
  intros TMetadata th now requestId estimate metadata Hwf Hid needed record.
  destruct (Qlt_le_dec needed 0) as [Hneg | Hpos].
  - rewrite LLMThrottleFacts.canProcess_negative by assumption.
    now apply LLMThrottleFacts.consume_negative_total.
  - rewrite LLMThrottleFacts.canProcess_eq by assumption.
    rewrite LLMThrottleFacts.consume_eq by assumption. fold needed.
    pose proof (@consume_refused_again _ th now requestId estimate metadata
                  Hid Hpos) as Hagain.
    fold needed in Hagain.
    destruct (Qle_bool 1 (fst (TokenBucket.available now (rpmBucket th))));
      [destruct (Qle_bool needed
                   (fst (TokenBucket.available now (tpmBucket th)))) |];
      cbn [andb RateLimitCheckResult.allowed] in *.
    + eexists. split; [reflexivity |].
      destruct (LLMThrottleFacts.cleanupHistory_frame now
                  (admitted now requestId estimate metadata th))
        as (-> & -> & -> & _).
      split; [reflexivity |]. split; [reflexivity |].
      split; [reflexivity |]. split; [| repeat split].
      now apply LLMThrottleFacts.admitted_history.
    + do 5 (split; [reflexivity |]).
      split; [apply BucketCalls.available_after_refill |].
      split; [apply BucketCalls.available_after_refill |].
      now apply Hagain.
    + do 5 (split; [reflexivity |]).
      split; [apply BucketCalls.available_after_refill |].
      split; [apply BucketCalls.available_after_refill |].
      now apply Hagain.
Qed.

Lemma throttle_60_1000_new :
  LLMThrottle.new unit config_60_1000 1000 = Ok throttle_60_1000.
Proof. reflexivity. Qed.

Lemma throttle_10_100_new (strategy : AdjustmentFailureStrategy) :
  LLMThrottle.new unit (config_10_100 strategy) 0
  = Ok (throttle_10_100 strategy).
Proof. reflexivity. Qed.

Lemma throttle_max_10_new :
  LLMThrottle.new unit config_max_10 0 = Ok throttle_max_10.
Proof. reflexivity. Qed.

Lemma throttle_60_1000_wellFormed : wellFormed throttle_60_1000.
Proof.
  unfold wellFormed, TokenBucket.consistent; simpl.
  repeat split; try lra; try lia; reflexivity.
Qed.

Lemma throttle_after_request_1_wellFormed :
  wellFormed throttle_after_request_1.
Proof.
  apply LLMThrottleFacts.consume_wellFormed, throttle_60_1000_wellFormed.
Qed.

Lemma consume_admits_estimate_plus_debt_witness :
  exists th',
    consume (JSString.ofAscii "request-1") 500 None 1000 throttle_60_1000 = (Ok true, th')
    /\ TokenBucket._available (rpmBucket th') == 59
    /\ TokenBucket._available (tpmBucket th') == 500
    /\ compensationDebt th' = 0
    /\ consumptionHistory th' = [recordOf 1000 (JSString.ofAscii "request-1") 500 None 0].
Proof.
  pose proof (@consume_admits_estimate_plus_debt unit throttle_60_1000 1000
                (JSString.ofAscii "request-1") 500 None throttle_60_1000_wellFormed eq_refl) as H.
  cbv zeta in H.
  rewrite LLMThrottleFacts.canProcess_eq in H by (simpl; lra).
  change (Qle_bool 1
            (fst (TokenBucket.available 1000 (rpmBucket throttle_60_1000))))
    with true in H.
  change (Qle_bool (500 + compensationDebt throttle_60_1000)
            (fst (TokenBucket.available 1000 (tpmBucket throttle_60_1000))))
    with true in H.
  cbn [RateLimitCheckResult.allowed] in H.
  destruct H as (th' & Hc & Hr & Ht & Hd & Hh & _).
  exists th'. split; [exact Hc |]. split; [| split; [| split]].
  - rewrite Hr. reflexivity.
  - rewrite Ht. reflexivity.
  - exact Hd.
  - rewrite Hh. reflexivity.
Defined.

(** C2.  [adjustConsumption(requestId, actual)] with [actual >= 0] and a
    request id that the ledger holds works on the first record with that
    id and on [delta = actual - record.tokens].  For [delta > 0] it calls
    the volume bucket's [consume(delta)]: when the bucket covers it, the
    bucket holds [delta] less; when it does not, [compensate] adds
    [delta] to the debt and goes on, [warn] tells the logger and goes on,
    [strict] throws and the ledger is as before.  For [delta < 0] it
    refunds [- delta] to the volume bucket.  Whenever it does not throw,
    the record's [tokens] and [actualTokens] are [actual]. *)
Theorem adjustConsumption_reconciles_record :
  forall (TMetadata : Type) (th : LLMThrottle.t TMetadata) (now : Q)
         (requestId : JSString.t) (actual : Q) (r : ConsumptionRecord.t TMetadata),
    0 <= actual ->
    In r (consumptionHistory th) ->
    ConsumptionRecord.requestId r = requestId ->
    exists l1 record l2,
      consumptionHistory th = l1 ++ record :: l2
      /\ Forall (fun y => hasRequestId requestId y = false) l1
      /\ ConsumptionRecord.requestId record = requestId
      /\ ConsumptionRecord.tokens (reconcile actual record) = actual
      /\ ConsumptionRecord.actualTokens (reconcile actual record) = Some actual
      /\ let delta := actual - ConsumptionRecord.tokens record in
         let updated := l1 ++ reconcile actual record :: l2 in
         let tpmAvailable := fst (TokenBucket.available now (tpmBucket th)) in
         (0 < delta -> delta <= tpmAvailable ->
          exists th',
            adjustConsumption requestId actual now th = (Ok tt, th')
            /\ TokenBucket.consume delta now (tpmBucket th)
               = (Ok true, tpmBucket th')
            /\ TokenBucket._available (tpmBucket th') = tpmAvailable - delta
            /\ compensationDebt th' = compensationDebt th
            /\ logger th' = logger th
            /\ consumptionHistory th' = updated)
         /\ (0 < delta -> tpmAvailable < delta ->
             TokenBucket.consume delta now (tpmBucket th)
             = (Ok false, TokenBucket.refill now (tpmBucket th))
             /\ match adjustmentFailureStrategy th with
                | compensate =>
                    exists th',
                      adjustConsumption requestId actual now th = (Ok tt, th')
                      /\ compensationDebt th' = compensationDebt th + delta
                      /\ tpmBucket th' = TokenBucket.refill now (tpmBucket th)
                      /\ logger th'
                         = logger th
                           ++ [(level_info,
                                log_addingDebt delta
                                  (compensationDebt th + delta))]
                      /\ consumptionHistory th' = updated
                | warn =>
                    exists th',
                      adjustConsumption requestId actual now th = (Ok tt, th')
                      /\ compensationDebt th' = compensationDebt th
                      /\ tpmBucket th' = TokenBucket.refill now (tpmBucket th)
                      /\ logger th'
                         = logger th
                           ++ [(level_warn,
                                log_failedToConsume delta requestId)]
                      /\ consumptionHistory th' = updated
                | strict =>
                    exists th',
                      adjustConsumption requestId actual now th
                      = (Throw (RateLimitError delta requestId tpm_limit
                                  (fst (TokenBucket.timeUntilTokens delta now
                                          (tpmBucket th)))),
                         th')
                      /\ consumptionHistory th' = consumptionHistory th
                end)
         /\ (delta < 0 ->
             exists th',
               adjustConsumption requestId actual now th = (Ok tt, th')
               /\ TokenBucket.refund (- delta) now (tpmBucket th)
                  = (Ok tt, tpmBucket th')
               /\ (TokenBucket._storage (tpmBucket th) = false ->
                   TokenBucket._available (tpmBucket th')
                   = Math.min (TokenBucket._capacity (tpmBucket th))
                       (TokenBucket._available (tpmBucket th) + - delta))
               /\ compensationDebt th' = compensationDebt th
               /\ logger th' = logger th
               /\ consumptionHistory th' = updated)
         /\ (delta == 0 ->
             adjustConsumption requestId actual now th
             = (Ok tt, set_consumptionHistory updated th)).
Proof.
  intros TMetadata th now requestId actual r Hpos Hin Hid.
  destruct (LLMThrottleFacts.first_with_requestId _ _ Hin Hid)
    as (l1 & x & l2 & Hh & Hl1 & Hx).
  exists l1, x, l2.
  split; [exact Hh |]. split; [exact Hl1 |].
  split; [now apply JSStringFacts.eqb_eq in Hx |].
  split; [reflexivity |]. split; [reflexivity |].
  intros delta updated tpmAvailable.
  pose proof (@LLMThrottleFacts.adjustConsumption_eq _ requestId actual now
                th l1 x l2 Hpos Hh Hl1 Hx) as Heq.
  cbv zeta in Heq. fold delta updated in Heq.
  change (TokenBucket._available (TokenBucket.refill now (tpmBucket th)))
    with tpmAvailable in Heq.
  split; [| split; [| split]].
  - intros H0 H1.
    assert (E0 : Qlt_bool 0 delta = true) by now qlt_true.
    assert (E1 : Qle_bool delta tpmAvailable = true) by now qle_true.
    rewrite E0, E1 in Heq. eexists. split; [exact Heq |].
    split; [| repeat split].
    cbn [tpmBucket set_tpmBucket set_consumptionHistory].
    apply BucketCalls.consume_covered; [lra | exact H1].
  - intros H0 H1.
    assert (E0 : Qlt_bool 0 delta = true) by now qlt_true.
    assert (E1 : Qle_bool delta tpmAvailable = false) by now qle_false.
    rewrite E0, E1 in Heq.
    split; [apply BucketCalls.consume_short; [lra | exact H1] |].
    destruct (adjustmentFailureStrategy th); eexists;
      (split; [exact Heq |]); repeat split.
  - intros H0.
    assert (E0 : Qlt_bool 0 delta = false) by (qlt_false; lra).
    assert (E1 : Qlt_bool delta 0 = true) by now qlt_true.
    rewrite E0, E1 in Heq. eexists. split; [exact Heq |].
    cbn [tpmBucket set_tpmBucket set_consumptionHistory compensationDebt
         logger consumptionHistory].
    split; [| split; [| repeat split]].
    + unfold TokenBucket.refund.
      assert (E3 : Qlt_bool (- delta) 0 = false) by (qlt_false; lra).
      now rewrite E3.
    + intro Hs. unfold TokenBucket.persistState. cbn. now rewrite Hs.
  - intros H0.
    assert (E0 : Qlt_bool 0 delta = false) by (qlt_false; lra).
    assert (E1 : Qlt_bool delta 0 = false) by (qlt_false; lra).
    now rewrite E0, E1 in Heq.
Qed.

Lemma adjustConsumption_reconciles_record_witness :
  exists l1 record l2,
    consumptionHistory throttle_after_request_1 = l1 ++ record :: l2
    /\ ConsumptionRecord.requestId record = JSString.ofAscii "request-1"
    /\ ConsumptionRecord.tokens (reconcile 300 record) = 300.
Proof.
  destruct (@adjustConsumption_reconciles_record unit
              throttle_after_request_1 1000 (JSString.ofAscii "request-1") 300
              (recordOf 1000 (JSString.ofAscii "request-1") 500 None 0))
    as (l1 & record & l2 & Hh & _ & Hid & Ht & _).
  - lra.
  - left. reflexivity.
  - reflexivity.
  - exists l1, record, l2. repeat split; assumption.
Defined.

(** A blank request id is an empty one for [consume]: spaces, the empty
    string, a no-break space, and a mix of TAB, U+2028, U+FEFF, U+3000 and
    SPACE. *)
Example blank_requestId_is_rejected :
  consume (JSString.ofAscii "   ") 100 None 1000 throttle_60_1000
  = (Throw Error_requestIdEmpty, throttle_60_1000)
  /\ consume [] 100 None 1000 throttle_60_1000
     = (Throw Error_requestIdEmpty, throttle_60_1000)
  /\ consume [160%N] 100 None 1000 throttle_60_1000
     = (Throw Error_requestIdEmpty, throttle_60_1000)
  /\ consume [9%N; 8232%N; 65279%N; 12288%N; 32%N] 100 None 1000
        throttle_60_1000
     = (Throw Error_requestIdEmpty, throttle_60_1000).
Proof. split; [| split; [| split]]; reflexivity. Qed.

(** The refund of the specification: 500 of 1000 tokens consumed, then
    reconciled to 300; the volume in use goes from 500 to 300 and the
    record holds 300. *)
Example reconciliation_refund :
  exists th' r,
    adjustConsumption (JSString.ofAscii "request-1") 300 1000 throttle_after_request_1
    = (Ok tt, th')
    /\ TokenBucket.capacity (tpmBucket throttle_after_request_1)
       - fst (TokenBucket.available 1000 (tpmBucket throttle_after_request_1))
       == 500
    /\ TokenBucket.capacity (tpmBucket th')
       - fst (TokenBucket.available 1000 (tpmBucket th')) == 300
    /\ consumptionHistory th' = [r]
    /\ ConsumptionRecord.tokens r = 300
    /\ ConsumptionRecord.actualTokens r = Some 300
    /\ ConsumptionRecord.estimatedTokens r = Some 500.
Proof. do 2 eexists. repeat split; reflexivity. Qed.

(** The shortfall of the specification under [compensate]: the volume
    bucket is exhausted by 100 tokens, the reconciliation to 150 leaves a
    debt of 50, and a following [consume] of 50 tokens is refused. *)
Example reconciliation_shortfall_compensate :
  compensationDebt (throttle_short compensate) == 50
  /\ fst (consume (JSString.ofAscii "test-2") 50 None 0 (throttle_short compensate)) = Ok false.
Proof. split; reflexivity. Qed.

(** C10.  Request ids are not checked for uniqueness.  When the ledger
    already holds a record with the id [r], a [consume(r, estimate)]
    that [canProcess] allows returns [true] and pushes one more record
    with the id [r].  [adjustConsumption(r, actual)] then rewrites the
    first record with the id [r] in ledger order, setting its [tokens]
    and its [actualTokens] to [actual] and keeping its other fields, and
    no other record. *)
Theorem duplicate_requestId_is_accepted_and_first_record_adjusted :
  forall (TMetadata : Type) (th : LLMThrottle.t TMetadata) (now : Q)
         (r : JSString.t) (estimate : Q) (metadata : option TMetadata)
         (existing : ConsumptionRecord.t TMetadata)
         (check : RateLimitCheckResult.t) (th1 : LLMThrottle.t TMetadata)
         (th2 : LLMThrottle.t TMetadata) (now2 actual : Q)
         (l1 : list (ConsumptionRecord.t TMetadata))
         (x : ConsumptionRecord.t TMetadata)
         (l2 : list (ConsumptionRecord.t TMetadata)),
    wellFormed th ->
    In existing (consumptionHistory th) ->
    ConsumptionRecord.requestId existing = r ->
    requestIdIsEmpty r = false ->
    canProcess (estimate + compensationDebt th) now th = (Ok check, th1) ->
    RateLimitCheckResult.allowed check = true ->
    consumptionHistory th2 = l1 ++ x :: l2 ->
    Forall (fun y => ConsumptionRecord.requestId y <> r) l1 ->
    ConsumptionRecord.requestId x = r ->
    0 <= actual ->
    adjustmentFailureStrategy th2 <> strict
    \/ actual - ConsumptionRecord.tokens x
       <= fst (TokenBucket.available now2 (tpmBucket th2)) ->
    (exists th',
        consume r estimate metadata now th = (Ok true, th')
        /\ consumptionHistory th'
           = newest (maxHistoryRecords th - 1) (retained now th)
             ++ [recordOf now r estimate metadata (compensationDebt th)]
        /\ ConsumptionRecord.requestId
             (recordOf now r estimate metadata (compensationDebt th))
           = ConsumptionRecord.requestId existing
        /\ (In existing (newest (maxHistoryRecords th - 1) (retained now th)) ->
            In existing (consumptionHistory th')))
    /\ (exists th3,
          adjustConsumption r actual now2 th2 = (Ok tt, th3)
          /\ consumptionHistory th3
             = l1
               ++ ConsumptionRecord.mk
                    (ConsumptionRecord.timestamp x) actual r
                    (ConsumptionRecord.metadata x)
                    (ConsumptionRecord.estimatedTokens x) (Some actual)
                    (ConsumptionRecord.compensationDebt x)
               :: l2).
Proof.
  intros TMetadata th now r estimate metadata existing check th1 th2 now2
         actual l1 x l2 Hwf Hin Hid Hne Hcan Hallowed Hh Hl1 Hx Hpos Hok.
  split.
  - pose proof (LLMThrottleFacts.admitted_history r estimate metadata now Hwf)
      as Hhist.
    eexists.
    split; [exact (LLMThrottleFacts.consume_when_allowed r estimate metadata
                     now th Hne Hcan Hallowed) |].
    split; [exact Hhist |]. split; [now rewrite Hid |].
    intro Hkept. rewrite Hhist. apply in_or_app. now left.
  - assert (Hl1' : Forall (fun y => hasRequestId r y = false) l1).
    { apply Forall_impl with (2 := Hl1). intros y Hy.
      now apply JSStringFacts.eqb_neq. }
    assert (Hx' : hasRequestId r x = true) by now apply JSStringFacts.eqb_eq.
    pose proof (@LLMThrottleFacts.adjustConsumption_eq _ r actual now2 th2
                  l1 x l2 Hpos Hh Hl1' Hx') as Heq.
    cbv zeta in Heq.
    assert (Hrec : reconcile actual x
                   = ConsumptionRecord.mk
                       (ConsumptionRecord.timestamp x) actual r
                       (ConsumptionRecord.metadata x)
                       (ConsumptionRecord.estimatedTokens x) (Some actual)
                       (ConsumptionRecord.compensationDebt x))
      by (unfold reconcile; now rewrite Hx).
    rewrite <- Hrec.
    destruct (Qlt_bool 0 (actual - ConsumptionRecord.tokens x)) eqn:E0.
    + destruct (Qle_bool (actual - ConsumptionRecord.tokens x)
                  (TokenBucket._available
                     (TokenBucket.refill now2 (tpmBucket th2)))) eqn:E1.
      * eexists. split; [exact Heq | reflexivity].
      * destruct (adjustmentFailureStrategy th2) eqn:Es.
        -- exfalso. qprop. destruct Hok as [C | C]; [congruence |].
           cbn in C. lra.
        -- eexists. split; [exact Heq | reflexivity].
        -- eexists. split; [exact Heq | reflexivity].
    + destruct (Qlt_bool (actual - ConsumptionRecord.tokens x) 0);
        eexists; (split; [exact Heq | reflexivity]).
Qed.

Lemma duplicate_requestId_is_accepted_and_first_record_adjusted_witness :
  (exists th',
      consume (JSString.ofAscii "request-1") 200 None 1000 throttle_after_request_1
      = (Ok true, th')
      /\ consumptionHistory th'
         = [recordOf 1000 (JSString.ofAscii "request-1") 500 None 0;
            recordOf 1000 (JSString.ofAscii "request-1") 200 None 0])
  /\ (exists th3,
        adjustConsumption (JSString.ofAscii "request-1") 300 1000
          (snd (consume (JSString.ofAscii "request-1") 200 None 1000 throttle_after_request_1))
        = (Ok tt, th3)
        /\ consumptionHistory th3
           = [ConsumptionRecord.mk 1000 300 (JSString.ofAscii "request-1")
                None (Some 500) (Some 300) (Some 0);
              recordOf 1000 (JSString.ofAscii "request-1") 200 None 0]).
Proof.
  destruct (@duplicate_requestId_is_accepted_and_first_record_adjusted unit
              throttle_after_request_1 1000 (JSString.ofAscii "request-1") 200 None
              (recordOf 1000 (JSString.ofAscii "request-1") 500 None 0)
              (RateLimitCheckResult.mk true None None
                 (reportedAt 1000 throttle_after_request_1))
              (refillBuckets 1000 throttle_after_request_1)
              (snd (consume (JSString.ofAscii "request-1") 200 None 1000 throttle_after_request_1))
              1000 300 []
              (recordOf 1000 (JSString.ofAscii "request-1") 500 None 0)
              [recordOf 1000 (JSString.ofAscii "request-1") 200 None 0])
    as [(th' & Hc & Hh & _) (th3 & Ha & Hh3)].
  - exact throttle_after_request_1_wellFormed.
  - left. reflexivity.
  - reflexivity.
  - reflexivity.
  - reflexivity.
  - reflexivity.
  - reflexivity.
  - constructor.
  - reflexivity.
  - lra.
  - left. vm_compute. discriminate.
  - split.
    + exists th'. split; [exact Hc | exact Hh].
    + exists th3. split; [exact Ha | exact Hh3].
Defined.

(** C6, at a failing input.  Under [compensate], with a debt of 50 left
    by a reconciliation, [consume('test-2', -10)] made 30 s later does
    not throw: it returns [true], clears the debt, takes 40 tokens from
    the volume bucket and pushes a record of -10 tokens. *)
Theorem consume_negative_estimate_is_admitted :
  let th := throttle_short compensate in
  let th' := snd (consume (JSString.ofAscii "test-2") (-10) None 30000 th) in
  compensationDebt th == 50
  /\ fst (consume (JSString.ofAscii "test-2") (-10) None 30000 th) = Ok true
  /\ compensationDebt th' = 0
  /\ consumptionHistory th'
     = [reconcile 150 (recordOf 0 (JSString.ofAscii "test-1") 100 None 0);
        recordOf 30000 (JSString.ofAscii "test-2") (-10) None 50]
  /\ fst (TokenBucket.available 30000 (tpmBucket th)) == 50
  /\ fst (TokenBucket.available 30000 (tpmBucket th')) == 10.
Proof.
  cbv zeta. repeat split; vm_compute; reflexivity.
Qed.

(** C4, as the code has it.  [getMetrics] prunes the ledger and reports
    as efficiency, over the window of its newest [efficiencyWindowSize]
    records: 1 when the window is empty; 0.85 when the window is not
    empty and holds no record with both amounts (in particular none with
    [actualTokens]); otherwise the mean over the window's records with
    both amounts of what [calculateEfficiency] adds for each, which is
    [min(estimated, actual) / max(estimated, actual)] for amounts that
    are not negative and not both 0, and 1 when both are 0.  In a ledger
    whose records all carry their estimate, the records with both
    amounts are the records with [actualTokens]. *)
Theorem efficiency_is_windowed_mean_with_defaults :
  forall (TMetadata : Type) (th : LLMThrottle.t TMetadata) (now : Q),
    wellFormed th ->
    let th' := cleanupHistory now th in
    let efficiency := RateLimitMetrics.efficiency (fst (getMetrics now th)) in
    window th'
    = skipn (List.length (consumptionHistory th')
             - Z.to_nat (efficiencyWindowSize th))
            (consumptionHistory th')
    /\ (window th' = [] -> efficiency = 1)
    /\ (window th' <> [] ->
        Forall (fun r => ConsumptionRecord.actualTokens r = None) (window th') ->
        efficiency = 0.85)
    /\ (window th' <> [] -> reconciled th' = [] -> efficiency = 0.85)
    /\ (reconciled th' <> [] ->
        efficiency == mean (map (@recordAccuracy TMetadata) (reconciled th')))
    /\ (reconciled th' <> [] ->
        Forall (@measurable TMetadata) (reconciled th') ->
        efficiency == mean (map (@recordRatio TMetadata) (reconciled th')))
    /\ (forall estimated actual,
          estimated == 0 -> actual == 0 -> accuracyOf estimated actual = 1)
    /\ (allEstimated th ->
        reconciled th' = filter (@hasActual TMetadata) (window th')).
Proof.
  intros TMetadata th now Hwf th' efficiency.
  pose proof Hwf as (_ & _ & _ & _ & Hw).
  assert (Heff : efficiency = calculateEfficiency th') by reflexivity.
  destruct (LLMThrottleFacts.calculateEfficiency_cases th')
    as (Hempty & Hnone & Hmean).
  destruct (LLMThrottleFacts.cleanupHistory_frame now th)
    as (_ & _ & _ & _ & _ & Hsize & _).
  fold th' in Hsize.
  split; [| split; [| split; [| split; [| split; [| split; [| split]]]]]].
  - unfold window. rewrite Hsize. now apply Array_slice_last.
  - intro H. rewrite Heff. now apply Hempty.
  - intros Hne Hall. rewrite Heff. apply Hnone; [exact Hne |].
    now apply LLMThrottleFacts.filter_bothDefined_nil.
  - intros Hne Hnil. rewrite Heff. now apply Hnone.
  - intro Hne. rewrite Heff. now apply Hmean.
  - intros Hne Hall. rewrite Heff, Hmean by exact Hne.
    now apply LLMThrottleFacts.recordAccuracy_ratio.
  - apply LLMThrottleFacts.accuracyOf_zero.
  - intro Hest. unfold reconciled.
    apply LLMThrottleFacts.filter_bothDefined_hasActual.
    unfold window. rewrite Hsize, Array_slice_last by exact Hw.
    apply LLMThrottleFacts.Forall_skipn.
    now apply LLMThrottleFacts.cleanupHistory_allEstimated.
Qed.

Lemma efficiency_is_windowed_mean_with_defaults_witness :
  RateLimitMetrics.efficiency
    (fst (getMetrics 1000 throttle_after_request_1)) = 0.85.
Proof.
  refine (proj1 (proj2 (proj2
    (@efficiency_is_windowed_mean_with_defaults unit throttle_after_request_1
       1000 _))) _ _).
  - exact throttle_after_request_1_wellFormed.
  - vm_compute. discriminate.
  - vm_compute. repeat constructor.
Defined.

(** C4, counterexample.  A new engine has an empty ledger, so that its
    window holds no reconciled record; its efficiency is 1, not 0.85. *)
Lemma efficiency_of_empty_window_is_1 :
  window (snd (getMetrics 1000 throttle_60_1000)) = []
  /\ Forall (fun r => ConsumptionRecord.actualTokens r = None)
            (window (snd (getMetrics 1000 throttle_60_1000)))
  /\ RateLimitMetrics.efficiency (fst (getMetrics 1000 throttle_60_1000)) == 1
  /\ ~ RateLimitMetrics.efficiency (fst (getMetrics 1000 throttle_60_1000))
       == 0.85.
Proof.
  split; [reflexivity |]. split; [constructor |]. split; [reflexivity |].
  vm_compute. discriminate.
Qed.

(** C5, as the code has it.  [cleanupHistory] keeps the records with
    [timestamp > now - historyRetentionMs] and, of those, the newest
    [maxHistoryRecords] in ledger order: the records evicted for the
    size bound are the oldest ones, and at most [maxHistoryRecords]
    records are left.  It runs in [getMetrics], in
    [getConsumptionHistory], in [setMaxHistoryRecords] and at the end of
    every [consume] that returns [true].  After 50 admitted requests
    with [maxHistoryRecords = 10] the ledger holds the last 10. *)
Theorem cleanupHistory_keeps_newest_within_retention :
  forall (TMetadata : Type) (th th1 : LLMThrottle.t TMetadata) (now : Q)
         (requestId : JSString.t) (estimate : Q) (metadata : option TMetadata)
         (count : Z),
    wellFormed th ->
    (0 < count)%Z ->
    let th' := cleanupHistory now th in
    let fresh (r : ConsumptionRecord.t TMetadata) :=
      now - historyRetentionMs th < ConsumptionRecord.timestamp r in
    let evicted :=
      firstn (List.length (retained now th)
              - Z.to_nat (maxHistoryRecords th)) (retained now th) in
    consumptionHistory th' = newest (maxHistoryRecords th) (retained now th)
    /\ retained now th = evicted ++ consumptionHistory th'
    /\ Forall fresh (consumptionHistory th')
    /\ (forall r, In r (consumptionHistory th) -> fresh r -> In r (retained now th))
    /\ Z.of_nat (List.length (consumptionHistory th'))
       = Z.min (Z.of_nat (List.length (retained now th))) (maxHistoryRecords th)
    /\ consumptionHistory (snd (getMetrics now th)) = consumptionHistory th'
    /\ getConsumptionHistory now th = (consumptionHistory th', th')
    /\ (consume requestId estimate metadata now th = (Ok true, th1) ->
        th1 = cleanupHistory now (admitted now requestId estimate metadata th)
        /\ Forall fresh (consumptionHistory th1)
        /\ (Z.of_nat (List.length (consumptionHistory th1))
            <= maxHistoryRecords th)%Z)
    /\ (exists th2,
          setMaxHistoryRecords count now th = (Ok tt, th2)
          /\ th2 = cleanupHistory now (set_maxHistoryRecords count th)
          /\ Forall fresh (consumptionHistory th2)
          /\ (Z.of_nat (List.length (consumptionHistory th2)) <= count)%Z)
    /\ map (@ConsumptionRecord.requestId unit)
           (consumptionHistory
              (consumeAll (map bulkId (seq 0 50)) 10 0 throttle_max_10))
       = map bulkId (seq 40 10).
Proof.
  intros TMetadata th th1 now requestId estimate metadata count
         (_ & _ & Hret & Hmax & _) Hcount th' fresh evicted.
  assert (Hh : consumptionHistory th'
               = newest (maxHistoryRecords th) (retained now th))
    by now apply LLMThrottleFacts.cleanupHistory_history.
  split; [exact Hh |].
  split; [rewrite Hh; apply LLMThrottleFacts.newest_suffix |].
  split; [now apply LLMThrottleFacts.cleanupHistory_fresh_bounded |].
  split.
  { intros r Hin Hr. unfold retained. apply filter_In.
    split; [exact Hin | now apply Qlt_bool_iff]. }
  split; [rewrite Hh; apply LLMThrottleFacts.newest_length; lia |].
  split; [reflexivity |]. split; [reflexivity |].
  split; [| split].
  - intro Hc. apply LLMThrottleFacts.consume_true_inv in Hc.
    split; [exact Hc |]. subst th1.
    now apply (LLMThrottleFacts.cleanupHistory_fresh_bounded now
                 (admitted now requestId estimate metadata th)).
  - eexists. split; [| split; [reflexivity |]].
    + unfold setMaxHistoryRecords.
      assert (E : (count <=? 0)%Z = false) by (apply Z.leb_gt; lia).
      now rewrite E.
    + now apply (LLMThrottleFacts.cleanupHistory_fresh_bounded now
                   (set_maxHistoryRecords count th)).
  - vm_compute. reflexivity.
Qed.

Lemma cleanupHistory_keeps_newest_within_retention_witness :
  consumptionHistory (cleanupHistory 200000 throttle_after_request_1) = [].
Proof.
  refine (eq_trans
    (proj1 (@cleanupHistory_keeps_newest_within_retention unit
              throttle_after_request_1 throttle_after_request_1 200000
              (JSString.ofAscii "request-2") 10 None 5 _ _)) _).
  - exact throttle_after_request_1_wellFormed.
  - lia.
  - vm_compute. reflexivity.
Defined.

(** C5, counterexample.  [adjustConsumption] changes the volume bucket
    and a record but does not prune: a record pushed when the clock read
    1000 is still in the ledger after an [adjustConsumption] made when
    the clock reads 200000, with a retention of 60000 ms. *)
Lemma adjustConsumption_does_not_prune :
  let now := 200000 in
  let th' :=
    snd (adjustConsumption (JSString.ofAscii "request-1") 300 now throttle_after_request_1) in
  fst (adjustConsumption (JSString.ofAscii "request-1") 300 now throttle_after_request_1) = Ok tt
  /\ ~ Forall (fun r => now - historyRetentionMs th'
                        < ConsumptionRecord.timestamp r)
              (consumptionHistory th').
Proof.
  cbv zeta. split; [vm_compute; reflexivity |].
  intro H. vm_compute in H. inversion H as [| r l Hr _]. discriminate Hr.
Qed.

(** A second failing operation that is not atomic.  Restoring, into an
    engine of 1000 tokens per minute, a snapshot whose rate state fits
    and whose volume state has another capacity throws the capacity
    mismatch after the rate bucket has been overwritten. *)
Lemma restoreFromSnapshot_fails_after_overwriting_rate_bucket :
  let th := throttle_after_request_1 in
  let th' := snd (restoreFromSnapshot snapshot_60_2000 th) in
  fst (restoreFromSnapshot snapshot_60_2000 th)
  = Throw Error_stateCapacityMismatch
  /\ TokenBucket._available (rpmBucket th) == 59
  /\ TokenBucket._available (rpmBucket th') == 60
  /\ tpmBucket th' = tpmBucket th.
Proof. cbv zeta. repeat split; vm_compute; reflexivity. Qed.

(** * Further properties *)

(** ** The token bucket *)

Module MoreBucketFacts.
Import TokenBucket TokenBucketFacts.

Lemma timeUntilTokens_cases count now b :
  0 < count ->
  (count <= _available (refill now b)
   /\ timeUntilTokens count now b = (0, refill now b))
  \/ (_available (refill now b) < count
      /\ timeUntilTokens count now b
         = (Math.ceil ((count - _available (refill now b))
                       / _refillRate b * 1000),
            refill now b)).
Proof.
  intro Hc. unfold timeUntilTokens.
  assert (E0 : Qle_bool count 0 = false) by now qle_false.
  rewrite E0, refill_refillRate.
  destruct (Qle_bool count (_available (refill now b))) eqn:E; qprop; auto.
Qed.

(** The wait that [Math.ceil] rounds up is a positive number of
    milliseconds, and it grows with the amount that is missing. *)
Lemma ceil_positive (x r : Q) :
  0 < x -> 0 < r -> 0 < Math.ceil (x / r * 1000).
Proof.
  intros Hx Hr.
  pose proof (Qle_ceiling (x / r * 1000)) as Hup.
  fold (Math.ceil (x / r * 1000)) in Hup.
  assert (Hi : 0 < / r) by now apply Qinv_lt_0_compat.
  unfold Qdiv in *. set (ir := / r) in *. clearbody ir.
  set (c := Math.ceil (x * ir * 1000)) in *. clearbody c.
  assert (0 < x * ir * 1000) by nra. lra.
Qed.

Lemma ceil_monotone (x y r : Q) :
  0 < r -> x <= y -> Math.ceil (x / r * 1000) <= Math.ceil (y / r * 1000).
Proof.
  intros Hr Hxy. unfold Math.ceil. rewrite <- Zle_Qle.
  apply Qceiling_resp_le.
  assert (Hi : 0 < / r) by now apply Qinv_lt_0_compat.
  unfold Qdiv. set (ir := / r) in *. clearbody ir. nra.
Qed.

(** The wait for [count] tokens, from the level [a] that the bucket
    reads: it grows with the count and shrinks as the level rises. *)
Lemma wait_monotone (count count' a a' r : Q) :
  0 < r -> count <= count' -> a' <= a ->
  (if Qle_bool count a then 0 else Math.ceil ((count - a) / r * 1000))
  <= (if Qle_bool count' a' then 0
      else Math.ceil ((count' - a') / r * 1000)).
Proof.
  intros Hr Hc Ha.
  destruct (Qle_bool count a) eqn:E1; destruct (Qle_bool count' a') eqn:E2;
    qprop.
  - lra.
  - apply Qlt_le_weak, ceil_positive; lra.
  - lra.
  - apply ceil_monotone; lra.
Qed.

Lemma timeUntilTokens_fst count now b :
  0 < count ->
  fst (timeUntilTokens count now b)
  = if Qle_bool count (_available (refill now b)) then 0
    else Math.ceil ((count - _available (refill now b))
                    / _refillRate b * 1000).
Proof.
  intro Hc. unfold timeUntilTokens.
  assert (E0 : Qle_bool count 0 = false) by now qle_false.
  rewrite E0, refill_refillRate.
  now destruct (Qle_bool count (_available (refill now b))).
Qed.


End MoreBucketFacts.

(** X1.  For a count that is not negative, [consume] succeeds exactly
    when [hasTokens] says so at the same clock value; when it succeeds
    the bucket reads exactly [count] less, when it fails the bucket reads
    what it read before; the capacity never changes, and a consistent
    bucket stays consistent: its level is left neither negative nor
    above the capacity. *)
Theorem consume_debits_exactly_or_nothing :
  forall (b : TokenBucket.t) (count now : Q),
    0 <= count ->
    let reading := fst (TokenBucket.available now b) in
    let b' := snd (TokenBucket.consume count now b) in
    (fst (TokenBucket.hasTokens count now b) = true
     <-> fst (TokenBucket.consume count now b) = Ok true)
    /\ (count <= reading ->
        fst (TokenBucket.consume count now b) = Ok true
        /\ fst (TokenBucket.available now b') = reading - count)
    /\ (reading < count ->
        fst (TokenBucket.consume count now b) = Ok false
        /\ fst (TokenBucket.available now b') = reading)
    /\ TokenBucket._capacity b' = TokenBucket._capacity b
    /\ (TokenBucket.consistent b ->
        0 <= TokenBucket._available b'
        /\ TokenBucket._available b' <= TokenBucket._capacity b').
Proof.
  intros b count now Hpos reading b'.
  assert (E0 : Qlt_bool count 0 = false) by now qlt_false.
  assert (Hcov : count <= reading ->
                 TokenBucket.consume count now b
                 = (Ok true,
                    TokenBucket.set_available (reading - count)
                      (TokenBucket.refill now b)))
    by (intro H; now apply BucketCalls.consume_covered).
  assert (Hshort : reading < count ->
                   TokenBucket.consume count now b
                   = (Ok false, TokenBucket.refill now b))
    by (intro H; now apply BucketCalls.consume_short).
  split; [| split; [| split; [| split]]].
  - unfold TokenBucket.hasTokens. rewrite E0. cbn [fst].
    change (TokenBucket._available (TokenBucket.refill now b)) with reading.
    destruct (Qle_bool count reading) eqn:E; qprop.
    + rewrite (Hcov E). cbn [fst]. split; reflexivity.
    + rewrite (Hshort E). cbn [fst]. split; discriminate.
  - intro H. unfold b'. rewrite (Hcov H). cbn [fst snd]. split; [reflexivity |].
    unfold TokenBucket.available. cbn [fst].
    rewrite TokenBucketFacts.refill_uptodate; [reflexivity |].
    apply TokenBucketFacts.refill_lastRefill_ge.
  - intro H. unfold b'. rewrite (Hshort H). cbn [fst snd]. split; [reflexivity |].
    unfold reading, TokenBucket.available. cbn [fst].
    now rewrite TokenBucketFacts.refill_idempotent.
  - unfold b'. destruct (Qlt_le_dec reading count) as [H | H].
    + rewrite (Hshort H). apply TokenBucketFacts.refill_capacity.
    + rewrite (Hcov H). cbn. apply TokenBucketFacts.refill_capacity.
  - intro Hb.
    destruct (@TokenBucketFacts.consume_consistent count now b Hb)
      as (A0 & A1 & _).
    fold b' in A0, A1. split; assumption.
Qed.

Lemma consume_debits_exactly_or_nothing_witness :
  fst (TokenBucket.consume 30 2000 bucket_100_10_50) = Ok true
  /\ fst (TokenBucket.available 2000
            (snd (TokenBucket.consume 30 2000 bucket_100_10_50)))
     = fst (TokenBucket.available 2000 bucket_100_10_50) - 30.
Proof.
  refine (proj1 (proj2
    (@consume_debits_exactly_or_nothing bucket_100_10_50 30 2000 _)) _).
  - lra.
  - vm_compute. discriminate.
Defined.

(** X2.  For a consistent bucket and a positive count, the wait that
    [timeUntilTokens] returns is 0 exactly when [hasTokens] holds at
    that clock value, and a positive whole number of milliseconds
    otherwise; it grows with the count and shrinks as the clock
    advances; the call leaves the bucket as a read does; and
    [timeUntilNextToken] is the wait for 1 token. *)
Theorem timeUntilTokens_is_zero_when_available_and_monotone :
  forall (b : TokenBucket.t) (count count' now t : Q),
    TokenBucket.consistent b ->
    0 < count ->
    let ms := fst (TokenBucket.timeUntilTokens count now b) in
    (ms == 0 <-> fst (TokenBucket.hasTokens count now b) = true)
    /\ (fst (TokenBucket.hasTokens count now b) = false ->
        exists k : Z, (0 < k)%Z /\ ms = inject_Z k)
    /\ (count <= count' ->
        ms <= fst (TokenBucket.timeUntilTokens count' now b))
    /\ (now <= t -> fst (TokenBucket.timeUntilTokens count t b) <= ms)
    /\ snd (TokenBucket.timeUntilTokens count now b)
       = TokenBucket.refill now b
    /\ TokenBucket.timeUntilNextToken now b
       = TokenBucket.timeUntilTokens 1 now b.
Proof.
  intros b count count' now t Hb Hc ms.
  pose proof Hb as (_ & _ & _ & Hr).
  assert (E0 : Qlt_bool count 0 = false) by (qlt_false; lra).
  assert (Hhas : fst (TokenBucket.hasTokens count now b)
                 = Qle_bool count
                     (TokenBucket._available (TokenBucket.refill now b)))
    by (unfold TokenBucket.hasTokens; now rewrite E0).
  unfold ms. rewrite Hhas, (MoreBucketFacts.timeUntilTokens_fst now b Hc).
  split; [| split; [| split; [| split; [| split]]]].
  - destruct (Qle_bool count _) eqn:E; qprop.
    + split; reflexivity.
    + pose proof (@MoreBucketFacts.ceil_positive
                    (count - TokenBucket._available (TokenBucket.refill now b))
                    (TokenBucket._refillRate b)) as Hpos.
      split; [intro C; exfalso; lra | discriminate].
  - intro E. rewrite E. qprop.
    exists (Qceiling ((count
                       - TokenBucket._available (TokenBucket.refill now b))
                      / TokenBucket._refillRate b * 1000)).
    split; [| reflexivity].
    rewrite Zlt_Qlt. apply MoreBucketFacts.ceil_positive; lra.
  - intro Hle.
    rewrite (@MoreBucketFacts.timeUntilTokens_fst count' now b) by lra.
    apply MoreBucketFacts.wait_monotone; lra.
  - intro Hle.
    rewrite (MoreBucketFacts.timeUntilTokens_fst t b Hc).
    apply MoreBucketFacts.wait_monotone; try lra.
    now apply TokenBucketFacts.refill_monotone.
  - destruct (MoreBucketFacts.timeUntilTokens_cases now b Hc)
      as [[_ ->] | [_ ->]]; reflexivity.
  - reflexivity.
Qed.

Lemma timeUntilTokens_is_zero_when_available_and_monotone_witness :
  fst (TokenBucket.timeUntilTokens 70 3000
         (TokenBucket.mk 100 0 3 1000 false))
  <= fst (TokenBucket.timeUntilTokens 70 2000
            (TokenBucket.mk 100 0 3 1000 false)).
Proof.
  refine (proj1 (proj2 (proj2 (proj2
    (@timeUntilTokens_is_zero_when_available_and_monotone
       (TokenBucket.mk 100 0 3 1000 false) 70 70 2000 3000 _ _)))) _).
  - unfold TokenBucket.consistent; simpl. repeat split; lra.
  - lra.
  - lra.
Defined.

(** X3.  A bucket never holds more than its capacity: after any sequence
    of calls on a bucket built by the constructor, a count above the
    configured capacity is refused by [hasTokens] and by [consume] at
    every clock value, although [timeUntilTokens] answers a positive
    number of milliseconds. *)
Theorem count_above_capacity_is_never_available :
  forall (config : TokenBucketConfig.t) (storage : bool) (t0 : Q)
         (b0 : TokenBucket.t) (calls : list (Q * TokenBucket.Op))
         (count t : Q),
    TokenBucket.new config storage t0 = Ok b0 ->
    TokenBucketConfig.capacity config < count ->
    let b := TokenBucket.run calls b0 in
    fst (TokenBucket.hasTokens count t b) = false
    /\ fst (TokenBucket.consume count t b) = Ok false
    /\ 0 < fst (TokenBucket.timeUntilTokens count t b).
Proof.
  intros config storage t0 b0 calls count t Hnew Hcount b.
  destruct (TokenBucketFacts.new_consistent _ _ _ Hnew) as [Hb0 Hcap0].
  pose proof (TokenBucketFacts.run_consistent calls Hb0) as Hb. fold b in Hb.
  assert (Hcap : TokenBucket._capacity b = TokenBucketConfig.capacity config)
    by (unfold b; now rewrite TokenBucketFacts.run_capacity).
  pose proof (TokenBucketFacts.refill_consistent t Hb) as (A0 & A1 & A2 & A3).
  rewrite TokenBucketFacts.refill_capacity, Hcap in A1.
  rewrite TokenBucketFacts.refill_refillRate in A3.
  assert (Hshort : TokenBucket._available (TokenBucket.refill t b) < count)
    by lra.
  assert (Hpos : 0 < count) by lra.
  split; [| split].
  - unfold TokenBucket.hasTokens.
    assert (E0 : Qlt_bool count 0 = false) by (qlt_false; lra).
    rewrite E0. cbn [fst]. now qle_false.
  - rewrite BucketCalls.consume_short by (assumption || lra). reflexivity.
  - destruct (MoreBucketFacts.timeUntilTokens_cases t b Hpos) as [[C _]|[_ ->]];
      [lra |].
    cbn [fst]. apply MoreBucketFacts.ceil_positive; lra.
Qed.

Lemma count_above_capacity_is_never_available_witness :
  fst (TokenBucket.consume 150 99000
         (TokenBucket.run [(1000, TokenBucket.op_consume 30)]
            (TokenBucket.mk 100 100 10 0 false))) = Ok false.
Proof.
  refine (proj1 (proj2
    (@count_above_capacity_is_never_available
       (TokenBucketConfig.mk 100 10 None) false 0 _
       [(1000, TokenBucket.op_consume 30)] 150 99000 eq_refl _))).
  simpl. lra.
Defined.

(** X5.  [validateConsistency] answers [true] on every bucket built by
    the constructor, after every sequence of calls and at every clock
    value. *)
Theorem validateConsistency_holds_after_any_run :
  forall (config : TokenBucketConfig.t) (storage : bool) (t0 : Q)
         (b : TokenBucket.t) (calls : list (Q * TokenBucket.Op)) (now : Q),
    TokenBucket.new config storage t0 = Ok b ->
    fst (TokenBucket.validateConsistency now (TokenBucket.run calls b)) = true.
Proof.
  intros config storage t0 b calls now Hnew.
  destruct (TokenBucketFacts.new_consistent _ _ _ Hnew) as [Hb _].
  pose proof (TokenBucketFacts.refill_consistent now
                (TokenBucketFacts.run_consistent calls Hb))
    as (A0 & A1 & A2 & A3).
  unfold TokenBucket.validateConsistency. cbn [fst].
  apply Qle_bool_iff in A0, A1. apply Qlt_bool_iff in A2, A3.
  now rewrite A0, A1, A2, A3.
Qed.

Lemma validateConsistency_holds_after_any_run_witness :
  fst (TokenBucket.validateConsistency 9000
         (TokenBucket.run
            [(1000, TokenBucket.op_consume 30); (500, TokenBucket.op_refund 500);
             (4000, TokenBucket.op_reset)]
            (TokenBucket.mk 100 100 10 0 true))) = true.
Proof.
  apply (@validateConsistency_holds_after_any_run
           (TokenBucketConfig.mk 100 10 None) true 0).
  reflexivity.
Defined.



(** ** The engine *)

(** X7.  A request that [canProcess] allows stays allowed while no other
    call is made: on a well-formed engine, when [canProcess(estimate)]
    allows at one clock value, it allows at every later one. *)
Theorem allowed_request_stays_allowed :
  forall (TMetadata : Type) (th th1 : LLMThrottle.t TMetadata)
         (now t estimate : Q) (check : RateLimitCheckResult.t),
    wellFormed th ->
    now <= t ->
    canProcess estimate now th = (Ok check, th1) ->
    RateLimitCheckResult.allowed check = true ->
    exists check' th2,
      canProcess estimate t th1 = (Ok check', th2)
      /\ RateLimitCheckResult.allowed check' = true.
Proof.
  intros TMetadata th th1 now t estimate check (Hr & Ht & _) Hle Hcan Hallowed.
  destruct (Qlt_le_dec estimate 0) as [Hn | Hp].
  { rewrite LLMThrottleFacts.canProcess_negative in Hcan by assumption.
    discriminate. }
  rewrite LLMThrottleFacts.canProcess_eq in Hcan by assumption.
  injection Hcan as Hcheck Hth1. subst th1.
  cbn [fst TokenBucket.available] in Hcheck.
  destruct (Qle_bool 1 _) eqn:E1 in Hcheck;
    [| subst check; discriminate].
  destruct (Qle_bool estimate _) eqn:E2 in Hcheck;
    [| subst check; discriminate].
  qprop.
  rewrite LLMThrottleFacts.canProcess_eq by assumption.
  unfold refillBuckets at 1 2.
  cbn [rpmBucket tpmBucket set_rpmBucket set_tpmBucket fst
       TokenBucket.available].
  pose proof (@TokenBucketFacts.refill_never_decreases t _
                (TokenBucketFacts.refill_consistent now Hr)) as Mr.
  pose proof (@TokenBucketFacts.refill_never_decreases t _
                (TokenBucketFacts.refill_consistent now Ht)) as Mt.
  assert (F1 : Qle_bool 1
                 (TokenBucket._available
                    (TokenBucket.refill t
                       (TokenBucket.refill now (rpmBucket th)))) = true)
    by (qle_true; lra).
  assert (F2 : Qle_bool estimate
                 (TokenBucket._available
                    (TokenBucket.refill t
                       (TokenBucket.refill now (tpmBucket th)))) = true)
    by (qle_true; lra).
  rewrite F1, F2. do 2 eexists. split; reflexivity.
Qed.

Lemma allowed_request_stays_allowed_witness :
  exists check' th2,
    canProcess 500 61000 (refillBuckets 1000 throttle_60_1000)
    = (Ok check', th2)
    /\ RateLimitCheckResult.allowed check' = true.
Proof.
  apply (@allowed_request_stays_allowed unit throttle_60_1000
           (refillBuckets 1000 throttle_60_1000) 1000 61000 500
           (RateLimitCheckResult.mk true None None
              (reportedAt 1000 throttle_60_1000))).
  - exact throttle_60_1000_wellFormed.
  - lra.
  - vm_compute. reflexivity.
  - reflexivity.
Defined.

Module MoreEngineFacts2.

Section Facts.

Variable TMetadata : Type.

Local Abbreviation engine := (LLMThrottle.t TMetadata).

Lemma refillBuckets_idempotent now (th : engine) :
  refillBuckets now (refillBuckets now th) = refillBuckets now th.
Proof.
  unfold refillBuckets. cbn.
  now rewrite !TokenBucketFacts.refill_idempotent.
Qed.

(** [canProcess] answers the same on an engine whose buckets have just
    been refilled. *)
Lemma canProcess_after_refill n now (th : engine) :
  0 <= n ->
  canProcess n now (refillBuckets now th) = canProcess n now th.
Proof.
  intro Hn. rewrite !LLMThrottleFacts.canProcess_eq by assumption.
  rewrite refillBuckets_idempotent.
  unfold reportedAt, refillBuckets.
  cbn [rpmBucket tpmBucket set_rpmBucket set_tpmBucket].
  rewrite !BucketCalls.available_after_refill,
          BucketCalls.timeUntilNextToken_after_refill,
          BucketCalls.timeUntilTokens_after_refill.
  reflexivity.
Qed.

(** On buckets that are up to date, [canProcess] does not depend on the
    clock value. *)
Lemma canProcess_uptodate n t t' (th : engine) :
  t <= TokenBucket._lastRefill (rpmBucket th) ->
  t <= TokenBucket._lastRefill (tpmBucket th) ->
  t' <= TokenBucket._lastRefill (rpmBucket th) ->
  t' <= TokenBucket._lastRefill (tpmBucket th) ->
  canProcess n t th = canProcess n t' th.
Proof.
  intros Hr Ht Hr' Ht'.
  destruct (Qlt_le_dec n 0) as [Hn | Hp].
  { now rewrite !LLMThrottleFacts.canProcess_negative. }
  rewrite !LLMThrottleFacts.canProcess_eq by assumption.
  unfold reportedAt, refillBuckets, TokenBucket.available,
    TokenBucket.timeUntilNextToken, TokenBucket.timeUntilTokens.
  cbn [rpmBucket tpmBucket set_rpmBucket set_tpmBucket].
  rewrite !(TokenBucketFacts.refill_uptodate _ Hr),
          !(TokenBucketFacts.refill_uptodate _ Ht),
          !(TokenBucketFacts.refill_uptodate _ Hr'),
          !(TokenBucketFacts.refill_uptodate _ Ht').
  reflexivity.
Qed.

(** After a refusal at [now], a second [canProcess] that reads a clock
    that has not advanced gives the first answer. *)
Lemma canProcess_again n now now' (th : engine) :
  0 <= n -> now' <= now ->
  canProcess n now' (refillBuckets now th) = canProcess n now th.
Proof.
  intros Hp Hle.
  rewrite <- (@canProcess_after_refill n now th Hp).
  pose proof (TokenBucketFacts.refill_lastRefill_ge now (rpmBucket th)) as Lr.
  pose proof (TokenBucketFacts.refill_lastRefill_ge now (tpmBucket th)) as Lt.
  apply canProcess_uptodate; unfold refillBuckets;
    cbn [rpmBucket tpmBucket set_rpmBucket set_tpmBucket]; lra.
Qed.

(** What [canProcess] answers when it refuses, and when it allows. *)
Lemma canProcess_allowed n now (th th1 : engine) check :
  canProcess n now th = (Ok check, th1) ->
  RateLimitCheckResult.allowed check = true ->
  RateLimitCheckResult.reason check = None
  /\ RateLimitCheckResult.availableIn check = None.
Proof.
  intros Hcan Hyes.
  destruct (Qlt_le_dec n 0) as [Hn | Hp].
  { rewrite LLMThrottleFacts.canProcess_negative in Hcan by assumption.
    discriminate. }
  rewrite LLMThrottleFacts.canProcess_eq in Hcan by assumption.
  injection Hcan as Hcheck _. subst check.
  destruct (Qle_bool 1 _); [destruct (Qle_bool n _) |]; cbn in *;
    split; reflexivity || discriminate.
Qed.

Lemma canProcess_refusal n now (th th1 : engine) check :
  canProcess n now th = (Ok check, th1) ->
  RateLimitCheckResult.allowed check = false ->
  RateLimitCheckResult.reason check <> None
  /\ RateLimitCheckResult.availableIn check <> None.
Proof.
  intros Hcan Hnot.
  destruct (Qlt_le_dec n 0) as [Hn | Hp].
  { rewrite LLMThrottleFacts.canProcess_negative in Hcan by assumption.
    discriminate. }
  rewrite LLMThrottleFacts.canProcess_eq in Hcan by assumption.
  injection Hcan as Hcheck _. subst check.
  destruct (Qle_bool 1 _); [destruct (Qle_bool n _) |]; cbn in *;
    split; discriminate.
Qed.

End Facts.

End MoreEngineFacts2.

(** X9.  An estimate above the capacity of the volume bucket is never
    admitted: on a well-formed engine, at every clock value,
    [canProcess] refuses it, naming a limit and a wait, and [consume]
    returns [false] (the debt not being negative), leaving ledger and
    debt as they are. *)
Theorem estimate_above_volume_capacity_is_never_admitted :
  forall (TMetadata : Type) (th : LLMThrottle.t TMetadata) (now estimate : Q)
         (requestId : JSString.t) (metadata : option TMetadata),
    wellFormed th ->
    TokenBucket._capacity (tpmBucket th) < estimate ->
    (exists check,
        canProcess estimate now th = (Ok check, refillBuckets now th)
        /\ RateLimitCheckResult.allowed check = false
        /\ RateLimitCheckResult.reason check <> None
        /\ RateLimitCheckResult.availableIn check <> None)
    /\ (requestIdIsEmpty requestId = false -> 0 <= compensationDebt th ->
        consume requestId estimate metadata now th
        = (Ok false, refillBuckets now th)).
Proof.
  intros TMetadata th now estimate requestId metadata (Hr & Ht & _) Hbig.
  pose proof (TokenBucketFacts.refill_consistent now Ht) as (A0 & A1 & A2 & _).
  rewrite TokenBucketFacts.refill_capacity in A1, A2.
  assert (Hpos : 0 <= estimate) by lra.
  split.
  - pose proof (LLMThrottleFacts.canProcess_eq now th Hpos) as Heq.
    cbn [fst TokenBucket.available] in Heq.
    assert (E2 : Qle_bool estimate
                   (TokenBucket._available
                      (TokenBucket.refill now (tpmBucket th))) = false)
      by (qle_false; lra).
    rewrite E2 in Heq. eexists. split; [exact Heq |].
    destruct (Qle_bool 1 _); cbn; repeat split; discriminate.
  - intros Hid Hdebt.
    rewrite LLMThrottleFacts.consume_eq by (assumption || lra).
    cbn [fst TokenBucket.available].
    assert (E2 : Qle_bool (estimate + compensationDebt th)
                   (TokenBucket._available
                      (TokenBucket.refill now (tpmBucket th))) = false)
      by (qle_false; lra).
    rewrite E2, andb_false_r. reflexivity.
Qed.

Lemma estimate_above_volume_capacity_is_never_admitted_witness :
  consume (JSString.ofAscii "request-2") 1500 None 990000 throttle_after_request_1
  = (Ok false, refillBuckets 990000 throttle_after_request_1).
Proof.
  refine (proj2
    (@estimate_above_volume_capacity_is_never_admitted unit
       throttle_after_request_1 990000 1500 (JSString.ofAscii "request-2") None
       throttle_after_request_1_wellFormed _) _ _).
  - vm_compute. reflexivity.
  - reflexivity.
  - vm_compute. discriminate.
Defined.

(** X10.  [consumeOrThrow] throws exactly when [consume] does not return
    [true].  An empty request id and a negative amount to admit are
    thrown as by [consume], the engine untouched.  When [consume]
    returns [true] it returns and leaves the engine that [consume]
    leaves.  When [consume] returns [false] it throws a rate limit error
    that carries the reason and the wait of a second [canProcess], made
    on the engine that [consume] left and with a new reading of the
    clock; nothing has been consumed.  Both fields are defined when that
    second check refuses, which it does whenever the clock has not
    advanced, and then it is the refusal [consume] met; both are
    undefined when the second check allows. *)
Theorem consumeOrThrow_throws_the_refusal_of_canProcess :
  forall (TMetadata : Type) (th : LLMThrottle.t TMetadata) (now now' : Q)
         (requestId : JSString.t) (estimate : Q)
         (metadata : option TMetadata),
    let needed := estimate + compensationDebt th in
    (requestIdIsEmpty requestId = true ->
     consumeOrThrow requestId estimate metadata now now' th
     = (Some (thrown_Error Error_requestIdEmpty), th))
    /\ (requestIdIsEmpty requestId = false -> needed < 0 ->
        consumeOrThrow requestId estimate metadata now now' th
        = (Some (thrown_Error Error_estimatedNegative), th))
    /\ (requestIdIsEmpty requestId = false -> 0 <= needed ->
        (fst (consume requestId estimate metadata now th) = Ok true ->
         consumeOrThrow requestId estimate metadata now now' th
         = (None, snd (consume requestId estimate metadata now th)))
        /\ (fst (consume requestId estimate metadata now th) = Ok false ->
            exists check,
              canProcess needed now' (refillBuckets now th)
              = (Ok check, refillBuckets now' (refillBuckets now th))
              /\ consumeOrThrow requestId estimate metadata now now' th
                 = (Some (thrown_RateLimitExceeded
                            (RateLimitCheckResult.reason check)
                            (RateLimitCheckResult.availableIn check)),
                    refillBuckets now' (refillBuckets now th))
              /\ (RateLimitCheckResult.allowed check = false ->
                  RateLimitCheckResult.reason check <> None
                  /\ RateLimitCheckResult.availableIn check <> None)
              /\ (RateLimitCheckResult.allowed check = true ->
                  RateLimitCheckResult.reason check = None
                  /\ RateLimitCheckResult.availableIn check = None)
              /\ (now' <= now ->
                  RateLimitCheckResult.allowed check = false
                  /\ canProcess needed now th
                     = (Ok check, refillBuckets now th)))).
Proof.
  intros TMetadata th now now' requestId estimate metadata needed.
  split; [| split].
  - intro Hid. unfold consumeOrThrow.
    now rewrite LLMThrottleFacts.consume_empty_id.
  - intros Hid Hneg. unfold consumeOrThrow.
    now rewrite LLMThrottleFacts.consume_negative_total.
  - intros Hid Hpos.
    pose proof (LLMThrottleFacts.consume_eq requestId metadata now th Hid Hpos)
      as Hcons.
    fold needed in Hcons.
    destruct (Qle_bool 1 (fst (TokenBucket.available now (rpmBucket th)))
              && Qle_bool needed
                   (fst (TokenBucket.available now (tpmBucket th)))) eqn:Hcond.
    + split.
      * intros _. unfold consumeOrThrow. rewrite Hcons. reflexivity.
      * intro C. rewrite Hcons in C. discriminate C.
    + split; [intro C; rewrite Hcons in C; discriminate C |]. intros _.
      pose proof (@LLMThrottleFacts.canProcess_eq _ needed now'
                    (refillBuckets now th) Hpos) as Hcan'.
      match type of Hcan' with
      | _ = (Ok ?c, _) => set (check' := c) in Hcan'
      end.
      clearbody check'.
      exists check'. split; [exact Hcan' |].
      split; [| split; [| split]].
      * unfold consumeOrThrow. rewrite Hcons. cbn [negb].
        change (compensationDebt (refillBuckets now th))
          with (compensationDebt th).
        fold needed. rewrite Hcan'. reflexivity.
      * intro Hn.
        eapply MoreEngineFacts2.canProcess_refusal; [exact Hcan' | exact Hn].
      * intro Hy.
        eapply MoreEngineFacts2.canProcess_allowed; [exact Hcan' | exact Hy].
      * intro Hle.
        pose proof (@MoreEngineFacts2.canProcess_again _ needed now now' th
                      Hpos Hle) as Hagain.
        pose proof (LLMThrottleFacts.canProcess_eq now th Hpos) as Hcan.
        rewrite Hcan', Hcan in Hagain.
        injection Hagain as Hcheck _. subst check'.
        split; [| exact Hcan].
        cbn [fst TokenBucket.available] in Hcond |- *.
        destruct (Qle_bool 1 (TokenBucket._available
                                (TokenBucket.refill now (rpmBucket th))));
          [| reflexivity].
        destruct (Qle_bool needed
                    (TokenBucket._available
                       (TokenBucket.refill now (tpmBucket th))));
          [discriminate Hcond | reflexivity].
Qed.

Lemma consumeOrThrow_throws_the_refusal_of_canProcess_witness :
  exists check,
    consumeOrThrow (JSString.ofAscii "request-1") 1500 None 1000 1000
      throttle_60_1000
    = (Some (thrown_RateLimitExceeded
               (RateLimitCheckResult.reason check)
               (RateLimitCheckResult.availableIn check)),
       refillBuckets 1000 (refillBuckets 1000 throttle_60_1000))
    /\ RateLimitCheckResult.reason check <> None.
Proof.
  assert (Hpos : 0 <= 1500 + compensationDebt throttle_60_1000)
    by (vm_compute; discriminate).
  destruct (proj2 (proj2 (proj2
    (@consumeOrThrow_throws_the_refusal_of_canProcess unit throttle_60_1000
       1000 1000 (JSString.ofAscii "request-1") 1500 None)) eq_refl Hpos)
              eq_refl)
    as (check & _ & Hthrow & _ & _ & Hsame).
  exists check. split; [exact Hthrow |].
  assert (Hle : 1000 <= 1000) by lra.
  destruct (Hsame Hle) as [Hnot Hcan].
  eapply MoreEngineFacts2.canProcess_refusal; [exact Hcan | exact Hnot].
Defined.

(** When the clock has advanced, the second check may allow: the error
    then carries neither a reason nor a wait, and nothing has been
    consumed.  500 of 1000 tokens are left; 600 are refused at 1000 and
    would be allowed at 40000. *)
Example consumeOrThrow_can_throw_without_a_reason :
  fst (consumeOrThrow (JSString.ofAscii "request-2") 600 None 1000 40000
         throttle_after_request_1)
  = Some (thrown_RateLimitExceeded None None)
  /\ consumptionHistory
       (snd (consumeOrThrow (JSString.ofAscii "request-2") 600 None 1000
               40000 throttle_after_request_1))
     = consumptionHistory throttle_after_request_1.
Proof. split; vm_compute; reflexivity. Qed.

Module MetricsFacts.

Section Facts.

Variable TMetadata : Type.

Local Abbreviation engine := (LLMThrottle.t TMetadata).

Lemma quotient_bounds (u c : Q) :
  0 <= u -> u <= c -> 0 < c -> 0 <= u / c /\ u / c <= 1.
Proof.
  intros H0 H1 Hc. split.
  - apply Qle_shift_div_l; lra.
  - apply Qle_shift_div_r; lra.
Qed.


Lemma getMetrics_statistics now (th : engine) :
  RateLimitMetrics.consumptionHistory (fst (getMetrics now th))
  = getHistoryStatistics (cleanupHistory now th)
  /\ RateLimitMetrics.memory (fst (getMetrics now th))
     = getMemoryMetrics (cleanupHistory now th).
Proof. split; reflexivity. Qed.

Lemma fold_left_sum_ext (A : Type) (F : Q -> A -> Q) (g : A -> Q)
  (l : list A) :
  (forall acc x, F acc x == acc + g x) ->
  forall acc, fold_left F l acc == acc + fold_right Qplus 0 (map g l).
Proof.
  intro HF. induction l as [| x l IH]; intro acc; simpl.
  - ring.
  - rewrite IH, HF. ring.
Qed.

(** A sum of numbers between 0 and 1, divided by their count. *)
Lemma mean_bounds (A : Type) (g : A -> Q) (l : list A) :
  l <> [] ->
  Forall (fun x => 0 <= g x /\ g x <= 1) l ->
  0 <= mean (map g l) /\ mean (map g l) <= 1.
Proof.
  intros Hne Hall. unfold mean. rewrite length_map.
  assert (Hsum : 0 <= fold_right Qplus 0 (map g l)
                 /\ fold_right Qplus 0 (map g l)
                    <= inject_Z (Z.of_nat (List.length l))).
  { clear Hne. induction Hall as [| x l [H0 H1] _ [IH0 IH1]].
    - simpl. split; [lra | unfold Qle; simpl; lia].
    - cbn [map fold_right List.length]. rewrite Nat2Z.inj_succ.
      unfold Z.succ. rewrite inject_Z_plus.
      change (inject_Z 1) with 1. split; lra. }
  assert (Hn : 0 < inject_Z (Z.of_nat (List.length l))).
  { destruct l; [congruence |]. cbn [List.length].
    rewrite Nat2Z.inj_succ. unfold Z.succ. rewrite inject_Z_plus.
    change (inject_Z 1) with 1.
    assert (0 <= inject_Z (Z.of_nat (List.length l)))
      by (unfold Qle; simpl; lia).
    lra. }
  apply quotient_bounds; tauto.
Qed.

Lemma ratio_bounds (estimated actual : Q) :
  0 <= estimated -> 0 <= actual ->
  ~ (estimated == 0 /\ actual == 0) ->
  0 <= ratio estimated actual /\ ratio estimated actual <= 1.
Proof.
  intros He Ha Hnz. unfold ratio.
  destruct (min_cases estimated actual) as [[H1 ->]|[H1 ->]];
    destruct (max_cases estimated actual) as [[H2 ->]|[H2 ->]];
    try lra; apply quotient_bounds; lra.
Qed.

Lemma accuracyOf_bounds (estimated actual : Q) :
  0 <= estimated -> 0 <= actual ->
  0 <= accuracyOf estimated actual /\ accuracyOf estimated actual <= 1.
Proof.
  intros He Ha. unfold accuracyOf.
  destruct (Qeq_bool estimated 0) eqn:E1;
    destruct (Qeq_bool actual 0) eqn:E2; cbn [andb orb]; try lra.
  qprop. apply ratio_bounds; tauto.
Qed.

Lemma recordAccuracy_bounds (r : ConsumptionRecord.t TMetadata) :
  nonNegativeAmounts r ->
  0 <= recordAccuracy r /\ recordAccuracy r <= 1.
Proof.
  intros [He Ha]. unfold recordAccuracy.
  destruct (ConsumptionRecord.estimatedTokens r) as [e |]; [| lra].
  destruct (ConsumptionRecord.actualTokens r) as [a |]; [| lra].
  apply accuracyOf_bounds; auto.
Qed.

Lemma statisticsAccuracy_bounds (r : ConsumptionRecord.t TMetadata) :
  nonNegativeAmounts r ->
  0 <= statisticsAccuracy r /\ statisticsAccuracy r <= 1.
Proof.
  intros [He Ha]. unfold statisticsAccuracy.
  destruct (ConsumptionRecord.estimatedTokens r) as [e |]; [| lra].
  destruct (ConsumptionRecord.actualTokens r) as [a |]; [| lra].
  destruct (Qeq_bool e 0) eqn:E; [lra |]. qprop.
  apply ratio_bounds; auto. tauto.
Qed.

Lemma getHistoryStatistics_cases (th : engine) :
  let h := consumptionHistory th in
  let s := getHistoryStatistics th in
  HistoryStatistics.count s = Z.of_nat (List.length h)
  /\ HistoryStatistics.totalTokens s == sumTokens h
  /\ (h = [] -> s = HistoryStatistics.mk 0 0 0 1)
  /\ (h <> [] ->
      HistoryStatistics.averageTokensPerRequest s
      * inject_Z (Z.of_nat (List.length h))
      == sumTokens h)
  /\ (filter (@bothDefined TMetadata) h = [] ->
      HistoryStatistics.estimationAccuracy s = 1)
  /\ (filter (@bothDefined TMetadata) h <> [] ->
      HistoryStatistics.estimationAccuracy s
      == mean (map (@statisticsAccuracy TMetadata)
                (filter (@bothDefined TMetadata) h))).
Proof.
  intros h s. unfold s, getHistoryStatistics. fold h.
  destruct (Z.of_nat (List.length h) =? 0)%Z eqn:E0.
  - apply LLMThrottleFacts.length_zero_iff in E0. rewrite E0. cbn.
    repeat split; try reflexivity; try congruence.
  - assert (Hne : h <> [])
      by (intro C; apply LLMThrottleFacts.length_zero_iff in C; congruence).
    assert (Hn : ~ inject_Z (Z.of_nat (List.length h)) == 0).
    { intro C. apply Z.eqb_neq in E0. apply E0.
      unfold Qeq in C. simpl in C. lia. }
    cbn [HistoryStatistics.count HistoryStatistics.totalTokens
         HistoryStatistics.averageTokensPerRequest
         HistoryStatistics.estimationAccuracy].
    assert (Hsum : fold_left
                     (fun sum record => sum + ConsumptionRecord.tokens record)
                     h 0 == sumTokens h).
    { rewrite LLMThrottleFacts.fold_left_sum. unfold sumTokens. ring. }
    split; [reflexivity |]. split; [exact Hsum |].
    split; [congruence |].
    split; [intros _; rewrite Hsum; field; exact Hn |].
    set (rs := filter (@bothDefined TMetadata) h).
    split.
    + intro Hnil. now rewrite Hnil.
    + intro Hrs.
      assert (E1 : (0 <? Z.of_nat (List.length rs))%Z = true).
      { apply Z.ltb_lt. destruct rs; [congruence | cbn; lia]. }
      rewrite E1. unfold mean. rewrite length_map.
      apply Qdiv_comp; [| reflexivity].
      rewrite (@fold_left_sum_ext _ _ (@statisticsAccuracy TMetadata)).
      * ring.
      * intros acc x. unfold statisticsAccuracy.
        destruct (ConsumptionRecord.estimatedTokens x) as [e |]; [| ring].
        destruct (ConsumptionRecord.actualTokens x) as [a |]; [| ring].
        destruct (Qeq_bool e 0); reflexivity.
Qed.

End Facts.

End MetricsFacts.



(** X12.  The ledger figures of [getMetrics] describe the pruned ledger:
    [count] is its length, [totalTokens] the sum of its [tokens] and
    [averageTokensPerRequest] their quotient.  The two accuracy figures
    default differently: an empty ledger gives [estimationAccuracy = 1]
    and [efficiency = 1]; a ledger that is not empty and has no
    reconciled record gives [estimationAccuracy = 1] and
    [efficiency = 0.85]. *)
Theorem getMetrics_ledger_figures_and_defaults :
  forall (TMetadata : Type) (th : LLMThrottle.t TMetadata) (now : Q),
    wellFormed th ->
    let h := consumptionHistory (cleanupHistory now th) in
    let m := fst (getMetrics now th) in
    let s := RateLimitMetrics.consumptionHistory m in
    HistoryStatistics.count s = Z.of_nat (List.length h)
    /\ MemoryMetrics.historyRecords (RateLimitMetrics.memory m)
       = Z.of_nat (List.length h)
    /\ HistoryStatistics.totalTokens s == sumTokens h
    /\ (h <> [] ->
        HistoryStatistics.averageTokensPerRequest s
        * inject_Z (HistoryStatistics.count s)
        == sumTokens h)
    /\ (h = [] ->
        s = HistoryStatistics.mk 0 0 0 1
        /\ RateLimitMetrics.efficiency m = 1)
    /\ (h <> [] ->
        Forall (fun r => ConsumptionRecord.actualTokens r = None) h ->
        HistoryStatistics.estimationAccuracy s = 1
        /\ RateLimitMetrics.efficiency m = 0.85).
Proof.
  intros TMetadata th now Hwf h m s.
  pose proof Hwf as (_ & _ & _ & _ & Hw).
  destruct (MetricsFacts.getMetrics_statistics now th) as [Es Em].
  fold m in Es, Em. fold s in Es.
  destruct (MetricsFacts.getHistoryStatistics_cases (cleanupHistory now th))
    as (Hcount & Htotal & Hempty & Havg & Hnone & _).
  cbv zeta in Hcount, Htotal, Hempty, Havg, Hnone.
  fold h in Hcount, Htotal, Hempty, Havg, Hnone.
  rewrite <- Es in Hcount, Htotal, Hempty, Havg, Hnone.
  assert (Heff : RateLimitMetrics.efficiency m
                 = calculateEfficiency (cleanupHistory now th))
    by reflexivity.
  destruct (LLMThrottleFacts.calculateEfficiency_cases (cleanupHistory now th))
    as (Cempty & Cnone & _).
  destruct (LLMThrottleFacts.cleanupHistory_frame now th)
    as (_ & _ & _ & _ & _ & Hsize & _).
  assert (Hwin : window (cleanupHistory now th)
                 = skipn (List.length h - Z.to_nat (efficiencyWindowSize th)) h).
  { unfold window. rewrite Hsize. now apply Array_slice_last. }
  split; [exact Hcount |]. split; [rewrite Em; reflexivity |].
  split; [exact Htotal |].
  split; [intro Hne; rewrite Hcount; now apply Havg |].
  split.
  - intro Hnil. split; [now apply Hempty |].
    rewrite Heff. apply Cempty. rewrite Hwin, Hnil. now destruct (_ - _)%nat.
  - intros Hne Hall. split.
    + apply Hnone. now apply LLMThrottleFacts.filter_bothDefined_nil.
    + rewrite Heff. apply Cnone.
      * rewrite Hwin. intro C.
        apply (f_equal (@List.length _)) in C.
        rewrite length_skipn in C. cbn [List.length] in C.
        assert (List.length h <> 0)%nat
          by (intro L; apply length_zero_iff_nil in L; congruence).
        lia.
      * unfold reconciled. apply LLMThrottleFacts.filter_bothDefined_nil.
        rewrite Hwin. now apply LLMThrottleFacts.Forall_skipn.
Qed.

Lemma getMetrics_ledger_figures_and_defaults_witness :
  HistoryStatistics.estimationAccuracy
    (RateLimitMetrics.consumptionHistory
       (fst (getMetrics 1000 throttle_after_request_1))) = 1
  /\ RateLimitMetrics.efficiency
       (fst (getMetrics 1000 throttle_after_request_1)) = 0.85.
Proof.
  refine (proj2 (proj2 (proj2 (proj2 (proj2
    (@getMetrics_ledger_figures_and_defaults unit throttle_after_request_1
       1000 throttle_after_request_1_wellFormed))))) _ _).
  - vm_compute. discriminate.
  - vm_compute. repeat constructor.
Defined.

(** X13.  Both accuracy figures of [getMetrics] lie between 0 and 1
    when no record of the ledger carries a negative amount. *)
Theorem accuracy_figures_lie_between_0_and_1 :
  forall (TMetadata : Type) (th : LLMThrottle.t TMetadata) (now : Q),
    wellFormed th ->
    Forall (@nonNegativeAmounts TMetadata) (consumptionHistory th) ->
    let m := fst (getMetrics now th) in
    0 <= RateLimitMetrics.efficiency m
    /\ RateLimitMetrics.efficiency m <= 1
    /\ 0 <= HistoryStatistics.estimationAccuracy
              (RateLimitMetrics.consumptionHistory m)
    /\ HistoryStatistics.estimationAccuracy
         (RateLimitMetrics.consumptionHistory m) <= 1.
Proof.
  intros TMetadata th now Hwf Hall m.
  pose proof Hwf as (_ & _ & _ & Hmax & Hw).
  set (th' := cleanupHistory now th).
  assert (Hh : Forall (@nonNegativeAmounts TMetadata) (consumptionHistory th')).
  { unfold th'. rewrite LLMThrottleFacts.cleanupHistory_history by exact Hmax.
    apply LLMThrottleFacts.newest_Forall. unfold retained.
    now apply LLMThrottleFacts.Forall_filter. }
  assert (Heff : RateLimitMetrics.efficiency m = calculateEfficiency th')
    by reflexivity.
  assert (Hacc : RateLimitMetrics.consumptionHistory m
                 = getHistoryStatistics th') by reflexivity.
  rewrite Heff, Hacc.
  assert (Hwin : Forall (@nonNegativeAmounts TMetadata) (window th')).
  { unfold window. unfold th' at 1.
    destruct (LLMThrottleFacts.cleanupHistory_frame now th)
      as (_ & _ & _ & _ & _ & -> & _).
    rewrite Array_slice_last by exact Hw.
    now apply LLMThrottleFacts.Forall_skipn. }
  split; [| split]; [| | split].
  - destruct (LLMThrottleFacts.calculateEfficiency_cases th')
      as (Cempty & Cnone & Cmean).
    destruct (window th') eqn:Ew; [rewrite Cempty by reflexivity; lra |].
    destruct (reconciled th') eqn:Er;
      [rewrite Cnone by (congruence || reflexivity); lra |].
    rewrite Cmean by congruence.
    apply MetricsFacts.mean_bounds; [congruence |].
    rewrite <- Er. unfold reconciled. rewrite Ew.
    apply LLMThrottleFacts.Forall_filter.
    apply Forall_impl with (2 := Hwin).
    apply MetricsFacts.recordAccuracy_bounds.
  - destruct (LLMThrottleFacts.calculateEfficiency_cases th')
      as (Cempty & Cnone & Cmean).
    destruct (window th') eqn:Ew; [rewrite Cempty by reflexivity; lra |].
    destruct (reconciled th') eqn:Er;
      [rewrite Cnone by (congruence || reflexivity); lra |].
    rewrite Cmean by congruence.
    apply MetricsFacts.mean_bounds; [congruence |].
    rewrite <- Er. unfold reconciled. rewrite Ew.
    apply LLMThrottleFacts.Forall_filter.
    apply Forall_impl with (2 := Hwin).
    apply MetricsFacts.recordAccuracy_bounds.
  - destruct (MetricsFacts.getHistoryStatistics_cases th')
      as (_ & _ & _ & _ & Hnone & Hmean).
    cbv zeta in Hnone, Hmean.
    destruct (filter (@bothDefined TMetadata) (consumptionHistory th')) eqn:Ef;
      [rewrite Hnone by reflexivity; lra |].
    rewrite Hmean by congruence.
    apply MetricsFacts.mean_bounds; [congruence |].
    rewrite <- Ef. apply LLMThrottleFacts.Forall_filter.
    apply Forall_impl with (2 := Hh).
    apply MetricsFacts.statisticsAccuracy_bounds.
  - destruct (MetricsFacts.getHistoryStatistics_cases th')
      as (_ & _ & _ & _ & Hnone & Hmean).
    cbv zeta in Hnone, Hmean.
    destruct (filter (@bothDefined TMetadata) (consumptionHistory th')) eqn:Ef;
      [rewrite Hnone by reflexivity; lra |].
    rewrite Hmean by congruence.
    apply MetricsFacts.mean_bounds; [congruence |].
    rewrite <- Ef. apply LLMThrottleFacts.Forall_filter.
    apply Forall_impl with (2 := Hh).
    apply MetricsFacts.statisticsAccuracy_bounds.
Qed.

Lemma accuracy_figures_lie_between_0_and_1_witness :
  0 <= RateLimitMetrics.efficiency
         (fst (getMetrics 1000 throttle_after_request_1))
  /\ RateLimitMetrics.efficiency
       (fst (getMetrics 1000 throttle_after_request_1)) <= 1.
Proof.
  assert (H : Forall (@nonNegativeAmounts unit)
                (consumptionHistory throttle_after_request_1)).
  { vm_compute. constructor; [| constructor].
    split; intros x E; inversion E; subst; discriminate. }
  pose proof (@accuracy_figures_lie_between_0_and_1 unit
                throttle_after_request_1 1000
                throttle_after_request_1_wellFormed H) as (A & B & _).
  split; [exact A | exact B].
Defined.

(** ** [validateState] and [repairState] *)

Module RepairFacts.
Import LLMThrottle EngineNotions.

Section Facts.

Variable TMetadata : Type.
Local Abbreviation engine := (LLMThrottle.t TMetadata).

Lemma validateConsistency_consistent now (b : TokenBucket.t) :
  TokenBucket.consistent b ->
  fst (TokenBucket.validateConsistency now b) = true.
Proof.
  intro Hb.
  pose proof (TokenBucketFacts.refill_consistent now Hb) as (A0 & A1 & A2 & A3).
  unfold TokenBucket.validateConsistency. cbn [fst].
  apply Qle_bool_iff in A0, A1. apply Qlt_bool_iff in A2, A3.
  now rewrite A0, A1, A2, A3.
Qed.

Lemma recordIsValid_ext now (th1 th2 : engine) :
  historyRetentionMs th1 = historyRetentionMs th2 ->
  recordIsValid now th1 = recordIsValid now th2.
Proof. intro H. unfold recordIsValid. now rewrite H. Qed.

(** With sound buckets, [validateState] is the conjunction of its three
    other tests. *)
Lemma validateState_eq now (th : engine) :
  TokenBucket.consistent (rpmBucket th) ->
  TokenBucket.consistent (tpmBucket th) ->
  fst (validateState now th)
  = negb (Qlt_bool (compensationDebt th) 0)
    && negb (Qlt_bool (inject_Z (maxHistoryRecords th) * 1.1)
               (inject_Z (Z.of_nat (List.length (consumptionHistory th)))))
    && forallb (recordIsValid now th) (consumptionHistory th).
Proof.
  intros Hr Ht. unfold validateState.
  pose proof (validateConsistency_consistent now Hr) as Er.
  pose proof (validateConsistency_consistent now Ht) as Et.
  destruct (TokenBucket.validateConsistency now (rpmBucket th)) as [cr br].
  cbn [fst] in Er. subst cr. cbn [negb].
  cbn [tpmBucket set_rpmBucket].
  destruct (TokenBucket.validateConsistency now (tpmBucket th)) as [ct bt].
  cbn [fst] in Et. subst ct. cbn [negb].
  cbn [compensationDebt maxHistoryRecords consumptionHistory
       set_tpmBucket set_rpmBucket].
  rewrite (@recordIsValid_ext now _ th) by reflexivity.
  destruct (Qlt_bool (compensationDebt th) 0); [reflexivity |].
  destruct (Qlt_bool _ _); reflexivity.
Qed.

(** The state that [repairState] leaves. *)
Lemma repairState_state now (th : engine) :
  (0 <= maxHistoryRecords th)%Z ->
  snd (repairState now th)
  = set_consumptionHistory (repairedHistory now th)
      (set_compensationDebt (repairedDebt th) th).
Proof.
  intro Hmax. unfold repairState, repairedHistory, validRecords, repairedDebt.
  destruct th as [rpm tpm h debt ret max win strat stor lg].
  unfold set_compensationDebt, set_consumptionHistory, recordIsValid.
  cbn [compensationDebt consumptionHistory maxHistoryRecords rpmBucket
       tpmBucket historyRetentionMs efficiencyWindowSize
       adjustmentFailureStrategy storageEnabled logger] in *.
  destruct (Qlt_bool debt 0);
    cbn [compensationDebt consumptionHistory maxHistoryRecords rpmBucket
         tpmBucket historyRetentionMs efficiencyWindowSize
         adjustmentFailureStrategy storageEnabled logger];
    set (valid := filter _ h);
    destruct (negb _);
    destruct (max <? Z.of_nat (List.length valid))%Z eqn:E;
    cbn [snd]; f_equal;
    try (apply Z.ltb_lt in E; rewrite Array_splice0_skipn by lia;
         f_equal; lia);
    try (apply Z.ltb_ge in E;
         replace (List.length valid - Z.to_nat max)%nat with 0%nat by lia;
         reflexivity).
Qed.

(** What [repairState] answers. *)
Lemma repairState_result now (th : engine) :
  fst (fst (repairState now th))
  = Qlt_bool (compensationDebt th) 0
    || negb (Z.of_nat (List.length (validRecords now th))
             =? Z.of_nat (List.length (consumptionHistory th)))%Z
    || (maxHistoryRecords th <? Z.of_nat (List.length (validRecords now th)))%Z.
Proof.
  unfold repairState, validRecords.
  destruct th as [rpm tpm h debt ret max win strat stor lg].
  unfold set_compensationDebt, set_consumptionHistory, recordIsValid.
  cbn [compensationDebt consumptionHistory maxHistoryRecords rpmBucket
       tpmBucket historyRetentionMs efficiencyWindowSize
       adjustmentFailureStrategy storageEnabled logger].
  destruct (Qlt_bool debt 0);
    cbn [compensationDebt consumptionHistory maxHistoryRecords rpmBucket
         tpmBucket historyRetentionMs efficiencyWindowSize
         adjustmentFailureStrategy storageEnabled logger];
    set (valid := filter _ h);
    destruct (negb _);
    destruct (max <? Z.of_nat (List.length valid))%Z;
    reflexivity.
Qed.

(** Nothing to repair: nothing is answered, logged or changed. *)
Lemma repairState_sound now (th : engine) :
  Qlt_bool (compensationDebt th) 0 = false ->
  forallb (recordIsValid now th) (consumptionHistory th) = true ->
  (maxHistoryRecords th <? Z.of_nat (List.length (consumptionHistory th)))%Z
  = false ->
  repairState now th = ((false, []), th).
Proof.
  intros Hd Hv Hm. unfold repairState.
  destruct th as [rpm tpm h debt ret max win strat stor lg].
  unfold set_compensationDebt, set_consumptionHistory, recordIsValid in *.
  cbn [compensationDebt consumptionHistory maxHistoryRecords rpmBucket
       tpmBucket historyRetentionMs efficiencyWindowSize
       adjustmentFailureStrategy storageEnabled logger] in *.
  rewrite Hd.
  cbn [compensationDebt consumptionHistory maxHistoryRecords rpmBucket
       tpmBucket historyRetentionMs efficiencyWindowSize
       adjustmentFailureStrategy storageEnabled logger].
  rewrite (forallb_filter_id _ _ Hv), Z.eqb_refl, Hm. reflexivity.
Qed.

Lemma repairedHistory_valid now (th : engine) :
  forallb (recordIsValid now th) (repairedHistory now th) = true.
Proof.
  apply forallb_forall. intros x Hx. unfold repairedHistory in Hx.
  assert (In x (validRecords now th)).
  { rewrite <- (firstn_skipn
                  (List.length (validRecords now th)
                   - Z.to_nat (maxHistoryRecords th))
                  (validRecords now th)).
    apply in_or_app. now right. }
  unfold validRecords in H. apply filter_In in H. tauto.
Qed.

Lemma repairedHistory_length now (th : engine) :
  (0 <= maxHistoryRecords th)%Z ->
  (Z.of_nat (List.length (repairedHistory now th)) <= maxHistoryRecords th)%Z.
Proof. intro H. unfold repairedHistory. rewrite length_skipn. lia. Qed.

Lemma repairedDebt_nonneg (th : engine) :
  Qlt_bool (repairedDebt th) 0 = false.
Proof.
  unfold repairedDebt. destruct (Qlt_bool (compensationDebt th) 0) eqn:E;
    [reflexivity | exact E].
Qed.

(** One record that fails the test makes [validateState] answer
    [false]. *)
Lemma validateState_invalid_record now (th : engine) record :
  In record (consumptionHistory th) ->
  recordIsValid now th record = false ->
  fst (validateState now th) = false.
Proof.
  intros Hin Hbad. unfold validateState.
  destruct (TokenBucket.validateConsistency now (rpmBucket th)) as [cr br].
  destruct (negb cr); [reflexivity |].
  cbn [tpmBucket set_rpmBucket].
  destruct (TokenBucket.validateConsistency now (tpmBucket th)) as [ct bt].
  destruct (negb ct); [reflexivity |].
  destruct (Qlt_bool _ 0); [reflexivity |].
  destruct (Qlt_bool _ _); [reflexivity |].
  cbn [fst consumptionHistory set_tpmBucket set_rpmBucket].
  rewrite (@recordIsValid_ext now _ th) by reflexivity.
  destruct (forallb _ _) eqn:E; [| reflexivity].
  rewrite forallb_forall in E. rewrite (E _ Hin) in Hbad. discriminate.
Qed.

Lemma repaired_validateState now (th : engine) :
  wellFormed th ->
  fst (validateState now (snd (repairState now th))) = true.
Proof.
  intros (Hr & Ht & _ & Hmax & _).
  rewrite repairState_state by lia.
  rewrite validateState_eq by assumption.
  cbn [compensationDebt maxHistoryRecords consumptionHistory
       set_consumptionHistory set_compensationDebt].
  rewrite (@recordIsValid_ext now _ th) by reflexivity.
  rewrite repairedDebt_nonneg, repairedHistory_valid. cbn [negb andb].
  rewrite andb_true_r. apply negb_true_iff. apply Qlt_bool_false.
  pose proof (@repairedHistory_length now th) as Hl.
  assert (Hq : inject_Z (Z.of_nat (List.length (repairedHistory now th)))
               <= inject_Z (maxHistoryRecords th))
    by (rewrite <- Zle_Qle; lia).
  assert (H0 : inject_Z 0 < inject_Z (maxHistoryRecords th))
    by (rewrite <- Zlt_Qlt; lia).
  change (inject_Z 0) with 0 in H0.
  set (m := inject_Z (maxHistoryRecords th)) in *. clearbody m.
  set (l := inject_Z _) in *. clearbody l. lra.
Qed.

Lemma repaired_repairState now (th : engine) :
  (0 <= maxHistoryRecords th)%Z ->
  repairState now (snd (repairState now th))
  = ((false, []), snd (repairState now th)).
Proof.
  intro Hmax. rewrite repairState_state by exact Hmax.
  apply repairState_sound;
    cbn [compensationDebt maxHistoryRecords consumptionHistory
         set_consumptionHistory set_compensationDebt].
  - apply repairedDebt_nonneg.
  - rewrite (@recordIsValid_ext now _ th) by reflexivity.
    apply repairedHistory_valid.
  - apply Z.ltb_ge. now apply repairedHistory_length.
Qed.

Lemma repairState_false now (th : engine) :
  fst (fst (repairState now th)) = false ->
  repairState now th = ((false, []), th).
Proof.
  intro H. rewrite repairState_result in H.
  apply orb_false_iff in H. destruct H as [H Hm].
  apply orb_false_iff in H. destruct H as [Hd Hl].
  apply negb_false_iff, Z.eqb_eq in Hl.
  apply repairState_sound.
  - exact Hd.
  - apply filter_length_forallb. unfold validRecords in Hl. lia.
  - now rewrite <- Hl.
Qed.

Lemma repairState_unchanged now (th : engine) :
  (0 <= maxHistoryRecords th)%Z ->
  snd (repairState now th) = th ->
  fst (fst (repairState now th)) = false.
Proof.
  intros Hmax H. rewrite repairState_state in H by exact Hmax.
  pose proof (f_equal (@compensationDebt TMetadata) H) as Hd.
  pose proof (f_equal (@consumptionHistory TMetadata) H) as Hh.
  cbn [compensationDebt consumptionHistory set_consumptionHistory
       set_compensationDebt] in Hd, Hh.
  rewrite repairState_result.
  assert (Ed : Qlt_bool (compensationDebt th) 0 = false).
  { unfold repairedDebt in Hd.
    destruct (Qlt_bool (compensationDebt th) 0) eqn:E; [| reflexivity].
    rewrite <- Hd in E. vm_compute in E. discriminate. }
  apply (f_equal (@List.length _)) in Hh.
  unfold repairedHistory in Hh. rewrite length_skipn in Hh.
  pose proof (filter_length_le (recordIsValid now th) (consumptionHistory th))
    as Hle.
  fold (validRecords now th) in Hle.
  rewrite Ed. cbn [orb]. apply orb_false_iff. split.
  - apply negb_false_iff, Z.eqb_eq. lia.
  - apply Z.ltb_ge. lia.
Qed.

End Facts.

End RepairFacts.

(** X14.  After [repairState], [validateState] at the same clock value
    answers [true] on a well-formed engine, and a second [repairState]
    answers [false], logs nothing and changes nothing. *)
Theorem repairState_establishes_validateState :
  forall (TMetadata : Type) (th : LLMThrottle.t TMetadata) (now : Q),
    wellFormed th ->
    let th' := snd (repairState now th) in
    fst (validateState now th') = true
    /\ repairState now th' = ((false, []), th').
Proof.
  intros TMetadata th now Hwf th'. split.
  - now apply RepairFacts.repaired_validateState.
  - apply RepairFacts.repaired_repairState.
    destruct Hwf as (_ & _ & _ & Hmax & _). lia.
Qed.

Lemma repairState_establishes_validateState_witness :
  fst (validateState 200000
         (snd (repairState 200000 throttle_after_request_1))) = true.
Proof.
  exact (proj1 (@repairState_establishes_validateState unit
                  throttle_after_request_1 200000
                  throttle_after_request_1_wellFormed)).
Defined.

(** X15.  [repairState] answers [false] exactly when it changes nothing
    (given that [maxHistoryRecords] is not negative), and then it logs
    no warning. *)
Theorem repairState_answers_false_iff_nothing_changed :
  forall (TMetadata : Type) (th : LLMThrottle.t TMetadata) (now : Q),
    (0 <= maxHistoryRecords th)%Z ->
    (fst (fst (repairState now th)) = false
     <-> snd (repairState now th) = th)
    /\ (fst (fst (repairState now th)) = false ->
        snd (fst (repairState now th)) = []).
Proof.
  intros TMetadata th now Hmax. split; [split |].
  - intro H. now rewrite (RepairFacts.repairState_false now th H).
  - now apply RepairFacts.repairState_unchanged.
  - intro H. now rewrite (RepairFacts.repairState_false now th H).
Qed.

Lemma repairState_answers_false_iff_nothing_changed_witness :
  fst (fst (repairState 2000 throttle_after_request_1)) = false
  <-> snd (repairState 2000 throttle_after_request_1)
      = throttle_after_request_1.
Proof.
  apply (@repairState_answers_false_iff_nothing_changed unit
           throttle_after_request_1 2000).
  vm_compute. discriminate.
Defined.

(** X16.  [validateState] answers [false] on an engine that was left
    idle: once an admitted request is older than twice the retention
    time and no call has pruned the ledger since, the check fails,
    although nothing is wrong with the engine; [repairState] at that
    moment makes it pass again. *)
Theorem validateState_fails_on_an_idle_engine :
  forall (TMetadata : Type) (th th' : LLMThrottle.t TMetadata)
         (requestId : JSString.t) (estimatedTokens : Q)
         (metadata : option TMetadata) (t0 now : Q),
    wellFormed th ->
    consume requestId estimatedTokens metadata t0 th = (Ok true, th') ->
    t0 + historyRetentionMs th * 2 < now ->
    fst (validateState now th') = false
    /\ fst (validateState now (snd (repairState now th'))) = true.
Proof.
  intros TMetadata th th' requestId estimatedTokens metadata t0 now
         Hwf Hcons Hidle.
  assert (Hwf' : wellFormed th').
  { replace th' with (snd (consume requestId estimatedTokens metadata t0 th))
      by now rewrite Hcons.
    now apply LLMThrottleFacts.consume_wellFormed. }
  split; [| now apply RepairFacts.repaired_validateState].
  apply LLMThrottleFacts.consume_true_inv in Hcons. subst th'.
  apply RepairFacts.validateState_invalid_record
    with (record := recordOf t0 requestId estimatedTokens metadata
                      (compensationDebt th)).
  - rewrite LLMThrottleFacts.admitted_history by exact Hwf.
    apply in_or_app. right. now left.
  - unfold recordIsValid.
    destruct (LLMThrottleFacts.cleanupHistory_frame t0
                (admitted t0 requestId estimatedTokens metadata th))
      as (_ & _ & _ & -> & _).
    cbn [recordOf ConsumptionRecord.timestamp admitted historyRetentionMs
         set_consumptionHistory set_compensationDebt set_tpmBucket
         set_rpmBucket].
    assert (E : Qle_bool (now - historyRetentionMs th * 2) t0 = false)
      by (apply Qle_bool_false; lra).
    now rewrite E.
Qed.

Lemma validateState_fails_on_an_idle_engine_witness :
  fst (validateState 121001 throttle_after_request_1) = false.
Proof.
  refine (proj1 (@validateState_fails_on_an_idle_engine unit throttle_60_1000
                   throttle_after_request_1 (JSString.ofAscii "request-1") 500 None 1000 121001
                   throttle_60_1000_wellFormed _ _)).
  - vm_compute. reflexivity.
  - vm_compute. reflexivity.
Defined.

(** ** The compensation debt *)

Module DebtFacts.
Import LLMThrottle EngineNotions.

Section Facts.

Variable TMetadata : Type.
Local Abbreviation engine := (LLMThrottle.t TMetadata).

Lemma new_debt (config : LLMThrottleConfig.t) (now : Q) (th : engine) :
  LLMThrottle.new TMetadata config now = Ok th ->
  compensationDebt th = 0
  /\ consumptionHistory th = []
  /\ adjustmentFailureStrategy th
     = match LLMThrottleConfig.adjustmentFailureStrategy config with
       | Some s => s
       | None => warn
       end.
Proof.
  unfold LLMThrottle.new.
  destruct (Validation.errors config); [| discriminate].
  destruct (TokenBucket.new _ _ now); [| discriminate].
  destruct (TokenBucket.new _ _ now); [| discriminate].
  intro H; injection H as <-. cbn. auto.
Qed.

(** What one call does to the debt; the strategy is never changed. *)
Lemma step_debt now (c : Call TMetadata) (th : engine) :
  adjustmentFailureStrategy (step now c th) = adjustmentFailureStrategy th
  /\ (compensationDebt (step now c th) = compensationDebt th
      \/ compensationDebt (step now c th) = 0
      \/ (adjustmentFailureStrategy th = compensate
          /\ exists d, 0 < d
             /\ compensationDebt (step now c th) = compensationDebt th + d)
      \/ (exists snapshot,
             c = call_restoreFromSnapshot TMetadata snapshot
             /\ compensationDebt (step now c th)
                = StateSnapshot.compensationDebt snapshot)).
Proof.
  destruct c; cbn [step].
  - destruct (Qlt_le_dec estimatedTokens 0) as [Hn|Hp].
    + rewrite LLMThrottleFacts.canProcess_negative by assumption. auto.
    + rewrite LLMThrottleFacts.canProcess_eq by assumption. cbn. auto.
  - destruct (requestIdIsEmpty requestId) eqn:Hid.
    + rewrite LLMThrottleFacts.consume_empty_id by assumption. auto.
    + destruct (Qlt_le_dec (estimatedTokens + compensationDebt th) 0)
        as [Hn|Hp].
      * rewrite LLMThrottleFacts.consume_negative_total by assumption. auto.
      * rewrite LLMThrottleFacts.consume_eq by assumption.
        destruct (_ && _); cbn [snd]; [| cbn; auto].
        destruct (LLMThrottleFacts.cleanupHistory_frame now
                    (admitted now requestId estimatedTokens metadata th))
          as (_ & _ & -> & _ & _ & _ & ->).
        cbn. auto.
  - destruct (Qlt_le_dec actualTokens 0) as [Hn|Hp].
    + rewrite LLMThrottleFacts.adjustConsumption_negative by assumption. auto.
    + destruct (Array_find (hasRequestId requestId) (consumptionHistory th))
        as [[i x] |] eqn:Ef.
      * apply Array_find_some in Ef.
        destruct Ef as (l1 & l2 & Hh & _ & Hx & Hl1).
        rewrite (@LLMThrottleFacts.adjustConsumption_eq _ requestId
                   actualTokens now th l1 x l2) by assumption.
        destruct (Qlt_bool 0 _) eqn:E0.
        -- destruct (Qle_bool _ _); [cbn; auto |].
           destruct (adjustmentFailureStrategy th) eqn:Es; cbn [snd];
             try (cbn; rewrite ?Es; now auto).
           cbn [adjustmentFailureStrategy compensationDebt
                set_consumptionHistory log set_compensationDebt set_tpmBucket].
           split; [exact Es |]. right. right. left.
           split; [reflexivity |]. qprop.
           exists (actualTokens - ConsumptionRecord.tokens x).
           split; [exact E0 | reflexivity].
        -- destruct (Qlt_bool _ 0); cbn; auto.
      * apply Array_find_none in Ef.
        rewrite LLMThrottleFacts.adjustConsumption_unknown by assumption. auto.
  - unfold getMetrics.
    destruct (LLMThrottleFacts.cleanupHistory_frame now th)
      as (_ & _ & Hd & _ & _ & _ & Hs).
    cbn. auto.
  - unfold getConsumptionHistory. cbn [snd].
    destruct (LLMThrottleFacts.cleanupHistory_frame now th)
      as (_ & _ & -> & _ & _ & _ & ->).
    auto.
  - cbn. auto.
  - unfold setHistoryRetention. destruct (Qle_bool ms 0); cbn; auto.
  - unfold setMaxHistoryRecords. destruct (count <=? 0)%Z; cbn [snd]; auto.
    destruct (LLMThrottleFacts.cleanupHistory_frame now
                (set_maxHistoryRecords count th))
      as (_ & _ & -> & _ & _ & _ & ->).
    cbn. auto.
  - cbn. auto.
  - unfold restoreFromSnapshot.
    destruct (TokenBucket.restoreState (StateSnapshot.rpmBucketState snapshot)
                (rpmBucket th)) as [[u | e] b1]; [| cbn; auto].
    cbn [tpmBucket set_rpmBucket].
    destruct (TokenBucket.restoreState (StateSnapshot.tpmBucketState snapshot)
                (tpmBucket th)) as [[u' | e] b2]; [| cbn; auto].
    cbn [snd adjustmentFailureStrategy compensationDebt log
         set_consumptionHistory set_compensationDebt set_tpmBucket
         set_rpmBucket].
    split; [reflexivity |]. right. right. right.
    exists snapshot. auto.
Qed.

Lemma run_strategy (calls : list (Q * Call TMetadata)) :
  forall th : engine,
    adjustmentFailureStrategy (run calls th) = adjustmentFailureStrategy th.
Proof.
  induction calls as [| [now c] rest IH]; intro th; cbn [run];
    [reflexivity |].
  rewrite IH. apply step_debt.
Qed.

Lemma run_debt_nonneg (calls : list (Q * Call TMetadata)) :
  forall th : engine,
    0 <= compensationDebt th ->
    Forall (fun call => restoresDebt (Qle 0) (snd call)) calls ->
    0 <= compensationDebt (run calls th).
Proof.
  induction calls as [| [now c] rest IH]; intros th H0 Hall; cbn [run];
    [exact H0 |].
  inversion Hall as [| ? ? Hc Hrest]; subst. cbn [snd] in Hc.
  apply IH; [| exact Hrest].
  destruct (step_debt now c th)
    as (_ & [-> | [-> | [(_ & d & Hd & ->) | (s & -> & ->)]]]);
    try lra. exact Hc.
Qed.

Lemma run_debt_zero (calls : list (Q * Call TMetadata)) :
  forall th : engine,
    adjustmentFailureStrategy th <> compensate ->
    compensationDebt th = 0 ->
    Forall (fun call => restoresDebt (eq 0) (snd call)) calls ->
    compensationDebt (run calls th) = 0.
Proof.
  induction calls as [| [now c] rest IH]; intros th Hs H0 Hall; cbn [run];
    [exact H0 |].
  inversion Hall as [| ? ? Hc Hrest]; subst. cbn [snd] in Hc.
  destruct (step_debt now c th) as (Es & Hd).
  apply IH; [now rewrite Es | | exact Hrest].
  destruct Hd as [-> | [-> | [(Hcomp & _) | (s & -> & ->)]]];
    auto; contradiction.
Qed.

End Facts.

End DebtFacts.

(** X17.  On an engine built by the constructor the compensation debt
    is never negative, whatever calls are made, as long as no restored
    snapshot carries a negative debt. *)
Theorem compensationDebt_is_never_negative :
  forall (TMetadata : Type) (config : LLMThrottleConfig.t) (t0 : Q)
         (th : LLMThrottle.t TMetadata)
         (calls : list (Q * Call TMetadata)),
    LLMThrottle.new TMetadata config t0 = Ok th ->
    Forall (fun call => restoresDebt (Qle 0) (snd call)) calls ->
    0 <= compensationDebt (run calls th).
Proof.
  intros TMetadata config t0 th calls Hnew Hcalls.
  apply DebtFacts.run_debt_nonneg; [| exact Hcalls].
  destruct (DebtFacts.new_debt _ _ Hnew) as (-> & _). lra.
Qed.

Lemma compensationDebt_is_never_negative_witness :
  0 <= compensationDebt
         (run [(0, call_consume (JSString.ofAscii "test-1") 100 None);
               (0, call_adjustConsumption unit (JSString.ofAscii "test-1") 150)]
              (throttle_10_100 compensate)).
Proof.
  apply (@compensationDebt_is_never_negative unit (config_10_100 compensate) 0).
  - apply throttle_10_100_new.
  - repeat constructor.
Defined.

(** X18.  Among the calls [canProcess], [consume], [adjustConsumption],
    [getMetrics], [getConsumptionHistory], [reset],
    [setHistoryRetention], [setMaxHistoryRecords], [createSnapshot] and
    [restoreFromSnapshot], debt is incurred under the [compensate]
    strategy only: on an engine built with another strategy (or with
    none, which means [warn]) the debt stays 0 after every sequence of
    these calls in which no restored snapshot carries a debt.
    [initialize], which copies the debt it finds in the storage whatever
    the strategy, is not one of these calls. *)
Theorem debt_is_incurred_under_compensate_only :
  forall (TMetadata : Type) (config : LLMThrottleConfig.t) (t0 : Q)
         (th : LLMThrottle.t TMetadata)
         (calls : list (Q * Call TMetadata)),
    LLMThrottle.new TMetadata config t0 = Ok th ->
    LLMThrottleConfig.adjustmentFailureStrategy config <> Some compensate ->
    Forall (fun call => restoresDebt (eq 0) (snd call)) calls ->
    compensationDebt (run calls th) = 0.
Proof.
  intros TMetadata config t0 th calls Hnew Hs Hcalls.
  destruct (DebtFacts.new_debt _ _ Hnew) as (Hd & _ & Hstrategy).
  apply DebtFacts.run_debt_zero; [| exact Hd | exact Hcalls].
  rewrite Hstrategy.
  destruct (LLMThrottleConfig.adjustmentFailureStrategy config) as [s |];
    [| discriminate].
  intro C. apply Hs. now rewrite C.
Qed.

Lemma debt_is_incurred_under_compensate_only_witness :
  compensationDebt
    (run [(0, call_consume (JSString.ofAscii "test-1") 100 None);
          (0, call_adjustConsumption unit (JSString.ofAscii "test-1") 150)]
         (throttle_10_100 warn)) = 0.
Proof.
  apply (@debt_is_incurred_under_compensate_only unit (config_10_100 warn) 0).
  - apply throttle_10_100_new.
  - discriminate.
  - repeat constructor.
Defined.

(** ** Snapshots *)

Module SnapshotFacts.
Import LLMThrottle EngineNotions.

Lemma sameShape_refl b : sameShape b b.
Proof. unfold sameShape. auto. Qed.

Lemma sameShape_trans b1 b2 b3 :
  sameShape b1 b2 -> sameShape b2 b3 -> sameShape b1 b3.
Proof. unfold sameShape. intuition congruence. Qed.

Lemma refill_sameShape now b : sameShape (TokenBucket.refill now b) b.
Proof.
  unfold sameShape.
  now rewrite TokenBucketFacts.refill_capacity,
    TokenBucketFacts.refill_refillRate, TokenBucketFacts.refill_storage.
Qed.

Lemma set_available_sameShape v b :
  sameShape (TokenBucket.set_available v b) b.
Proof. unfold sameShape. auto. Qed.

Lemma persistState_sameShape now b :
  sameShape (TokenBucket.persistState now b) b.
Proof.
  unfold TokenBucket.persistState, TokenBucket.getState.
  destruct (negb _); cbn [snd];
    [apply sameShape_refl | apply refill_sameShape].
Qed.

Lemma reset_sameShape now b : sameShape (TokenBucket.reset now b) b.
Proof.
  unfold TokenBucket.reset.
  eapply sameShape_trans; [apply persistState_sameShape |].
  unfold sameShape. auto.
Qed.

Lemma restoreState_sameShape state b :
  sameShape (snd (TokenBucket.restoreState state b)) b.
Proof.
  unfold TokenBucket.restoreState.
  destruct (_ || _); [apply sameShape_refl |].
  destruct (negb _); [apply sameShape_refl |].
  unfold sameShape. auto.
Qed.

(** A state that fits the bucket is restored. *)
Lemma restoreState_fits state b :
  0 <= TokenBucketState.available state ->
  TokenBucketState.available state <= TokenBucketState.capacity state ->
  TokenBucketState.capacity state = TokenBucket._capacity b ->
  TokenBucket.restoreState state b
  = (Ok tt,
     TokenBucket.set_lastRefill (TokenBucketState.lastRefill state)
       (TokenBucket.set_available (TokenBucketState.available state) b)).
Proof.
  intros H0 H1 Hc. unfold TokenBucket.restoreState.
  assert (E0 : Qlt_bool (TokenBucketState.available state) 0 = false)
    by now qlt_false.
  assert (E1 : Qlt_bool (TokenBucketState.capacity state)
                 (TokenBucketState.available state) = false)
    by now qlt_false.
  assert (E2 : Qeq_bool (TokenBucketState.capacity state)
                 (TokenBucket._capacity b) = true)
    by (rewrite Hc; apply Qeq_bool_refl).
  now rewrite E0, E1, E2.
Qed.

Section Facts.

Variable TMetadata : Type.
Local Abbreviation engine := (LLMThrottle.t TMetadata).

Create HintDb shape.

#[local] Hint Resolve sameShape_refl refill_sameShape set_available_sameShape
  persistState_sameShape reset_sameShape restoreState_sameShape : shape.

(** No call changes the capacity, the rate or the storage of a bucket. *)
Lemma step_sameShape now (c : Call TMetadata) (th : engine) :
  sameShape (rpmBucket (step now c th)) (rpmBucket th)
  /\ sameShape (tpmBucket (step now c th)) (tpmBucket th).
Proof.
  destruct c; cbn [step].
  - destruct (Qlt_le_dec estimatedTokens 0) as [Hn|Hp].
    + rewrite LLMThrottleFacts.canProcess_negative by assumption.
      auto with shape.
    + rewrite LLMThrottleFacts.canProcess_eq by assumption. cbn.
      auto with shape.
  - destruct (requestIdIsEmpty requestId) eqn:Hid.
    + rewrite LLMThrottleFacts.consume_empty_id by assumption.
      auto with shape.
    + destruct (Qlt_le_dec (estimatedTokens + compensationDebt th) 0)
        as [Hn|Hp].
      * rewrite LLMThrottleFacts.consume_negative_total by assumption.
        auto with shape.
      * rewrite LLMThrottleFacts.consume_eq by assumption.
        destruct (_ && _); cbn [snd]; [| cbn; auto with shape].
        destruct (LLMThrottleFacts.cleanupHistory_frame now
                    (admitted now requestId estimatedTokens metadata th))
          as (-> & -> & _).
        cbn. split;
          (eapply sameShape_trans;
           [apply set_available_sameShape | apply refill_sameShape]).
  - destruct (Qlt_le_dec actualTokens 0) as [Hn|Hp].
    + rewrite LLMThrottleFacts.adjustConsumption_negative by assumption.
      auto with shape.
    + destruct (Array_find (hasRequestId requestId) (consumptionHistory th))
        as [[i x] |] eqn:Ef.
      * apply Array_find_some in Ef.
        destruct Ef as (l1 & l2 & Hh & _ & Hx & Hl1).
        rewrite (@LLMThrottleFacts.adjustConsumption_eq _ requestId
                   actualTokens now th l1 x l2) by assumption.
        destruct (Qlt_bool 0 _).
        -- destruct (Qle_bool _ _).
           ++ cbn. split; [auto with shape |].
              eapply sameShape_trans;
                [apply set_available_sameShape | apply refill_sameShape].
           ++ destruct (adjustmentFailureStrategy th); cbn; auto with shape.
        -- destruct (Qlt_bool _ 0); cbn; [| auto with shape].
           split; [auto with shape |].
           eapply sameShape_trans;
             [apply persistState_sameShape | apply set_available_sameShape].
      * apply Array_find_none in Ef.
        rewrite LLMThrottleFacts.adjustConsumption_unknown by assumption.
        auto with shape.
  - unfold getMetrics.
    destruct (LLMThrottleFacts.cleanupHistory_frame now th)
      as (Hr & Ht & _).
    cbn. rewrite Hr, Ht, !TokenBucketFacts.refill_idempotent.
    auto with shape.
  - unfold getConsumptionHistory. cbn [snd].
    destruct (LLMThrottleFacts.cleanupHistory_frame now th)
      as (-> & -> & _).
    auto with shape.
  - cbn. auto with shape.
  - unfold setHistoryRetention. destruct (Qle_bool ms 0); cbn; auto with shape.
  - unfold setMaxHistoryRecords.
    destruct (count <=? 0)%Z; cbn [snd]; [auto with shape |].
    destruct (LLMThrottleFacts.cleanupHistory_frame now
                (set_maxHistoryRecords count th))
      as (-> & -> & _).
    cbn. auto with shape.
  - cbn. auto with shape.
  - unfold restoreFromSnapshot.
    pose proof (restoreState_sameShape
                  (StateSnapshot.rpmBucketState snapshot) (rpmBucket th)) as R1.
    pose proof (restoreState_sameShape
                  (StateSnapshot.tpmBucketState snapshot) (tpmBucket th)) as R2.
    destruct (TokenBucket.restoreState (StateSnapshot.rpmBucketState snapshot)
                (rpmBucket th)) as [[u | e] b1]; cbn [snd] in R1;
      [| cbn; auto with shape].
    cbn [tpmBucket set_rpmBucket].
    destruct (TokenBucket.restoreState (StateSnapshot.tpmBucketState snapshot)
                (tpmBucket th)) as [[u' | e] b2]; cbn [snd] in R2;
      cbn; auto with shape.
Qed.

Lemma run_sameShape (calls : list (Q * Call TMetadata)) :
  forall th : engine,
    sameShape (rpmBucket (run calls th)) (rpmBucket th)
    /\ sameShape (tpmBucket (run calls th)) (tpmBucket th).
Proof.
  induction calls as [| [now c] rest IH]; intro th; cbn [run];
    [auto with shape |].
  destruct (IH (step now c th)) as [I1 I2].
  destruct (step_sameShape now c th) as [S1 S2].
  split; eapply sameShape_trans; eassumption.
Qed.

(** A bucket is its five fields. *)
Lemma restored_bucket (b0 b : TokenBucket.t) :
  sameShape b b0 ->
  TokenBucket.set_lastRefill (TokenBucket._lastRefill b0)
    (TokenBucket.set_available (TokenBucket._available b0) b)
  = b0.
Proof.
  intros (Hc & Hr & Hs). destruct b0, b. cbn in *. now subst.
Qed.

End Facts.

End SnapshotFacts.

(** X19.  A snapshot can always be restored into the engine it was
    taken from, whatever calls were made in between: both buckets get
    back the level and the refill time they had when the snapshot was
    taken, the debt is the one of the snapshot, and the ledger is
    emptied (the [historyCount] of the snapshot is not used). *)
Theorem snapshot_restores_levels_and_debt_and_empties_the_ledger :
  forall (TMetadata : Type) (th : LLMThrottle.t TMetadata) (now : Q)
         (calls : list (Q * Call TMetadata)),
    wellFormed th ->
    let snapshot := fst (createSnapshot now th) in
    let later := run calls (snd (createSnapshot now th)) in
    fst (restoreFromSnapshot snapshot later) = Ok tt
    /\ rpmBucket (snd (restoreFromSnapshot snapshot later))
       = TokenBucket.refill now (rpmBucket th)
    /\ tpmBucket (snd (restoreFromSnapshot snapshot later))
       = TokenBucket.refill now (tpmBucket th)
    /\ compensationDebt (snd (restoreFromSnapshot snapshot later))
       = compensationDebt th
    /\ consumptionHistory (snd (restoreFromSnapshot snapshot later)) = []
    /\ StateSnapshot.historyCount snapshot
       = Z.of_nat (List.length (consumptionHistory th)).
Proof.
  intros TMetadata th now calls (Hr & Ht & _) snapshot later.
  pose proof (TokenBucketFacts.refill_consistent now Hr) as (R0 & R1 & _).
  pose proof (TokenBucketFacts.refill_consistent now Ht) as (T0 & T1 & _).
  destruct (SnapshotFacts.run_sameShape calls (snd (createSnapshot now th)))
    as [Sr St].
  fold later in Sr, St.
  change (rpmBucket (snd (createSnapshot now th)))
    with (TokenBucket.refill now (rpmBucket th)) in Sr.
  change (tpmBucket (snd (createSnapshot now th)))
    with (TokenBucket.refill now (tpmBucket th)) in St.
  assert (Er : TokenBucket.restoreState
                 (StateSnapshot.rpmBucketState snapshot) (rpmBucket later)
               = (Ok tt, TokenBucket.refill now (rpmBucket th))).
  { rewrite SnapshotFacts.restoreState_fits.
    - f_equal. now apply SnapshotFacts.restored_bucket.
    - exact R0.
    - exact R1.
    - symmetry. apply Sr. }
  assert (Et : TokenBucket.restoreState
                 (StateSnapshot.tpmBucketState snapshot) (tpmBucket later)
               = (Ok tt, TokenBucket.refill now (tpmBucket th))).
  { rewrite SnapshotFacts.restoreState_fits.
    - f_equal. now apply SnapshotFacts.restored_bucket.
    - exact T0.
    - exact T1.
    - symmetry. apply St. }
  unfold restoreFromSnapshot. rewrite Er.
  cbn [tpmBucket set_rpmBucket]. rewrite Et.
  cbn. auto 10.
Qed.

Lemma snapshot_restores_levels_and_debt_and_empties_the_ledger_witness :
  consumptionHistory
    (snd (restoreFromSnapshot
            (fst (createSnapshot 2000 throttle_after_request_1))
            (run [(3000, call_consume (JSString.ofAscii "request-2") 100 None)]
               (snd (createSnapshot 2000 throttle_after_request_1))))) = [].
Proof.
  exact (proj1 (proj2 (proj2 (proj2 (proj2
    (@snapshot_restores_levels_and_debt_and_empties_the_ledger unit
       throttle_after_request_1 2000
       [(3000, call_consume (JSString.ofAscii "request-2") 100 None)]
       throttle_after_request_1_wellFormed)))))).
Defined.

(** ** The constructor *)

Module ConstructorFacts.
Import LLMThrottle EngineNotions.

Lemma orQ_positive (o : option Q) (d : Q) :
  (forall v, o = Some v -> 0 < v) -> orQ o d = orDefault o d.
Proof.
  intro H. destruct o as [v |]; [| reflexivity]. cbn.
  specialize (H v eq_refl).
  assert (E : Qeq_bool v 0 = false)
    by (apply Qeq_bool_false; intro C; rewrite C in H; lra).
  now rewrite E.
Qed.

Lemma orZ_positive (o : option Z) (d : Z) :
  (forall v, o = Some v -> (0 < v)%Z) -> orZ o d = orDefault o d.
Proof.
  intro H. destruct o as [v |]; [| reflexivity]. cbn.
  specialize (H v eq_refl).
  assert (E : (v =? 0)%Z = false) by (apply Z.eqb_neq; lia).
  now rewrite E.
Qed.

Lemma per_second_positive (perMinute : Q) : 0 < perMinute -> 0 < perMinute / 60.
Proof. intro H. apply Qlt_shift_div_l; lra. Qed.

(** A full bucket of positive capacity and rate is accepted. *)
Lemma TokenBucket_new_full (capacity rate now : Q) (storage : bool) :
  0 < capacity -> 0 < rate ->
  TokenBucket.new (TokenBucketConfig.mk capacity rate (Some capacity))
                  storage now
  = Ok (TokenBucket.mk capacity capacity rate now storage).
Proof.
  intros Hc Hr. unfold TokenBucket.new, TokenBucket.validateConfig.
  cbn [TokenBucketConfig.capacity TokenBucketConfig.refillRate
       TokenBucketConfig.initialTokens].
  assert (E1 : Qle_bool capacity 0 = false) by now qle_false.
  assert (E2 : Qle_bool rate 0 = false) by now qle_false.
  assert (E3 : Qlt_bool capacity 0 = false) by (qlt_false; lra).
  assert (E4 : Qlt_bool capacity capacity = false) by (qlt_false; lra).
  now rewrite E1, E2, E3, E4.
Qed.

Lemma valid_no_errors (config : LLMThrottleConfig.t) :
  validConfig config -> Validation.errors config = [].
Proof.
  intros (Hr & Ht & Hbr & Hbt & Hret & Hmax & Hwin).
  unfold Validation.errors, Validation.burstBelow.
  assert (E1 : Qlt_bool 0 (LLMThrottleConfig.rpm config) = true)
    by now qlt_true.
  assert (E2 : Qlt_bool 0 (LLMThrottleConfig.tpm config) = true)
    by now qlt_true.
  rewrite E1, E2.
  destruct (LLMThrottleConfig.burstRPM config) as [br |];
    [assert (E3 : Qlt_bool br (LLMThrottleConfig.rpm config) = false)
       by (qlt_false; now apply Hbr); rewrite E3 |];
    (destruct (LLMThrottleConfig.burstTPM config) as [bt |];
     [assert (E4 : Qlt_bool bt (LLMThrottleConfig.tpm config) = false)
        by (qlt_false; now apply Hbt); rewrite E4 |];
     (destruct (LLMThrottleConfig.historyRetentionMs config) as [r |];
      [assert (E5 : Qle_bool r 0 = false)
         by (qle_false; now apply Hret); rewrite E5 |];
      (destruct (LLMThrottleConfig.maxHistoryRecords config) as [m |];
       [assert (E6 : (m <=? 0)%Z = false)
          by (apply Z.leb_gt; now apply Hmax); rewrite E6 |];
       (destruct (LLMThrottleConfig.efficiencyWindowSize config) as [w |];
        [assert (E7 : (w <=? 0)%Z = false)
           by (apply Z.leb_gt; now apply Hwin); rewrite E7 |];
        reflexivity)))).
Qed.

Lemma no_errors_valid (config : LLMThrottleConfig.t) :
  Validation.errors config = [] -> validConfig config.
Proof.
  intro E. unfold Validation.errors in E.
  apply LLMThrottleFacts.rule_nil in E; destruct E as [Hr E].
  apply LLMThrottleFacts.rule_nil in E; destruct E as [Ht E].
  apply LLMThrottleFacts.rule_nil in E; destruct E as [Hbr E].
  apply LLMThrottleFacts.rule_nil in E; destruct E as [Hbt E].
  apply LLMThrottleFacts.rule_nil in E; destruct E as [Hret E].
  apply LLMThrottleFacts.rule_nil in E; destruct E as [Hmax E].
  rewrite <- (app_nil_r (Validation.rule _ _)) in E.
  apply LLMThrottleFacts.rule_nil in E; destruct E as [Hwin _].
  apply negb_false_iff in Hr, Ht. unfold Validation.burstBelow in *.
  unfold validConfig. qprop.
  split; [exact Hr |]. split; [exact Ht |].
  split; [intros b Hb; rewrite Hb in Hbr; now qprop |].
  split; [intros b Hb; rewrite Hb in Hbt; now qprop |].
  split; [intros r Hb; rewrite Hb in Hret; now qprop |].
  split; [intros m Hb; rewrite Hb in Hmax; now apply Z.leb_gt in Hmax |].
  intros w Hb; rewrite Hb in Hwin; now apply Z.leb_gt in Hwin.
Qed.

Lemma new_valid (TMetadata : Type) (config : LLMThrottleConfig.t) (now : Q) :
  validConfig config ->
  LLMThrottle.new TMetadata config now = Ok (initialEngine TMetadata config now).
Proof.
  intro Hv. pose proof Hv as (Hr & Ht & Hbr & Hbt & Hret & Hmax & Hwin).
  unfold LLMThrottle.new. rewrite (valid_no_errors Hv).
  assert (Hcr : forall v, LLMThrottleConfig.burstRPM config = Some v -> 0 < v)
    by (intros v Hb; specialize (Hbr v Hb); lra).
  assert (Hct : forall v, LLMThrottleConfig.burstTPM config = Some v -> 0 < v)
    by (intros v Hb; specialize (Hbt v Hb); lra).
  rewrite (orQ_positive _ Hcr), (orQ_positive _ Hct),
    (orQ_positive _ Hret), (orZ_positive _ Hmax), (orZ_positive _ Hwin).
  rewrite !TokenBucket_new_full; try now apply per_second_positive.
  - reflexivity.
  - destruct (LLMThrottleConfig.burstTPM config) as [v |]; cbn; auto.
  - destruct (LLMThrottleConfig.burstRPM config) as [v |]; cbn; auto.
Qed.

End ConstructorFacts.

(** X20.  From a configuration that passes the rules, the constructor
    builds an engine with both buckets full (capacity the burst value
    when one is given, the base rate otherwise; refill rate the base
    rate per second), an empty ledger, no debt, the defaults 60000,
    10000, 50 and [warn] for what the configuration leaves out, and one
    logged warning per advisory rule that is violated.  The buckets
    never refuse their configuration. *)
Theorem constructor_builds_full_buckets_from_a_valid_configuration :
  forall (TMetadata : Type) (config : LLMThrottleConfig.t) (now : Q),
    validConfig config ->
    LLMThrottle.new TMetadata config now
    = Ok (initialEngine TMetadata config now).
Proof.
  intros TMetadata config now Hv. now apply ConstructorFacts.new_valid.
Qed.

Lemma constructor_builds_full_buckets_from_a_valid_configuration_witness :
  LLMThrottle.new unit config_max_10 0
  = Ok (initialEngine unit config_max_10 0).
Proof.
  apply constructor_builds_full_buckets_from_a_valid_configuration.
  unfold validConfig. cbn.
  split; [reflexivity |]. split; [reflexivity |].
  split; [discriminate |]. split; [discriminate |].
  split; [discriminate |]. split; [| discriminate].
  intros m H. injection H as <-. reflexivity.
Defined.

(** X21.  The constructor fails exactly on the configurations that
    violate a rule, and then with the list of all violated rules; it
    never fails with an error of a bucket. *)
Theorem constructor_rejects_exactly_the_invalid_configurations :
  forall (TMetadata : Type) (config : LLMThrottleConfig.t) (now : Q),
    (validConfig config <->
     exists th, LLMThrottle.new TMetadata config now = Ok th)
    /\ (forall e, LLMThrottle.new TMetadata config now = Throw e ->
        e = Error_configurationInvalid (Validation.errors config)
        /\ Validation.errors config <> []).
Proof.
  intros TMetadata config now. split; [split |].
  - intro Hv. eexists. now apply ConstructorFacts.new_valid.
  - intros [th Hth]. apply ConstructorFacts.no_errors_valid.
    unfold LLMThrottle.new in Hth.
    destruct (Validation.errors config); [reflexivity | discriminate].
  - intros e He.
    destruct (Validation.errors config) as [| m rest] eqn:E.
    + apply ConstructorFacts.no_errors_valid in E.
      rewrite (ConstructorFacts.new_valid TMetadata now E) in He.
      discriminate.
    + unfold LLMThrottle.new in He. rewrite E in He.
      injection He as <-. split; [reflexivity | discriminate].
Qed.

Lemma constructor_rejects_exactly_the_invalid_configurations_witness :
  Error_configurationInvalid
    ["RPM must be greater than 0"%string;
     "TPM must be greater than 0"%string]
  = Error_configurationInvalid (Validation.errors config_0_0)
  /\ Validation.errors config_0_0 <> [].
Proof.
  apply (proj2 (@constructor_rejects_exactly_the_invalid_configurations
                  unit config_0_0 0)).
  reflexivity.
Defined.

(** ** The lock *)

Module AsyncLockFacts.
Import AsyncLock.

Lemma run_cons (o : Op) (rest : list Op) (l : AsyncLock.t) :
  run (o :: rest) l
  = (fst (step o l) ++ fst (run rest (snd (step o l))),
     snd (run rest (snd (step o l)))).
Proof.
  cbn [run]. destruct (step o l) as [s l']. cbn [fst snd].
  destruct (run rest l') as [s' l'']. reflexivity.
Qed.

Lemma granted_app (s1 s2 : list Settled) :
  granted (s1 ++ s2) = granted s1 ++ granted s2.
Proof. unfold granted. apply flat_map_app. Qed.

Lemma run_fifo (ops : list Op) :
  forall l : AsyncLock.t,
    settledInv l ->
    Forall (fun o => isClear o = false) ops ->
    queue l ++ acquirers ops
    = granted (fst (run ops l)) ++ queue (snd (run ops l))
    /\ settledInv (snd (run ops l))
    /\ Forall (fun s => exists w, s = resolved w) (fst (run ops l)).
Proof.
  induction ops as [| o rest IH]; intros l Hinv Hall.
  - cbn. rewrite app_nil_r. auto.
  - inversion Hall as [| ? ? Ho Hrest]; subst.
    rewrite run_cons. cbn [fst snd]. rewrite granted_app.
    destruct l as [lk q]. unfold settledInv in Hinv. cbn in Hinv.
    destruct o as [w | |]; [| | discriminate].
    + destruct lk.
      * specialize (IH (mk true (q ++ [w]))).
        destruct IH as (I1 & I2 & I3);
          [intro C; discriminate | exact Hrest |].
        cbn [step acquire locked queue negb fst snd granted flat_map
             acquirers app] in *.
        rewrite <- I1, <- app_assoc. auto.
      * rewrite (Hinv eq_refl) in *.
        specialize (IH (mk true [])).
        destruct IH as (I1 & I2 & I3);
          [intro C; discriminate | exact Hrest |].
        cbn [step acquire locked queue negb fst snd granted flat_map
             acquirers app] in *.
        rewrite <- I1. split; [reflexivity |]. split; [exact I2 |].
        constructor; [now exists w | exact I3].
    + destruct lk.
      * destruct q as [| next q'].
        -- specialize (IH (mk false [])).
           destruct IH as (I1 & I2 & I3);
             [intro C; reflexivity | exact Hrest |].
           cbn [step release locked queue negb fst snd granted flat_map
                acquirers app] in *.
           auto.
        -- specialize (IH (mk true q')).
           destruct IH as (I1 & I2 & I3);
             [intro C; discriminate | exact Hrest |].
           cbn [step release locked queue negb fst snd granted flat_map
                acquirers app] in *.
           rewrite <- I1. split; [reflexivity |]. split; [exact I2 |].
           constructor; [now exists next | exact I3].
      * rewrite (Hinv eq_refl) in *.
        specialize (IH (mk false [])).
        destruct IH as (I1 & I2 & I3);
          [intro C; reflexivity | exact Hrest |].
        cbn [step release locked queue negb fst snd granted flat_map
             acquirers app] in *.
        auto.
Qed.

Lemma run_holders (ops : list Op) :
  forall l : AsyncLock.t,
    Forall (fun o => isClear o = false) ops ->
    (List.length (granted (fst (run ops l))) + holders l
     = acceptedReleases ops l + holders (snd (run ops l)))%nat.
Proof.
  induction ops as [| o rest IH]; intros l Hall.
  - reflexivity.
  - inversion Hall as [| ? ? Ho Hrest]; subst.
    rewrite run_cons. cbn [fst snd acceptedReleases].
    rewrite granted_app, length_app.
    specialize (IH (snd (step o l)) Hrest).
    destruct l as [lk q].
    destruct o as [w | |]; [| | discriminate].
    + destruct lk; cbn in *; lia.
    + destruct lk; [destruct q as [| next q'] |]; cbn in *; lia.
Qed.

End AsyncLockFacts.

(** X22.  The lock is handed over in arrival order and loses nobody:
    after any sequence of [acquire] and [release] calls on a new lock,
    the callers of [acquire], in call order, are those already granted
    the lock, in the order they were granted it, followed by those
    still queued; nobody is rejected, and a [clear] at that point
    rejects exactly the callers not yet granted, in call order. *)
Theorem lock_is_granted_in_arrival_order :
  forall ops : list AsyncLock.Op,
    Forall (fun o => isClear o = false) ops ->
    let settled := fst (AsyncLock.run ops AsyncLock.new) in
    let l := snd (AsyncLock.run ops AsyncLock.new) in
    acquirers ops = granted settled ++ AsyncLock.queue l
    /\ Forall (fun s => exists w, s = AsyncLock.resolved w) settled
    /\ (AsyncLock.isLocked l = false -> AsyncLock.getQueueLength l = 0%Z)
    /\ fst (AsyncLock.clear l)
       = map AsyncLock.rejected
           (skipn (List.length (granted settled)) (acquirers ops)).
Proof.
  intros ops Hops settled l.
  destruct (@AsyncLockFacts.run_fifo ops AsyncLock.new) as (H1 & H2 & H3);
    [intro; reflexivity | exact Hops |].
  cbn [AsyncLock.queue AsyncLock.new app] in H1.
  fold settled in H1, H3. fold l in H1, H2.
  split; [exact H1 |]. split; [exact H3 |]. split.
  - intro Hfree. unfold AsyncLock.getQueueLength.
    now rewrite (H2 Hfree).
  - unfold AsyncLock.clear. cbn [fst]. f_equal.
    rewrite H1, skipn_app, skipn_all, Nat.sub_diag. reflexivity.
Qed.

Lemma lock_is_granted_in_arrival_order_witness :
  acquirers [AsyncLock.op_acquire 1%nat; AsyncLock.op_acquire 2%nat;
             AsyncLock.op_acquire 3%nat; AsyncLock.op_release]
  = granted (fst (AsyncLock.run
                    [AsyncLock.op_acquire 1%nat; AsyncLock.op_acquire 2%nat;
                     AsyncLock.op_acquire 3%nat; AsyncLock.op_release]
                    AsyncLock.new))
    ++ AsyncLock.queue
         (snd (AsyncLock.run
                 [AsyncLock.op_acquire 1%nat; AsyncLock.op_acquire 2%nat;
                  AsyncLock.op_acquire 3%nat; AsyncLock.op_release]
                 AsyncLock.new)).
Proof.
  apply (@lock_is_granted_in_arrival_order
           [AsyncLock.op_acquire 1%nat; AsyncLock.op_acquire 2%nat;
            AsyncLock.op_acquire 3%nat; AsyncLock.op_release]).
  repeat constructor.
Defined.

(** X23.  At most one caller holds the lock: after any sequence of
    [acquire] and [release] calls on a new lock, the number of callers
    granted the lock is the number of accepted [release] calls, plus one
    exactly when the lock is held. *)
Theorem lock_has_at_most_one_holder :
  forall ops : list AsyncLock.Op,
    Forall (fun o => isClear o = false) ops ->
    let settled := fst (AsyncLock.run ops AsyncLock.new) in
    let l := snd (AsyncLock.run ops AsyncLock.new) in
    List.length (granted settled)
    = (acceptedReleases ops AsyncLock.new
       + (if AsyncLock.isLocked l then 1 else 0))%nat.
Proof.
  intros ops Hops settled l.
  pose proof (@AsyncLockFacts.run_holders ops AsyncLock.new Hops) as H.
  unfold holders in H. cbn [AsyncLock.locked AsyncLock.new] in H.
  fold settled in H. fold l in H. unfold AsyncLock.isLocked. lia.
Qed.

Lemma lock_has_at_most_one_holder_witness :
  List.length
    (granted (fst (AsyncLock.run
                     [AsyncLock.op_acquire 1%nat; AsyncLock.op_acquire 2%nat;
                      AsyncLock.op_release; AsyncLock.op_release;
                      AsyncLock.op_release]
                     AsyncLock.new)))
  = (acceptedReleases
       [AsyncLock.op_acquire 1%nat; AsyncLock.op_acquire 2%nat;
        AsyncLock.op_release; AsyncLock.op_release; AsyncLock.op_release]
       AsyncLock.new
     + (if AsyncLock.isLocked
             (snd (AsyncLock.run
                     [AsyncLock.op_acquire 1%nat; AsyncLock.op_acquire 2%nat;
                      AsyncLock.op_release; AsyncLock.op_release;
                      AsyncLock.op_release]
                     AsyncLock.new))
        then 1 else 0))%nat.
Proof.
  apply (@lock_has_at_most_one_holder
           [AsyncLock.op_acquire 1%nat; AsyncLock.op_acquire 2%nat;
            AsyncLock.op_release; AsyncLock.op_release;
            AsyncLock.op_release]).
  repeat constructor.
Defined.

(** X24.  [clear] frees the lock even while a caller holds it: the next
    [acquire] is granted at once, without any [release], and the
    [release] that the earlier holder makes later is accepted and frees
    the lock under the new holder. *)
Theorem clear_lets_a_second_holder_in :
  forall (l : AsyncLock.t) (w : AsyncLock.Waiter),
    AsyncLock.isLocked l = true ->
    let cleared := snd (AsyncLock.clear l) in
    let entered := AsyncLock.acquire w cleared in
    fst (AsyncLock.clear l) = map AsyncLock.rejected (AsyncLock.queue l)
    /\ fst entered = [AsyncLock.resolved w]
    /\ AsyncLock.isLocked (snd entered) = true
    /\ AsyncLock.release (snd entered) = (Some [], AsyncLock.new).
Proof.
  intros l w Hheld cleared entered.
  unfold entered, cleared, AsyncLock.clear, AsyncLock.acquire,
    AsyncLock.release, AsyncLock.isLocked, AsyncLock.new.
  cbn. auto.
Qed.

Lemma clear_lets_a_second_holder_in_witness :
  fst (AsyncLock.acquire 7%nat
         (snd (AsyncLock.clear (AsyncLock.mk true [2%nat; 3%nat]))))
  = [AsyncLock.resolved 7%nat].
Proof.
  refine (proj1 (proj2 (@clear_lets_a_second_holder_in
                          (AsyncLock.mk true [2%nat; 3%nat]) 7%nat _))).
  reflexivity.
Defined.

(** ** The storage *)

Module StorageFacts.

Lemma Map_get_set_same (V : Type) (key : string) (v : V) m :
  Map_get key (Map_set key v m) = Some v.
Proof.
  induction m as [| [k u] m IH]; cbn.
  - now rewrite String.eqb_refl.
  - destruct (String.eqb k key) eqn:E; cbn; rewrite E; auto.
Qed.

Lemma Map_get_set_other (V : Type) (key key' : string) (v : V) m :
  key' <> key ->
  Map_get key' (Map_set key v m) = Map_get key' m.
Proof.
  intro Hne. induction m as [| [k u] m IH]; cbn.
  - destruct (String.eqb key key') eqn:E; [| reflexivity].
    apply String.eqb_eq in E. congruence.
  - destruct (String.eqb k key) eqn:E; cbn.
    + apply String.eqb_eq in E. subst k.
      destruct (String.eqb key key') eqn:E'; [| reflexivity].
      apply String.eqb_eq in E'. congruence.
    + destruct (String.eqb k key'); auto.
Qed.

Lemma addAll_history (TMetadata : Type)
  (records : list (ConsumptionRecord.t TMetadata)) :
  forall st,
    InMemoryStorage.consumptionHistory (addAll records st)
    = InMemoryStorage.consumptionHistory st ++ records
    /\ InMemoryStorage.tokenBucketStates (addAll records st)
       = InMemoryStorage.tokenBucketStates st
    /\ InMemoryStorage.compensationDebt (addAll records st)
       = InMemoryStorage.compensationDebt st.
Proof.
  induction records as [| r rest IH]; intro st.
  - cbn. now rewrite app_nil_r.
  - change (addAll (r :: rest) st)
      with (addAll rest (InMemoryStorage.addConsumptionRecord r st)).
    destruct (IH (InMemoryStorage.addConsumptionRecord r st))
      as (-> & -> & ->).
    cbn. now rewrite <- app_assoc.
Qed.

End StorageFacts.

(** X25.  The storage keeps one bucket state per key: a saved state is
    loaded back under its key, replaces the one saved before, and leaves
    the states of the other keys, the ledger and the debt alone. *)
Theorem storage_keeps_one_bucket_state_per_key :
  forall (TMetadata : Type) (st : InMemoryStorage.t TMetadata)
         (key key' : string) (state state' : TokenBucketState.t),
    key' <> key ->
    let saved := InMemoryStorage.saveTokenBucketState key state st in
    InMemoryStorage.loadTokenBucketState key saved = Some state
    /\ InMemoryStorage.loadTokenBucketState key
         (InMemoryStorage.saveTokenBucketState key state' saved)
       = Some state'
    /\ InMemoryStorage.loadTokenBucketState key' saved
       = InMemoryStorage.loadTokenBucketState key' st
    /\ InMemoryStorage.loadTokenBucketState key
         (InMemoryStorage.saveTokenBucketState key' state' saved)
       = Some state
    /\ InMemoryStorage.loadConsumptionHistory None saved
       = InMemoryStorage.loadConsumptionHistory None st
    /\ InMemoryStorage.loadCompensationDebt saved
       = InMemoryStorage.loadCompensationDebt st.
Proof.
  intros TMetadata st key key' state state' Hne saved.
  unfold saved, InMemoryStorage.loadTokenBucketState,
    InMemoryStorage.saveTokenBucketState.
  cbn [InMemoryStorage.tokenBucketStates].
  split; [apply StorageFacts.Map_get_set_same |].
  split; [apply StorageFacts.Map_get_set_same |].
  split; [now apply StorageFacts.Map_get_set_other |].
  split; [| split; reflexivity].
  rewrite StorageFacts.Map_get_set_other by congruence.
  apply StorageFacts.Map_get_set_same.
Qed.

Lemma storage_keeps_one_bucket_state_per_key_witness :
  InMemoryStorage.loadTokenBucketState "rpm"
    (InMemoryStorage.saveTokenBucketState "tpm"
       (TokenBucketState.mk 500 1000 1000)
       (InMemoryStorage.saveTokenBucketState "rpm"
          (TokenBucketState.mk 59 60 1000) (InMemoryStorage.new unit)))
  = Some (TokenBucketState.mk 59 60 1000).
Proof.
  refine (proj1 (proj2 (proj2 (proj2
    (@storage_keeps_one_bucket_state_per_key unit (InMemoryStorage.new unit)
       "rpm" "tpm" (TokenBucketState.mk 59 60 1000)
       (TokenBucketState.mk 500 1000 1000) _))))).
  discriminate.
Defined.

(** X26.  [loadConsumptionHistory] with a positive limit returns the
    records added last, in the order they were added; with no limit, with
    the limit 0 or with a negative limit it returns the whole ledger. *)
Theorem storage_loads_the_newest_records :
  forall (TMetadata : Type) (st : InMemoryStorage.t TMetadata)
         (records : list (ConsumptionRecord.t TMetadata)) (limit : Z),
    let ledger := InMemoryStorage.consumptionHistory st ++ records in
    let stored := addAll records st in
    ((0 < limit)%Z ->
     InMemoryStorage.loadConsumptionHistory (Some limit) stored
     = skipn (List.length ledger - Z.to_nat limit) ledger)
    /\ ((limit <= 0)%Z ->
        InMemoryStorage.loadConsumptionHistory (Some limit) stored = ledger)
    /\ InMemoryStorage.loadConsumptionHistory None stored = ledger.
Proof.
  intros TMetadata st records limit ledger stored.
  destruct (StorageFacts.addAll_history records st) as (Hh & _).
  fold stored in Hh. fold ledger in Hh.
  unfold InMemoryStorage.loadConsumptionHistory. rewrite Hh.
  split; [| split; [| reflexivity]].
  - intro Hpos.
    assert (E1 : (limit =? 0)%Z = false) by (apply Z.eqb_neq; lia).
    assert (E2 : (0 <? limit)%Z = true) by (apply Z.ltb_lt; lia).
    rewrite E1, E2. cbn [negb andb]. now apply Array_slice_last.
  - intro Hneg.
    destruct (limit =? 0)%Z; cbn [negb andb]; [reflexivity |].
    assert (E2 : (0 <? limit)%Z = false) by (apply Z.ltb_ge; lia).
    now rewrite E2.
Qed.

Lemma storage_loads_the_newest_records_witness :
  InMemoryStorage.loadConsumptionHistory (Some 1%Z)
    (addAll [recordOf 1000 (JSString.ofAscii "request-1") 500 None 0;
             recordOf 2000 (JSString.ofAscii "request-2") 100 None 0]
            (InMemoryStorage.new unit))
  = [recordOf 2000 (JSString.ofAscii "request-2") 100 None 0].
Proof.
  apply (proj1 (@storage_loads_the_newest_records unit
                  (InMemoryStorage.new unit)
                  [recordOf 1000 (JSString.ofAscii "request-1") 500 None 0;
                   recordOf 2000 (JSString.ofAscii "request-2") 100 None 0] 1%Z)).
  reflexivity.
Defined.

(** ** The size of the ledger *)

Module LedgerFacts.
Import LLMThrottle EngineNotions.

Section Facts.

Variable TMetadata : Type.
Local Abbreviation engine := (LLMThrottle.t TMetadata).

Lemma cleanupHistory_withinMax now (th : engine) :
  (0 < maxHistoryRecords th)%Z -> withinMax (cleanupHistory now th).
Proof.
  intro Hmax. unfold withinMax.
  rewrite LLMThrottleFacts.cleanupHistory_history by exact Hmax.
  destruct (LLMThrottleFacts.cleanupHistory_frame now th)
    as (_ & _ & _ & _ & -> & _).
  rewrite LLMThrottleFacts.newest_length by lia. lia.
Qed.

Lemma step_withinMax now (c : Call TMetadata) (th : engine) :
  wellFormed th -> withinMax th -> withinMax (step now c th).
Proof.
  intros Hwf Hin. pose proof Hwf as (_ & _ & _ & Hmax & _).
  destruct c; cbn [step].
  - destruct (Qlt_le_dec estimatedTokens 0) as [Hn|Hp].
    + now rewrite LLMThrottleFacts.canProcess_negative.
    + now rewrite LLMThrottleFacts.canProcess_eq.
  - destruct (requestIdIsEmpty requestId) eqn:Hid.
    + now rewrite LLMThrottleFacts.consume_empty_id.
    + destruct (Qlt_le_dec (estimatedTokens + compensationDebt th) 0)
        as [Hn|Hp].
      * now rewrite LLMThrottleFacts.consume_negative_total.
      * rewrite LLMThrottleFacts.consume_eq by assumption.
        destruct (_ && _); cbn [snd]; [| exact Hin].
        now apply cleanupHistory_withinMax.
  - destruct (Qlt_le_dec actualTokens 0) as [Hn|Hp].
    + now rewrite LLMThrottleFacts.adjustConsumption_negative.
    + destruct (Array_find (hasRequestId requestId) (consumptionHistory th))
        as [[i x] |] eqn:Ef.
      * apply Array_find_some in Ef.
        destruct Ef as (l1 & l2 & Hh & _ & Hx & Hl1).
        rewrite (@LLMThrottleFacts.adjustConsumption_eq _ requestId
                   actualTokens now th l1 x l2) by assumption.
        assert (Hlen : List.length (l1 ++ reconcile actualTokens x :: l2)
                       = List.length (consumptionHistory th))
          by (rewrite Hh, !length_app; reflexivity).
        unfold withinMax in *.
        destruct (Qlt_bool 0 _).
        -- destruct (Qle_bool _ _); [cbn; rewrite Hlen; exact Hin |].
           destruct (adjustmentFailureStrategy th); cbn;
             rewrite ?Hlen; exact Hin.
        -- destruct (Qlt_bool _ 0); cbn; rewrite Hlen; exact Hin.
      * apply Array_find_none in Ef.
        now rewrite LLMThrottleFacts.adjustConsumption_unknown.
  - pose proof (@cleanupHistory_withinMax now th Hmax) as Hc.
    unfold withinMax in *. rewrite LLMThrottleFacts.getMetrics_history.
    replace (maxHistoryRecords (snd (getMetrics now th)))
      with (maxHistoryRecords (cleanupHistory now th)) by reflexivity.
    exact Hc.
  - now apply cleanupHistory_withinMax.
  - unfold withinMax, reset. cbn. lia.
  - unfold setHistoryRetention. destruct (Qle_bool ms 0); exact Hin.
  - unfold setMaxHistoryRecords.
    destruct (count <=? 0)%Z eqn:E; cbn [snd]; [exact Hin |].
    apply Z.leb_gt in E. now apply cleanupHistory_withinMax.
  - exact Hin.
  - unfold restoreFromSnapshot.
    destruct (TokenBucket.restoreState (StateSnapshot.rpmBucketState snapshot)
                (rpmBucket th)) as [[u | e] b1]; [| exact Hin].
    cbn [tpmBucket set_rpmBucket].
    destruct (TokenBucket.restoreState (StateSnapshot.tpmBucketState snapshot)
                (tpmBucket th)) as [[u' | e] b2]; [| exact Hin].
    unfold withinMax. cbn. lia.
Qed.

Lemma run_withinMax (calls : list (Q * Call TMetadata)) :
  forall th : engine,
    wellFormed th -> withinMax th -> withinMax (run calls th).
Proof.
  induction calls as [| [now c] rest IH]; intros th Hwf Hin; cbn [run];
    [exact Hin |].
  apply IH;
    [now apply LLMThrottleFacts.step_wellFormed | now apply step_withinMax].
Qed.

(** [reset] on a bucket. *)
Lemma reset_bucket now (b b0 : TokenBucket.t) :
  sameShape b b0 ->
  TokenBucket.reset now b
  = TokenBucket.mk (TokenBucket._capacity b0) (TokenBucket._capacity b0)
      (TokenBucket._refillRate b0) now (TokenBucket._storage b0).
Proof.
  intros (Hc & Hr & Hs). unfold TokenBucket.reset.
  set (full := TokenBucket.set_lastRefill now
                 (TokenBucket.set_available (TokenBucket._capacity b) b)).
  assert (Hfull : full
                  = TokenBucket.mk (TokenBucket._capacity b0)
                      (TokenBucket._capacity b0) (TokenBucket._refillRate b0)
                      now (TokenBucket._storage b0))
    by (unfold full; destruct b, b0; cbn in *; now subst).
  clearbody full. subst full.
  unfold TokenBucket.persistState, TokenBucket.getState.
  destruct (negb _); cbn [snd]; [reflexivity |].
  destruct (TokenBucketFacts.refill_cases now
              (TokenBucket.mk (TokenBucket._capacity b0)
                 (TokenBucket._capacity b0) (TokenBucket._refillRate b0)
                 now (TokenBucket._storage b0))) as [[_ E] | [H _]];
    [exact E |].
  cbn in H. lra.
Qed.

End Facts.

End LedgerFacts.

(** X27.  The ledger never holds more than [maxHistoryRecords] records:
    on an engine built by the constructor, after every sequence of
    calls (changes of the limit included), the ledger is within the
    current limit, and so is the figure [historyRecords] of the memory
    metrics. *)
Theorem ledger_never_exceeds_maxHistoryRecords :
  forall (TMetadata : Type) (config : LLMThrottleConfig.t) (t0 : Q)
         (th : LLMThrottle.t TMetadata)
         (calls : list (Q * Call TMetadata)) (now : Q),
    LLMThrottle.new TMetadata config t0 = Ok th ->
    let later := run calls th in
    (Z.of_nat (List.length (consumptionHistory later))
     <= maxHistoryRecords later)%Z
    /\ (MemoryMetrics.historyRecords
          (RateLimitMetrics.memory (fst (getMetrics now later)))
        <= MemoryMetrics.maxHistoryRecords
             (RateLimitMetrics.memory (fst (getMetrics now later))))%Z.
Proof.
  intros TMetadata config t0 th calls now Hnew later.
  pose proof (LLMThrottleFacts.new_wellFormed _ _ Hnew) as Hwf.
  destruct (DebtFacts.new_debt _ _ Hnew) as (_ & Hnil & _).
  assert (H0 : withinMax th).
  { unfold withinMax. rewrite Hnil. destruct Hwf as (_ & _ & _ & Hmax & _).
    cbn. lia. }
  pose proof (@LedgerFacts.run_withinMax _ calls th Hwf H0) as H1.
  pose proof (@LLMThrottleFacts.run_wellFormed _ calls th Hwf) as Hwf1.
  fold later in H1, Hwf1.
  split; [exact H1 |].
  pose proof (@LedgerFacts.step_withinMax _ now (call_getMetrics TMetadata)
                later Hwf1 H1) as H2.
  exact H2.
Qed.

Lemma ledger_never_exceeds_maxHistoryRecords_witness :
  Z.le
    (Z.of_nat (List.length
                 (consumptionHistory
                    (run [(0, call_consume (JSString.ofAscii "a") 1 None);
                          (0, call_consume (JSString.ofAscii "b") 1 None);
                          (0, call_setMaxHistoryRecords unit 1%Z)]
                         throttle_max_10))))
    (maxHistoryRecords
       (run [(0, call_consume (JSString.ofAscii "a") 1 None);
             (0, call_consume (JSString.ofAscii "b") 1 None);
             (0, call_setMaxHistoryRecords unit 1%Z)]
            throttle_max_10)).
Proof.
  apply (@ledger_never_exceeds_maxHistoryRecords unit config_max_10 0
           throttle_max_10
           [(0, call_consume (JSString.ofAscii "a") 1 None);
            (0, call_consume (JSString.ofAscii "b") 1 None);
            (0, call_setMaxHistoryRecords unit 1%Z)] 0).
  apply throttle_max_10_new.
Defined.

(** X28.  [reset] brings the engine back to what the constructor builds
    at that moment, whatever calls were made before: both buckets full
    with their capacity and rate, the ledger empty and the debt 0; every
    estimate up to the capacity of the volume bucket is allowed again. *)
Theorem reset_restores_the_initial_buckets :
  forall (TMetadata : Type) (config : LLMThrottleConfig.t) (t0 : Q)
         (th : LLMThrottle.t TMetadata)
         (calls : list (Q * Call TMetadata)) (now : Q),
    LLMThrottle.new TMetadata config t0 = Ok th ->
    let fresh := reset now (run calls th) in
    rpmBucket fresh = rpmBucket (initialEngine TMetadata config now)
    /\ tpmBucket fresh = tpmBucket (initialEngine TMetadata config now)
    /\ consumptionHistory fresh = []
    /\ compensationDebt fresh = 0.
Proof.
  intros TMetadata config t0 th calls now Hnew fresh.
  assert (Hv : validConfig config).
  { apply ConstructorFacts.no_errors_valid.
    unfold LLMThrottle.new in Hnew.
    destruct (Validation.errors config); [reflexivity | discriminate]. }
  rewrite (ConstructorFacts.new_valid TMetadata t0 Hv) in Hnew.
  injection Hnew as <-.
  destruct (SnapshotFacts.run_sameShape calls (initialEngine TMetadata config t0))
    as [Sr St].
  unfold fresh, reset. cbn [rpmBucket tpmBucket consumptionHistory
    compensationDebt set_rpmBucket set_tpmBucket set_consumptionHistory
    set_compensationDebt].
  rewrite (@LedgerFacts.reset_bucket now _ _ Sr),
    (@LedgerFacts.reset_bucket now _ _ St).
  cbn. auto.
Qed.

Lemma reset_restores_the_initial_buckets_witness :
  tpmBucket (reset 5000
               (run [(0, call_consume (JSString.ofAscii "test-1") 100 None)]
                    (throttle_10_100 warn)))
  = tpmBucket (initialEngine unit (config_10_100 warn) 5000).
Proof.
  refine (proj1 (proj2
    (@reset_restores_the_initial_buckets unit (config_10_100 warn) 0
       (throttle_10_100 warn) [(0, call_consume (JSString.ofAscii "test-1") 100 None)] 5000 _))).
  apply throttle_10_100_new.
Defined.
